(** * mc4-panel-MVP: the interactive geometry-state editor of [src/App.jsx]

    A shallow embedding of the editor logic of the React component [App]:
    the loading effect, the coordinate transform, the geometry utilities,
    the panel-end resolver, the selection engine, the panel state machine
    with its undo/redo history, the aggregate counters, the note layer, the
    view (zoom, wheel and pan) and the mouse handlers; of the inverter
    component; of the daily log with its export and its history table; and
    of the pointer transform, the box selection and the counters of the
    earlier revision of the component.

    Conventions of the embedding.
    - Numbers are embedded twice.  In the handlers, whose properties are
      stated through the comparisons the code itself makes, a JavaScript
      number is a [JsNum]: an exact rational, or one of the three non-finite
      values [NaN], [+Infinity], [-Infinity].  Rounding of doubles and the
      sign of zero are not modelled there; a zero divisor is the positive
      zero that [a - a] and [a + (-a)] produce in JavaScript.  Where a
      result depends on the rounding (the bounds of the loading effect, the
      coordinate transform, the panel-end resolver, the ray casting, the
      spatial join and the inverter component), the functions are embedded,
      some of them a second time, in the module [Double], over the binary64
      numbers of the kernel and their IEEE 754 operations.
    - In the exact embedding [Math.hypot] is carried by its square
      ([jsHypot2]); every use of a length in the handlers is a comparison of
      two lengths or of a length with a constant.  In [Double] it is a
      parameter of the resolver: the language leaves its value to the
      implementation.
    - React state is threaded explicitly: an event handler is a function from
      the committed state to the next committed state.
    - The object [panelStates] is a [gmap] from the panel index to the entry
      object; a missing key is [undefined].  The plain object [aggregated]
      of the export is the list of its own properties in the order of their
      creation, read through the names every object inherits.
    - What the document provides (the canvas point of a mouse event, the
      rectangle of the [svg] element, the time value of a date string) is a
      parameter of the handlers that read it. *)

From Stdlib Require Import Floats.
From Stdlib Require Import ZArith QArith Qabs Lia Lqa List Permutation Sorted.
From stdpp Require Import gmap list strings.

(** ** JavaScript numbers *)

Inductive JsNum : Type :=
  | Fin (q : Q)
  | PosInf
  | NegInf
  | NaN.

Definition Qlt_bool (a b : Q) : bool := negb (Qle_bool b a).

Definition isFinite (a : JsNum) : bool :=
  match a with Fin _ => true | _ => false end.

(** Model-level equality of numbers: rationals up to [Qeq]. *)
Definition jsEq (a b : JsNum) : Prop :=
  match a, b with
  | Fin p, Fin q => (p == q)%Q
  | PosInf, PosInf | NegInf, NegInf | NaN, NaN => True
  | _, _ => False
  end.

(** The infinity with the sign of [s], [NaN] for a zero [s]. *)
Definition infOfSign (s : comparison) : JsNum :=
  match s with Gt => PosInf | Lt => NegInf | Eq => NaN end.

Definition jsNeg (a : JsNum) : JsNum :=
  match a with
  | Fin q => Fin (- q)
  | PosInf => NegInf
  | NegInf => PosInf
  | NaN => NaN
  end.

Definition jsAdd (a b : JsNum) : JsNum :=
  match a, b with
  | NaN, _ | _, NaN => NaN
  | Fin p, Fin q => Fin (p + q)
  | PosInf, NegInf | NegInf, PosInf => NaN
  | PosInf, _ | _, PosInf => PosInf
  | NegInf, _ | _, NegInf => NegInf
  end.

Definition jsSub (a b : JsNum) : JsNum := jsAdd a (jsNeg b).

Definition jsMul (a b : JsNum) : JsNum :=
  match a, b with
  | NaN, _ | _, NaN => NaN
  | Fin p, Fin q => Fin (p * q)
  | PosInf, Fin q | Fin q, PosInf => infOfSign (q ?= 0)%Q
  | NegInf, Fin q | Fin q, NegInf => infOfSign (0 ?= q)%Q
  | PosInf, PosInf | NegInf, NegInf => PosInf
  | PosInf, NegInf | NegInf, PosInf => NegInf
  end.

Definition jsDiv (a b : JsNum) : JsNum :=
  match a, b with
  | NaN, _ | _, NaN => NaN
  | Fin p, Fin q =>
      if Qeq_bool q 0 then infOfSign (p ?= 0)%Q else Fin (p / q)
  | Fin _, PosInf | Fin _, NegInf => Fin 0
  | PosInf, Fin q => if Qlt_bool q 0 then NegInf else PosInf
  | NegInf, Fin q => if Qlt_bool q 0 then PosInf else NegInf
  | _, _ => NaN
  end.

(** [a < b]; false as soon as one side is [NaN]. *)
Definition jsLt (a b : JsNum) : bool :=
  match a, b with
  | NaN, _ | _, NaN => false
  | Fin p, Fin q => Qlt_bool p q
  | NegInf, NegInf | PosInf, _ | _, NegInf => false
  | NegInf, _ | _, PosInf => true
  end.

(** [a <= b]. *)
Definition jsLe (a b : JsNum) : bool :=
  match a, b with
  | NaN, _ | _, NaN => false
  | Fin p, Fin q => Qle_bool p q
  | NegInf, _ | _, PosInf => true
  | PosInf, _ | _, NegInf => false
  end.

Definition jsGt (a b : JsNum) : bool := jsLt b a.
Definition jsGe (a b : JsNum) : bool := jsLe b a.

(** [Math.abs]. *)
Definition jsAbs (a : JsNum) : JsNum :=
  match a with
  | Fin q => Fin (Qabs q)
  | PosInf | NegInf => PosInf
  | NaN => NaN
  end.

(** [Math.min(a, b)] and [Math.max(a, b)]. *)
Definition jsMin (a b : JsNum) : JsNum :=
  match a, b with
  | NaN, _ | _, NaN => NaN
  | _, _ => if jsLe a b then a else b
  end.

Definition jsMax (a b : JsNum) : JsNum :=
  match a, b with
  | NaN, _ | _, NaN => NaN
  | _, _ => if jsLe a b then b else a
  end.

(** [Math.min(...l)] and [Math.max(...l)]; the empty spread gives the
    neutral infinities. *)
Definition jsMinList (l : list JsNum) : JsNum := foldr jsMin PosInf l.
Definition jsMaxList (l : list JsNum) : JsNum := foldr jsMax NegInf l.

(** The square of [Math.hypot(a, b)]: an infinite argument wins over [NaN]. *)
Definition jsHypot2 (a b : JsNum) : JsNum :=
  match a, b with
  | PosInf, _ | NegInf, _ | _, PosInf | _, NegInf => PosInf
  | NaN, _ | _, NaN => NaN
  | Fin p, Fin q => Fin (p * p + q * q)
  end.

(** Truthiness of a number: [0] and [NaN] are falsy. *)
Definition jsTruthy (a : JsNum) : bool :=
  match a with
  | Fin q => negb (Qeq_bool q 0)
  | NaN => false
  | _ => true
  end.

(** [a || b] on numbers. *)
Definition jsOr (a b : JsNum) : JsNum := if jsTruthy a then a else b.

Definition ofNat (n : nat) : JsNum := Fin (inject_Z (Z.of_nat n)).

(** ** Points *)

(** An object [{x, y}]. *)
Record Point : Type := mkPoint { px : JsNum; py : JsNum }.

(** An object [{lng, lat}]. *)
Record GeoPoint : Type := mkGeo { lng : JsNum; lat : JsNum }.

(** A GeoJSON position [[lng, lat]]; [c[0]] is [c.1], [c[1]] is [c.2]. *)
Definition Coord : Type := (JsNum * JsNum)%type.

Definition pointEq (p q : Point) : Prop :=
  jsEq (px p) (px q) /\ jsEq (py p) (py q).


(** ** Coordinate transform *)

(** [boundsRef.current] when it is not [null]. *)
Record Bounds : Type := mkBounds {
  minLng : JsNum;
  maxLng : JsNum;
  minLat : JsNum;
  maxLat : JsNum
}.

(** [canvasSize]. *)
Record CanvasSize : Type := mkCanvas { width : JsNum; height : JsNum }.

(** The two values [canvasSize] takes: its initial state and the one set
    when the geometry has loaded. *)
Definition initialCanvas : CanvasSize := mkCanvas (Fin 1000) (Fin 800).
Definition loadedCanvas : CanvasSize := mkCanvas (Fin 1200) (Fin 900).

Definition padding : JsNum := Fin (1 # 1000).

(** The bounds computation of the loading effect: nothing is stored for an
    empty [allCoords]. *)
Definition computeBounds (allCoords : list Coord) : option Bounds :=
  match allCoords with
  | [] => None
  | _ =>
      let lngs := map fst allCoords in
      let lats := map snd allCoords in
      Some {| minLng := jsSub (jsMinList lngs) padding;
              maxLng := jsAdd (jsMaxList lngs) padding;
              minLat := jsSub (jsMinList lats) padding;
              maxLat := jsAdd (jsMaxList lats) padding |}
  end.

(** [toSvgCoords(lng, lat)]. *)
Definition toSvgCoords (bounds : option Bounds) (canvasSize : CanvasSize)
    (lng lat : JsNum) : Point :=
  match bounds with
  | None => mkPoint (Fin 0) (Fin 0)
  | Some b =>
      let x := jsMul (jsDiv (jsSub lng (minLng b))
                            (jsSub (maxLng b) (minLng b)))
                     (width canvasSize) in
      let y := jsMul (jsDiv (jsSub (maxLat b) lat)
                            (jsSub (maxLat b) (minLat b)))
                     (height canvasSize) in
      mkPoint x y
  end.

(** [fromSvgCoords(svgX, svgY)]. *)
Definition fromSvgCoords (bounds : option Bounds) (canvasSize : CanvasSize)
    (svgX svgY : JsNum) : GeoPoint :=
  match bounds with
  | None => mkGeo (Fin 0) (Fin 0)
  | Some b =>
      let lng := jsAdd (jsMul (jsDiv svgX (width canvasSize))
                              (jsSub (maxLng b) (minLng b)))
                       (minLng b) in
      let lat := jsSub (maxLat b)
                       (jsMul (jsDiv svgY (height canvasSize))
                              (jsSub (maxLat b) (minLat b))) in
      mkGeo lng lat
  end.

(** ** Panel states *)

(** [PANEL_STATES]: [NONE] is [null], [MC4_INSTALLED] is ['mc4'],
    [TERMINATED] is ['terminated']. *)
Inductive PanelState : Type :=
  | NONE
  | MC4_INSTALLED
  | TERMINATED.

Global Instance PanelState_eq_dec : EqDecision PanelState.
Proof. solve_decision. Defined.

(** An entry [{left, right}] of [panelStates]; a property that was never
    written is [None] ([undefined]). *)
Record PanelEntry : Type := mkEntry {
  left : option PanelState;
  right : option PanelState
}.

Global Instance PanelEntry_eq_dec : EqDecision PanelEntry.
Proof. solve_decision. Defined.

Inductive Side : Type := SideLeft | SideRight.

Global Instance Side_eq_dec : EqDecision Side.
Proof. solve_decision. Defined.

Abbreviation PanelStates := (gmap nat PanelEntry).

(** [entry[side]]. *)
Definition getSide (side : Side) (e : PanelEntry) : option PanelState :=
  match side with SideLeft => left e | SideRight => right e end.

(** [{ ...entry, [side]: v }]. *)
Definition setSide (side : Side) (v : PanelState) (e : PanelEntry)
    : PanelEntry :=
  match side with
  | SideLeft => mkEntry (Some v) (right e)
  | SideRight => mkEntry (left e) (Some v)
  end.

(** [v || PANEL_STATES.NONE]: [undefined] and [null] both give [NONE]. *)
Definition orNone (v : option PanelState) : PanelState := default NONE v.

(** [prev[index]?.[side] || PANEL_STATES.NONE]. *)
Definition endState (prev : PanelStates) (index : nat) (side : Side)
    : PanelState :=
  orNone (prev !! index ≫= getSide side).

(** [{ ...prev[index] }]: spreading [undefined] gives the empty object. *)
Definition spreadEntry (o : option PanelEntry) : PanelEntry :=
  default (mkEntry None None) o.

(** Truthiness of an end value, as the indicators test it. *)
Definition stateTruthy (v : option PanelState) : bool :=
  match v with
  | Some MC4_INSTALLED | Some TERMINATED => true
  | _ => false
  end.

(** ** Geometry utilities *)

(** A panel feature: [geometry.coordinates] and [properties.text]. *)
Record Feature : Type := mkFeature {
  coordinates : list Coord;
  properties_text : option string
}.

(** [isPointInBox(point, minX, maxX, minY, maxY)]. *)
Definition isPointInBox (point : Point) (minX maxX minY maxY : JsNum)
    : bool :=
  jsGe (px point) minX && jsLe (px point) maxX &&
  jsGe (py point) minY && jsLe (py point) maxY.

Definition eps6 : JsNum := Fin (1 # 1000000).
Definition eps9 : JsNum := Fin (1 # 1000000000).

(** [orient] and [onSegment], local to [segmentsIntersect]. *)
Definition orient (a b c : Point) : JsNum :=
  jsSub (jsMul (jsSub (py b) (py a)) (jsSub (px c) (px b)))
        (jsMul (jsSub (px b) (px a)) (jsSub (py c) (py b))).

Definition onSegment (a b c : Point) : bool :=
  jsLe (jsSub (jsMin (px a) (px b)) eps6) (px c) &&
  jsLe (px c) (jsAdd (jsMax (px a) (px b)) eps6) &&
  jsLe (jsSub (jsMin (py a) (py b)) eps6) (py c) &&
  jsLe (py c) (jsAdd (jsMax (py a) (py b)) eps6).

(** [segmentsIntersect(p1, p2, q1, q2)]. *)
Definition segmentsIntersect (p1 p2 q1 q2 : Point) : bool :=
  let o1 := orient p1 p2 q1 in
  let o2 := orient p1 p2 q2 in
  let o3 := orient q1 q2 p1 in
  let o4 := orient q1 q2 p2 in
  if jsLt (jsAbs o1) eps6 && onSegment p1 p2 q1 then true
  else if jsLt (jsAbs o2) eps6 && onSegment p1 p2 q2 then true
  else if jsLt (jsAbs o3) eps6 && onSegment q1 q2 p1 then true
  else if jsLt (jsAbs o4) eps6 && onSegment q1 q2 p2 then true
  else xorb (jsGt o1 (Fin 0)) (jsGt o2 (Fin 0)) &&
       xorb (jsGt o3 (Fin 0)) (jsGt o4 (Fin 0)).

(** One turn of the ray-casting loop, for the vertices [poly[i]] and
    [poly[j]]. *)
Definition rayCrosses (point vi vj : Point) : bool :=
  xorb (jsGt (py vi) (py point)) (jsGt (py vj) (py point)) &&
  jsLt (px point)
       (jsAdd (jsDiv (jsMul (jsSub (px vj) (px vi))
                            (jsSub (py point) (py vi)))
                     (jsAdd (jsSub (py vj) (py vi)) eps9))
              (px vi)).

(** [isPointInPolygon(point, poly)]: [j] runs one vertex behind [i],
    starting at the last vertex. *)
Definition isPointInPolygon (point : Point) (poly : list Point) : bool :=
  foldl (fun inside '(vi, vj) =>
           if rayCrosses point vi vj then negb inside else inside)
        false
        (zip poly (rotate (length poly - 1) poly)).

(** ** Sorting *)

(** [Array.prototype.sort(compare)]: a stable sort; [x] moves behind [y]
    only when [compare(x, y) > 0], so a [NaN] result counts as [0]. *)
Fixpoint sortInsert {A : Type} (compare : A -> A -> JsNum) (x : A)
    (l : list A) : list A :=
  match l with
  | [] => [x]
  | y :: ys =>
      if jsLt (Fin 0) (compare x y) then y :: sortInsert compare x ys
      else x :: l
  end.

Definition jsSort {A : Type} (compare : A -> A -> JsNum) (l : list A)
    : list A :=
  foldr (sortInsert compare) [] l.

(** ** Panel-end resolver *)

(** An edge [{p1, p2, len, center}]; [len2] is the square of [len]. *)
Record Edge : Type := mkEdge {
  p1 : Point;
  p2 : Point;
  len2 : JsNum;
  center : Point
}.

Definition edgeOf (a b : Point) : Edge :=
  {| p1 := a;
     p2 := b;
     len2 := jsHypot2 (jsSub (px b) (px a)) (jsSub (py b) (py a));
     center := mkPoint (jsDiv (jsAdd (px a) (px b)) (Fin 2))
                       (jsDiv (jsAdd (py a) (py b)) (Fin 2)) |}.

(** The edge loop: edge [i] joins [svgPts[i]] and
    [svgPts[(i + 1) % svgPts.length]]. *)
Definition edgesOf (svgPts : list Point) : list Edge :=
  zip_with edgeOf svgPts (rotate 1 svgPts).

(** [(a, b) => a.len - b.len], on the squares. *)
Definition compareLen (a b : Edge) : JsNum := jsSub (len2 a) (len2 b).

(** [(a, b) => (a.center.x - b.center.x) || (a.center.y - b.center.y)]. *)
Definition compareCenter (a b : Edge) : JsNum :=
  jsOr (jsSub (px (center a)) (px (center b)))
       (jsSub (py (center a)) (py (center b))).

(** The closing point is dropped when it repeats the first one. *)
Definition uniqueCoords (coords : list Coord) : list Coord :=
  match head coords, last coords with
  | Some c0, Some cl =>
      if jsLt (jsAbs (jsSub (fst c0) (fst cl))) eps9 &&
         jsLt (jsAbs (jsSub (snd c0) (snd cl))) eps9
      then removelast coords
      else coords
  | _, _ => coords
  end.

(** The panel centre: the mean of the points. *)
Definition centroid (svgPts : list Point) : Point :=
  mkPoint
    (jsDiv (foldl (fun sum p => jsAdd sum (px p)) (Fin 0) svgPts)
           (ofNat (length svgPts)))
    (jsDiv (foldl (fun sum p => jsAdd sum (py p)) (Fin 0) svgPts)
           (ofNat (length svgPts))).

(** The two shortest edges, ordered by their centres. *)
Definition shortEdgesOf (svgPts : list Point) : list Edge :=
  jsSort compareCenter (take 2 (jsSort compareLen (edgesOf svgPts))).

(** The object [getPanelEnds] returns. *)
Record PanelEnds : Type := mkEnds {
  ends_left : Point;
  ends_right : Point;
  ends_center : Point;
  allPoints : list Point
}.

(** The resolver on the canvas-space points. *)
Definition panelEndsOf (svgPts : list Point) : PanelEnds :=
  let shortEdges := shortEdgesOf svgPts in
  let c := centroid svgPts in
  {| ends_left := from_option center c (shortEdges !! 0);
     ends_right := from_option center c (shortEdges !! 1);
     ends_center := c;
     allPoints := svgPts |}.

(** ** The editor *)

(** The aggregate counter object [{total, completed, remaining}]. *)
Record Counter : Type := mkCounter {
  total : Z;
  completed : Z;
  remaining : Z
}.

(** The React state the history manager works on. *)
Record EditorState : Type := mkEditor {
  panelStates : PanelStates;
  history : list PanelStates;
  historyIndex : nat
}.

(** [useState({})], [useState([{}])], [useState(0)]. *)
Definition initialEditor : EditorState :=
  {| panelStates := ∅; history := [∅]; historyIndex := 0 |}.

(** What the mouse-down and mouse-move handlers have recorded when the
    mouse-up handler runs outside note mode.  [clickedPanelIndex] is
    [clickedElement.dataset.panelIndex] once parsed, when the element under
    the pointer was a panel polygon. *)
Record Gesture : Type := mkGesture {
  isSelecting : bool;
  selectionStart : option Point;
  selectionEnd : option Point;
  isUnselectMode : bool;
  clickedPanelIndex : option nat
}.

(** What the panel component draws: the polygon ([points] and
    [data-panel-index]) and the state shown by each of the two indicators.
    The inset position and the radius of the indicators are not part of the
    model. *)
Record PanelView : Type := mkView {
  view_points : list Point;
  view_index : nat;
  view_center : Point;
  view_left : option PanelState;
  view_right : option PanelState
}.

(** The single-click cycle. *)
Definition clickNext (currentState : PanelState) : PanelState :=
  match currentState with
  | NONE => MC4_INSTALLED
  | MC4_INSTALLED => TERMINATED
  | TERMINATED => NONE
  end.

(** The step of a box selection (select gesture). *)
Definition selectNext (current : PanelState) : PanelState :=
  match current with
  | NONE => MC4_INSTALLED
  | MC4_INSTALLED => TERMINATED
  | TERMINATED => TERMINATED
  end.

(** [newHistory = currentHist.slice(0, curIdx + 1); newHistory.push(newStates)]
    with the index [newHistory.length - 1]. *)
Definition pushHistory (currentHist : list PanelStates) (curIdx : nat)
    (newStates : PanelStates) : list PanelStates * nat :=
  let newHistory := take (curIdx + 1) currentHist ++ [newStates] in
  (newHistory, length newHistory - 1).

(** The state updater shared by the two click handlers:
    [{ ...prev, [index]: { ...prev[index], [side]: newState } }], one push. *)
Definition clickUpdate (index : nat) (side : Side) (newState : PanelState)
    (st : EditorState) : EditorState :=
  let prev := panelStates st in
  let newStates :=
    <[index := setSide side newState (spreadEntry (prev !! index))]> prev in
  let '(newHistory, idx) :=
    pushHistory (history st) (historyIndex st) newStates in
  {| panelStates := newStates; history := newHistory; historyIndex := idx |}.

(** [handlePanelClick(e, index, side)]; [detail] is [e.detail]. *)
Definition handlePanelClick (isAddingNote : bool) (detail : nat)
    (index : nat) (side : option Side) (st : EditorState) : EditorState :=
  if isAddingNote then st
  else
    match side with
    | Some s =>
        let currentState := endState (panelStates st) index s in
        let newState :=
          if 2 <=? detail then TERMINATED else clickNext currentState in
        clickUpdate index s newState st
    | None => st
    end.

(** The entry a box selection writes for a selected panel. *)
Definition selectionEntry (unselect : bool) (prev : PanelStates)
    (index : nat) : PanelEntry :=
  let currentLeft := endState prev index SideLeft in
  let currentRight := endState prev index SideRight in
  if unselect then {| left := Some NONE; right := Some NONE |}
  else {| left := Some (selectNext currentLeft);
          right := Some (selectNext currentRight) |}.

(** [undo()]; [None] stands for the state [setPanelStates(undefined)]
    would leave. *)
Definition undo (st : EditorState) : option EditorState :=
  if 0 <? historyIndex st then
    s ← history st !! (historyIndex st - 1);
    Some {| panelStates := s;
            history := history st;
            historyIndex := historyIndex st - 1 |}
  else Some st.

(** [redo()]. *)
Definition redo (st : EditorState) : option EditorState :=
  if historyIndex st <? length (history st) - 1 then
    s ← history st !! (historyIndex st + 1);
    Some {| panelStates := s;
            history := history st;
            historyIndex := historyIndex st + 1 |}
  else Some st.

Definition countsForMc4 (v : option PanelState) : bool :=
  bool_decide (v = Some MC4_INSTALLED) || bool_decide (v = Some TERMINATED).

Definition countsForTermination (v : option PanelState) : bool :=
  bool_decide (v = Some TERMINATED).

Definition incrIf (b : bool) (n : Z) : Z := if b then (n + 1)%Z else n.

(** The body of [Object.values(panelStates).forEach(state => ...)]. *)
Definition countEntry (state : PanelEntry) (acc : Z * Z) : Z * Z :=
  let '(mc4Completed, terminatedCompleted) := acc in
  let mc4Completed := incrIf (countsForMc4 (left state)) mc4Completed in
  let mc4Completed := incrIf (countsForMc4 (right state)) mc4Completed in
  let terminatedCompleted :=
    incrIf (countsForTermination (left state)) terminatedCompleted in
  let terminatedCompleted :=
    incrIf (countsForTermination (right state)) terminatedCompleted in
  (mc4Completed, terminatedCompleted).

Definition threshold : JsNum := Fin (5 # 100).

(** [dx < 0.05 && dy < 0.05] for the two corners of a gesture. *)
Definition belowThreshold (s e : Point) : bool :=
  jsLt (jsAbs (jsSub (px e) (px s))) threshold &&
  jsLt (jsAbs (jsSub (py e) (py s))) threshold.

(** The square of the distance [Math.hypot(p.x - q.x, p.y - q.y)]. *)
Definition dist2 (p q : Point) : JsNum :=
  jsHypot2 (jsSub (px p) (px q)) (jsSub (py p) (py q)).

Section Loaded.

(** The data the handlers close over: the loaded panel collection
    ([null] while loading), the bounds reference and the canvas size. *)
Variable panelsData : option (list Feature).
Variable bounds : option Bounds.
Variable canvasSize : CanvasSize.

Definition svgPtsOf (coords : list Coord) : list Point :=
  map (fun c => toSvgCoords bounds canvasSize (fst c) (snd c))
      (uniqueCoords coords).

(** [getPanelEnds(panelIndex)]. *)
Definition getPanelEnds (panelIndex : nat) : option PanelEnds :=
  features ← panelsData;
  panel ← features !! panelIndex;
  Some (panelEndsOf (svgPtsOf (coordinates panel))).

(** The panel component; [None] is the [null] it returns. *)
Definition Panel (feature : Feature) (index : nat)
    (state : option PanelEntry) : option PanelView :=
  let coords := coordinates feature in
  if length coords <? 2 then None
  else
    let svgPts := svgPtsOf coords in
    let currentState := spreadEntry state in
    Some {| view_points := svgPts;
            view_index := index;
            view_center := centroid svgPts;
            view_left := if stateTruthy (left currentState)
                         then left currentState else None;
            view_right := if stateTruthy (right currentState)
                          then right currentState else None |}.

(** [isPanelInSelection(panelIndex, selStart, selEnd)]. *)
Definition isPanelInSelection (panelIndex : nat)
    (selStart selEnd : option Point) : bool :=
  match panelsData, selStart, selEnd with
  | Some _, Some s, Some e =>
      match getPanelEnds panelIndex with
      | None => false
      | Some ends =>
          let pts := allPoints ends in
          if length pts =? 0 then false
          else
            let minX := jsMin (px s) (px e) in
            let maxX := jsMax (px s) (px e) in
            let minY := jsMin (py s) (py e) in
            let maxY := jsMax (py s) (py e) in
            let c0 := mkPoint minX minY in
            let c1 := mkPoint maxX minY in
            let c2 := mkPoint maxX maxY in
            let c3 := mkPoint minX maxY in
            let rectCorners := [c0; c1; c2; c3] in
            let rectEdges := [(c0, c1); (c1, c2); (c2, c3); (c3, c0)] in
            if existsb (fun p => isPointInBox p minX maxX minY maxY) pts
            then true
            else if existsb (fun corner => isPointInPolygon corner pts)
                            rectCorners
            then true
            else existsb
                   (fun '(a, b) =>
                      existsb (fun '(r1, r2) => segmentsIntersect a b r1 r2)
                              rectEdges)
                   (zip pts (rotate 1 pts))
      end
  | _, _, _ => false
  end.

(** [applySelection(selStart, selEnd, unselect)]. *)
Definition applySelection (selStart selEnd : option Point)
    (unselect : bool) (st : EditorState) : EditorState :=
  match panelsData, selStart, selEnd with
  | Some features, Some s, Some e =>
      if belowThreshold s e then st
      else
        let prev := panelStates st in
        let indices := seq 0 (length features) in
        let newStates :=
          foldl (fun acc index =>
                   if isPanelInSelection index selStart selEnd
                   then <[index := selectionEntry unselect prev index]> acc
                   else acc)
                prev indices in
        let anySelected :=
          existsb (fun index => isPanelInSelection index selStart selEnd)
                  indices in
        if anySelected then
          let '(newHistory, idx) :=
            pushHistory (history st) (historyIndex st) newStates in
          {| panelStates := newStates;
             history := newHistory;
             historyIndex := idx |}
        else
          {| panelStates := newStates;
             history := history st;
             historyIndex := historyIndex st |}
  | _, _, _ => st
  end.

(** The side a click falls on: the nearer of the two ends. *)
Definition clickedSide (ends : PanelEnds) (point : Point) : Side :=
  if jsLt (dist2 point (ends_left ends)) (dist2 point (ends_right ends))
  then SideLeft else SideRight.

(** The branch of [handleMouseUp] taken outside note mode; the [svg]
    element is the mounted one that received the event. *)
Definition handleMouseUp (g : Gesture) (st : EditorState) : EditorState :=
  match isSelecting g, selectionStart g, selectionEnd g with
  | true, Some s, Some e =>
      let isClick := belowThreshold s e in
      match (if isClick then clickedPanelIndex g else None) with
      | Some panelIndex =>
          match getPanelEnds panelIndex with
          | Some ends =>
              let side := clickedSide ends s in
              let currentState :=
                endState (panelStates st) panelIndex side in
              clickUpdate panelIndex side (clickNext currentState) st
          | None => st
          end
      | None =>
          applySelection (selectionStart g) (selectionEnd g)
                         (isUnselectMode g) st
      end
  | _, _, _ => st
  end.

(** The counters computed for [ProgressStats]: the pair [(mc4,
    termination)]. *)
Definition counters (ps : PanelStates) : Counter * Counter :=
  let totalPanels :=
    match panelsData with Some features => length features | None => 0 end in
  let totalEnds := (Z.of_nat totalPanels * 2)%Z in
  let '(mc4Completed, terminatedCompleted) :=
    map_fold (fun _ state acc => countEntry state acc) (0%Z, 0%Z) ps in
  ({| total := totalEnds;
      completed := mc4Completed;
      remaining := (totalEnds - mc4Completed)%Z |},
   {| total := totalEnds;
      completed := terminatedCompleted;
      remaining := (totalEnds - terminatedCompleted)%Z |}).

Definition mc4 (ps : PanelStates) : Counter := fst (counters ps).
Definition termination (ps : PanelStates) : Counter := snd (counters ps).

(** A panel index whose polygon is drawn, hence can be the target of a
    click. *)
Definition rendered (index : nat) : Prop :=
  exists features feature,
    panelsData = Some features /\
    features !! index = Some feature /\
    2 <= length (coordinates feature).

(** One user action on the editor state: a mouse-up on the drawing (a
    click on a drawn panel or the end of a drag), a click event handed to
    [handlePanelClick] by a drawn panel, an undo or a redo. *)
Inductive step : EditorState -> EditorState -> Prop :=
  | step_mouseUp g st :
      (forall index, clickedPanelIndex g = Some index -> rendered index) ->
      step st (handleMouseUp g st)
  | step_panelClick isAddingNote detail index side st :
      rendered index ->
      step st (handlePanelClick isAddingNote detail index side st)
  | step_undo st st' : undo st = Some st' -> step st st'
  | step_redo st st' : redo st = Some st' -> step st st'.

Inductive reachable : EditorState -> Prop :=
  | reachable_init : reachable initialEditor
  | reachable_step st st' : reachable st -> step st st' -> reachable st'.

End Loaded.

(** ** The loading effect *)

(** A feature of the text layer: its position and [properties.text]. *)
Record TextFeature : Type := mkText {
  text_coordinates : Coord;
  text_text : option string
}.

(** The bounding box the spatial join computes for a polygon, as
    [(minX, maxX, minY, maxY)]. *)
Definition polyBox (poly : list Coord) : JsNum * JsNum * JsNum * JsNum :=
  foldl (fun '(minX, maxX, minY, maxY) p =>
           (if jsLt (fst p) minX then fst p else minX,
            if jsGt (fst p) maxX then fst p else maxX,
            if jsLt (snd p) minY then snd p else minY,
            if jsGt (snd p) maxY then snd p else maxY))
        (PosInf, NegInf, PosInf, NegInf) poly.

(** The test [intersect] of the ray casting loop of the spatial join, for
    the vertices [poly[i]] and [poly[j]]. *)
Definition intersect (tx ty : JsNum) (ci cj : Coord) : bool :=
  xorb (jsGt (snd ci) ty) (jsGt (snd cj) ty) &&
  jsLt tx
       (jsAdd (jsDiv (jsMul (jsSub (fst cj) (fst ci)) (jsSub ty (snd ci)))
                     (jsAdd (jsSub (snd cj) (snd ci)) eps9))
              (fst ci)).

(** The predicate of [textPoints.find]: the text position lies in the
    bounding box of the polygon and the ray casting loop finds it inside. *)
Definition textInside (poly : list Coord) (t : TextFeature) : bool :=
  let '(minX, maxX, minY, maxY) := polyBox poly in
  let tx := fst (text_coordinates t) in
  let ty := snd (text_coordinates t) in
  if jsLt tx minX || jsGt tx maxX || jsLt ty minY || jsGt ty maxY then false
  else
    foldl (fun inside '(ci, cj) =>
             if intersect tx ty ci cj then negb inside else inside)
          false
          (zip poly (rotate (length poly - 1) poly)).

(** The spatial join for one panel: the text of the first text feature
    found inside the polygon replaces [properties.text]. *)
Definition joinText (text : list TextFeature) (panel : Feature) : Feature :=
  match find (textInside (coordinates panel)) text with
  | Some matchingText =>
      {| coordinates := coordinates panel;
         properties_text := text_text matchingText |}
  | None => panel
  end.

(** [allCoords]: the positions of the panels, of the line and inverter
    features that have coordinates, and of the text features. *)
Definition gatherCoords (panels : list Feature)
    (line invPoint : list (option (list Coord))) (text : list TextFeature)
    : list Coord :=
  concat (map coordinates panels) ++ concat (omap id line)
  ++ concat (omap id invPoint) ++ map text_coordinates text.

(** What the loading effect leaves behind: [panelsData.features],
    [boundsRef.current] and [canvasSize]. *)
Record LoadedSite : Type := mkSite {
  site_panels : list Feature;
  site_bounds : option Bounds;
  site_canvas : CanvasSize
}.

Definition loadSite (panels : list Feature)
    (line invPoint : list (option (list Coord))) (text : list TextFeature)
    : LoadedSite :=
  let allCoords := gatherCoords panels line invPoint text in
  {| site_panels := map (joinText text) panels;
     site_bounds := computeBounds allCoords;
     site_canvas :=
       if 0 <? length allCoords then loadedCanvas else initialCanvas |}.

(** ** The note layer *)

(** A note [{id, svgX, svgY, text}]. *)
Record Note : Type := mkNote {
  id : Z;
  svgX : JsNum;
  svgY : JsNum;
  text : string
}.

(** The React state of the note layer: [notes], [editingNote] and the set
    [selectedNotes] of note ids. *)
Record NoteLayer : Type := mkNoteLayer {
  notes : list Note;
  editingNote : option Note;
  selectedNotes : gset Z
}.

Definition initialNotes : NoteLayer :=
  {| notes := []; editingNote := None; selectedNotes := ∅ |}.

(** What the mouse-down and mouse-move handlers have recorded in note
    mode. *)
Record NoteGesture : Type := mkNoteGesture {
  isNoteSelecting : bool;
  noteSelectionStart : option Point;
  noteSelectionEnd : option Point
}.

Definition clickRadius : JsNum := Fin 5.

(** The predicate of [notes.find]: [distance < clickRadius], decided on the
    squares. *)
Definition nearClick (start : Point) (note : Note) : bool :=
  jsLt (jsHypot2 (jsSub (svgX note) (px start)) (jsSub (svgY note) (py start)))
       (jsMul clickRadius clickRadius).

(** The containment test of the note box selection. *)
Definition noteInBox (minX maxX minY maxY : JsNum) (note : Note) : bool :=
  jsGe (svgX note) minX && jsLe (svgX note) maxX &&
  jsGe (svgY note) minY && jsLe (svgY note) maxY.

(** The note branch of [handleMouseUp]; [now] is [Date.now()]. *)
Definition handleMouseUpNote (now : Z) (g : NoteGesture) (nl : NoteLayer)
    : NoteLayer :=
  match isNoteSelecting g, noteSelectionStart g, noteSelectionEnd g with
  | true, Some s, Some e =>
      let isClick := belowThreshold s e in
      if isClick then
        match find (nearClick s) (notes nl) with
        | Some existingNote =>
            {| notes := notes nl;
               editingNote := Some existingNote;
               selectedNotes := selectedNotes nl |}
        | None =>
            let newNote :=
              {| id := now; svgX := px s; svgY := py s; text := "" |} in
            {| notes := notes nl ++ [newNote];
               editingNote := editingNote nl;
               selectedNotes := selectedNotes nl |}
        end
      else
        let minX := jsMin (px s) (px e) in
        let maxX := jsMax (px s) (px e) in
        let minY := jsMin (py s) (py e) in
        let maxY := jsMax (py s) (py e) in
        let selectedIds :=
          foldl (fun acc note =>
                   if noteInBox minX maxX minY maxY note
                   then {[ id note ]} ∪ acc else acc)
                (∅ : gset Z) (notes nl) in
        {| notes := notes nl;
           editingNote := editingNote nl;
           selectedNotes := selectedIds |}
  | _, _, _ => nl
  end.

(** [updateNote(id, text)]: [{ ...n, text }] for every note with this id. *)
Definition updateNote (noteId : Z) (newText : string) (nl : NoteLayer)
    : NoteLayer :=
  {| notes :=
       map (fun n =>
              if bool_decide (id n = noteId)
              then {| id := id n; svgX := svgX n; svgY := svgY n;
                      text := newText |}
              else n)
           (notes nl);
     editingNote := editingNote nl;
     selectedNotes := selectedNotes nl |}.

(** [deleteNote(id)]. *)
Definition deleteNote (noteId : Z) (nl : NoteLayer) : NoteLayer :=
  {| notes := List.filter (fun n => negb (bool_decide (id n = noteId)))
                          (notes nl);
     editingNote := editingNote nl;
     selectedNotes := selectedNotes nl |}.

(** The [onDelete] handler given to the note editor. *)
Definition editorDelete (noteId : Z) (nl : NoteLayer) : NoteLayer :=
  {| notes := notes (deleteNote noteId nl);
     editingNote := None;
     selectedNotes := selectedNotes nl |}.

(** The white space and line terminator code units below 256: a string
    is read as the list of its code units. *)
Definition isWhiteSpace (c : Ascii.ascii) : bool :=
  let n := Ascii.nat_of_ascii c in
  (n =? 9) || (n =? 10) || (n =? 11) || (n =? 12) || (n =? 13) ||
  (n =? 32) || (n =? 160).

(** [text.trim()] is the empty string. *)
Definition trimIsEmpty (s : string) : bool :=
  forallb isWhiteSpace (String.list_ascii_of_string s).

(** [handleSave] of the note editor, which is mounted on [editingNote]:
    a text that is not blank is stored, then the editor is closed. *)
Definition editorSave (editorText : string) (nl : NoteLayer) : NoteLayer :=
  match editingNote nl with
  | None => nl
  | Some note =>
      let nl' :=
        if trimIsEmpty editorText then nl
        else updateNote (id note) editorText nl in
      {| notes := notes nl';
         editingNote := None;
         selectedNotes := selectedNotes nl' |}
  end.

(** The Delete key: in note mode, with a non-empty selection, the selected
    notes are removed and the selection is emptied. *)
Definition handleDeleteKey (isAddingNote : bool) (nl : NoteLayer)
    : NoteLayer :=
  if isAddingNote then
    if 0 <? size (selectedNotes nl) then
      {| notes :=
           List.filter
             (fun note => negb (bool_decide (id note ∈ selectedNotes nl)))
             (notes nl);
         editingNote := editingNote nl;
         selectedNotes := ∅ |}
    else nl
  else nl.

(** ** The view *)

(** The state [viewBox] and the rectangle [svg.getBoundingClientRect()]. *)
Record ViewBox : Type := mkViewBox {
  view_x : JsNum;
  view_y : JsNum;
  view_width : JsNum;
  view_height : JsNum
}.

Record ClientRect : Type := mkRect {
  rect_left : JsNum;
  rect_top : JsNum;
  rect_width : JsNum;
  rect_height : JsNum
}.

(** [useState({ x: 0, y: 0, width: 1000, height: 800 })] and the view set
    when the geometry has loaded. *)
Definition initialViewBox : ViewBox :=
  mkViewBox (Fin 0) (Fin 0) (Fin 1000) (Fin 800).
Definition loadedViewBox : ViewBox :=
  mkViewBox (Fin 0) (Fin 0) (Fin 1200) (Fin 900).

(** [canvasToScreen(canvasX, canvasY)]; the rectangle is [None] while the
    [svg] element is not mounted. *)
Definition canvasToScreen (rect : option ClientRect) (viewBox : ViewBox)
    (canvasX canvasY : JsNum) : Point :=
  match rect with
  | None => mkPoint (Fin 0) (Fin 0)
  | Some rect =>
      let screenX :=
        jsAdd (jsMul (jsDiv (jsSub canvasX (view_x viewBox))
                            (view_width viewBox))
                     (rect_width rect))
              (rect_left rect) in
      let screenY :=
        jsAdd (jsMul (jsDiv (jsSub canvasY (view_y viewBox))
                            (view_height viewBox))
                     (rect_height rect))
              (rect_top rect) in
      mkPoint screenX screenY
  end.

(** [zoom(zoomIn, centerX = null, centerY = null)], as the update of
    [viewBox]. *)
Definition zoom (rect : option ClientRect) (zoomIn : bool)
    (centerX centerY : option JsNum) (prev : ViewBox) : ViewBox :=
  match rect with
  | None => prev
  | Some rect =>
      let mouseX :=
        match centerX with
        | Some c => c
        | None => jsDiv (rect_width rect) (Fin 2)
        end in
      let mouseY :=
        match centerY with
        | Some c => c
        | None => jsDiv (rect_height rect) (Fin 2)
        end in
      let svgX :=
        jsAdd (view_x prev)
              (jsMul (jsDiv mouseX (rect_width rect)) (view_width prev)) in
      let svgY :=
        jsAdd (view_y prev)
              (jsMul (jsDiv mouseY (rect_height rect)) (view_height prev)) in
      let zoomFactor := if zoomIn then Fin (8 # 10) else Fin (125 # 100) in
      let newWidth := jsMul (view_width prev) zoomFactor in
      let newHeight := jsMul (view_height prev) zoomFactor in
      let newX :=
        jsSub svgX (jsMul (jsDiv mouseX (rect_width rect)) newWidth) in
      let newY :=
        jsSub svgY (jsMul (jsDiv mouseY (rect_height rect)) newHeight) in
      mkViewBox newX newY newWidth newHeight
  end.

(** The wheel listener, as the update of [viewBox]; it is installed once
    the [svg] element is mounted. *)
Definition wheelHandler (rect : ClientRect) (clientX clientY deltaY : JsNum)
    (prev : ViewBox) : ViewBox :=
  let mouseX := jsSub clientX (rect_left rect) in
  let mouseY := jsSub clientY (rect_top rect) in
  let svgX :=
    jsAdd (view_x prev)
          (jsMul (jsDiv mouseX (rect_width rect)) (view_width prev)) in
  let svgY :=
    jsAdd (view_y prev)
          (jsMul (jsDiv mouseY (rect_height rect)) (view_height prev)) in
  let zoomFactor :=
    if jsGt deltaY (Fin 0) then Fin (11 # 10) else Fin (9 # 10) in
  let newWidth := jsMul (view_width prev) zoomFactor in
  let newHeight := jsMul (view_height prev) zoomFactor in
  let newX := jsSub svgX (jsMul (jsDiv mouseX (rect_width rect)) newWidth) in
  let newY := jsSub svgY (jsMul (jsDiv mouseY (rect_height rect)) newHeight) in
  mkViewBox newX newY newWidth newHeight.

(** The panning branch of [handleMouseMove]: the new [viewBox] and the new
    [panStart]. *)
Definition panMove (rect : option ClientRect) (clientX clientY : JsNum)
    (panStart : Point) (viewBox : ViewBox) : ViewBox * Point :=
  match rect with
  | None => (viewBox, panStart)
  | Some rect =>
      let dx :=
        jsMul (jsSub clientX (px panStart))
              (jsDiv (view_width viewBox) (rect_width rect)) in
      let dy :=
        jsMul (jsSub clientY (py panStart))
              (jsDiv (view_height viewBox) (rect_height rect)) in
      (mkViewBox (jsSub (view_x viewBox) dx) (jsSub (view_y viewBox) dy)
                 (view_width viewBox) (view_height viewBox),
       mkPoint clientX clientY)
  end.

(** ** The earlier revision of the component

    The revision kept beside the current one has its own pointer transform
    and its own box selection, driven by a selection counter. *)

(** [getSvgCoordsFromEvent(e)] of the earlier revision; [None] is [null]. *)
Definition getSvgCoordsFromEventEarlier (rect : option ClientRect)
    (viewBox : ViewBox) (clientX clientY : JsNum) : option Point :=
  match rect with
  | None => None
  | Some rect =>
      let x :=
        jsAdd (view_x viewBox)
              (jsMul (jsDiv (jsSub clientX (rect_left rect)) (rect_width rect))
                     (view_width viewBox)) in
      let y :=
        jsAdd (view_y viewBox)
              (jsMul (jsDiv (jsSub clientY (rect_top rect)) (rect_height rect))
                     (view_height viewBox)) in
      Some (mkPoint x y)
  end.

(** The editor state of the earlier revision: the history manager and
    [selectionCount]. *)
Record EarlierState : Type := mkEarlier {
  editor : EditorState;
  selectionCount : nat
}.

Definition initialEarlier : EarlierState :=
  {| editor := initialEditor; selectionCount := 0 |}.

Section LoadedEarlier.

Variable panelsData : option (list Feature).
Variable bounds : option Bounds.
Variable canvasSize : CanvasSize.

(** [isPanelInSelection] of the earlier revision: the centre of the panel
    lies in the rectangle. *)
Definition isPanelInSelectionEarlier (panelIndex : nat)
    (selStart selEnd : option Point) : bool :=
  match panelsData, selStart, selEnd with
  | Some features, Some s, Some e =>
      match features !! panelIndex with
      | None => false
      | Some panel =>
          let minX := jsMin (px s) (px e) in
          let maxX := jsMax (px s) (px e) in
          let minY := jsMin (py s) (py e) in
          let maxY := jsMax (py s) (py e) in
          let coords := coordinates panel in
          let svgCoords :=
            map (fun c => toSvgCoords bounds canvasSize (fst c) (snd c))
                coords in
          let centerX :=
            jsDiv (foldl (fun sum c => jsAdd sum (px c)) (Fin 0) svgCoords)
                  (ofNat (length svgCoords)) in
          let centerY :=
            jsDiv (foldl (fun sum c => jsAdd sum (py c)) (Fin 0) svgCoords)
                  (ofNat (length svgCoords)) in
          jsGe centerX minX && jsLe centerX maxX &&
          jsGe centerY minY && jsLe centerY maxY
      end
  | _, _, _ => false
  end.

(** [applySelection(selStart, selEnd)] of the earlier revision. *)
Definition applySelectionEarlier (selStart selEnd : option Point)
    (st : EarlierState) : EarlierState :=
  match panelsData, selStart, selEnd with
  | Some features, Some _, Some _ =>
      let selectedIndices :=
        List.filter
          (fun index => isPanelInSelectionEarlier index selStart selEnd)
          (seq 0 (length features)) in
      if length selectedIndices =? 0 then st
      else
        let newCount := selectionCount st + 1 in
        let newState :=
          if newCount mod 2 =? 1 then MC4_INSTALLED else TERMINATED in
        let shouldClear := newCount mod 3 =? 0 in
        let prev := panelStates (editor st) in
        let newStates :=
          foldl (fun newStates index =>
                   if shouldClear
                   then <[index := {| left := Some NONE;
                                      right := Some NONE |}]> newStates
                   else <[index := {| left := Some newState;
                                      right := Some newState |}]> newStates)
                prev selectedIndices in
        let '(newHistory, idx) :=
          pushHistory (history (editor st)) (historyIndex (editor st))
                      newStates in
        {| editor := {| panelStates := newStates;
                        history := newHistory;
                        historyIndex := idx |};
           selectionCount := if shouldClear then 0 else newCount |}
  | _, _, _ => st
  end.

End LoadedEarlier.

(** ** The mouse handlers *)

(** What the handlers read from a mouse event: the button, the client
    position, and [target.dataset.panelIndex] when the target is a panel
    polygon. *)
Record MouseEvent : Type := mkMouseEvent {
  ev_button : Z;
  ev_clientX : JsNum;
  ev_clientY : JsNum;
  ev_panelIndex : option nat
}.

(** The React state the three mouse handlers work on.  The stored
    [clickedElement] is kept as the panel index it carries, the only thing
    read from it; the client coordinates stored beside
    [noteSelectionStart] are never read and are left out. *)
Record AppState : Type := mkApp {
  app_editor : EditorState;
  app_notes : NoteLayer;
  app_isAddingNote : bool;
  app_gesture : Gesture;
  app_noteGesture : NoteGesture;
  app_isPanning : bool;
  app_panStart : Point;
  app_viewBox : ViewBox
}.

(** The pointer state when no gesture is in progress. *)
Definition idleGesture : Gesture :=
  {| isSelecting := false;
     selectionStart := None;
     selectionEnd := None;
     isUnselectMode := false;
     clickedPanelIndex := None |}.

Definition idleNoteGesture : NoteGesture :=
  {| isNoteSelecting := false;
     noteSelectionStart := None;
     noteSelectionEnd := None |}.

Definition initialApp : AppState :=
  {| app_editor := initialEditor;
     app_notes := initialNotes;
     app_isAddingNote := false;
     app_gesture := idleGesture;
     app_noteGesture := idleNoteGesture;
     app_isPanning := false;
     app_panStart := mkPoint (Fin 0) (Fin 0);
     app_viewBox := initialViewBox |}.

Section Pointer.

Variable panelsData : option (list Feature).
Variable bounds : option Bounds.
Variable canvasSize : CanvasSize.

(** What the document gives the handlers: the canvas point of a mouse
    event ([getSvgCoordsFromEvent], [None] for [null]) and the rectangle of
    the [svg] element ([None] while it is not mounted). *)
Variable getSvgCoordsFromEvent : MouseEvent -> option Point.
Variable svgRect : option ClientRect.

(** [handleMouseDown(e)]. *)
Definition handleMouseDown (e : MouseEvent) (st : AppState) : AppState :=
  if app_isAddingNote st then
    if (ev_button e =? 0)%Z then
      match getSvgCoordsFromEvent e with
      | Some coords =>
          {| app_editor := app_editor st;
             app_notes := app_notes st;
             app_isAddingNote := app_isAddingNote st;
             app_gesture := app_gesture st;
             app_noteGesture :=
               {| isNoteSelecting := true;
                  noteSelectionStart := Some coords;
                  noteSelectionEnd := Some coords |};
             app_isPanning := app_isPanning st;
             app_panStart := app_panStart st;
             app_viewBox := app_viewBox st |}
      | None => st
      end
    else st
  else if (ev_button e =? 0)%Z || (ev_button e =? 2)%Z then
    match getSvgCoordsFromEvent e with
    | Some coords =>
        {| app_editor := app_editor st;
           app_notes := app_notes st;
           app_isAddingNote := app_isAddingNote st;
           app_gesture :=
             {| isSelecting := true;
                selectionStart := Some coords;
                selectionEnd := Some coords;
                isUnselectMode := (ev_button e =? 2)%Z;
                clickedPanelIndex := ev_panelIndex e |};
           app_noteGesture := app_noteGesture st;
           app_isPanning := app_isPanning st;
           app_panStart := app_panStart st;
           app_viewBox := app_viewBox st |}
    | None => st
    end
  else if (ev_button e =? 1)%Z then
    {| app_editor := app_editor st;
       app_notes := app_notes st;
       app_isAddingNote := app_isAddingNote st;
       app_gesture := app_gesture st;
       app_noteGesture := app_noteGesture st;
       app_isPanning := true;
       app_panStart := mkPoint (ev_clientX e) (ev_clientY e);
       app_viewBox := app_viewBox st |}
  else st.

(** [handleMouseMove(e)]. *)
Definition handleMouseMove (e : MouseEvent) (st : AppState) : AppState :=
  if isNoteSelecting (app_noteGesture st) then
    match getSvgCoordsFromEvent e with
    | Some coords =>
        {| app_editor := app_editor st;
           app_notes := app_notes st;
           app_isAddingNote := app_isAddingNote st;
           app_gesture := app_gesture st;
           app_noteGesture :=
             {| isNoteSelecting := isNoteSelecting (app_noteGesture st);
                noteSelectionStart := noteSelectionStart (app_noteGesture st);
                noteSelectionEnd := Some coords |};
           app_isPanning := app_isPanning st;
           app_panStart := app_panStart st;
           app_viewBox := app_viewBox st |}
    | None => st
    end
  else if isSelecting (app_gesture st) then
    match getSvgCoordsFromEvent e with
    | Some coords =>
        {| app_editor := app_editor st;
           app_notes := app_notes st;
           app_isAddingNote := app_isAddingNote st;
           app_gesture :=
             {| isSelecting := isSelecting (app_gesture st);
                selectionStart := selectionStart (app_gesture st);
                selectionEnd := Some coords;
                isUnselectMode := isUnselectMode (app_gesture st);
                clickedPanelIndex := clickedPanelIndex (app_gesture st) |};
           app_noteGesture := app_noteGesture st;
           app_isPanning := app_isPanning st;
           app_panStart := app_panStart st;
           app_viewBox := app_viewBox st |}
    | None => st
    end
  else if app_isPanning st then
    let '(newViewBox, newPanStart) :=
      panMove svgRect (ev_clientX e) (ev_clientY e) (app_panStart st)
              (app_viewBox st) in
    {| app_editor := app_editor st;
       app_notes := app_notes st;
       app_isAddingNote := app_isAddingNote st;
       app_gesture := app_gesture st;
       app_noteGesture := app_noteGesture st;
       app_isPanning := app_isPanning st;
       app_panStart := newPanStart;
       app_viewBox := newViewBox |}
  else st.

(** The whole of [handleMouseUp]: the note branch, else the panel branch,
    then the resets; [now] is [Date.now()].  The note selection corners are
    cleared only when a note has been added. *)
Definition handleMouseUpEvent (now : Z) (st : AppState) : AppState :=
  let ng := app_noteGesture st in
  let inNoteBranch :=
    isNoteSelecting ng && bool_decide (is_Some (noteSelectionStart ng))
    && bool_decide (is_Some (noteSelectionEnd ng)) in
  let noteAdded :=
    match noteSelectionStart ng, noteSelectionEnd ng with
    | Some s, Some e =>
        isNoteSelecting ng && belowThreshold s e
        && bool_decide (find (nearClick s) (notes (app_notes st)) = None)
    | _, _ => false
    end in
  {| app_editor :=
       if inNoteBranch then app_editor st
       else handleMouseUp panelsData bounds canvasSize (app_gesture st)
                          (app_editor st);
     app_notes :=
       if inNoteBranch then handleMouseUpNote now ng (app_notes st)
       else app_notes st;
     app_isAddingNote := app_isAddingNote st;
     app_gesture := idleGesture;
     app_noteGesture :=
       {| isNoteSelecting := false;
          noteSelectionStart :=
            if noteAdded then None else noteSelectionStart ng;
          noteSelectionEnd :=
            if noteAdded then None else noteSelectionEnd ng |};
     app_isPanning := false;
     app_panStart := app_panStart st;
     app_viewBox := app_viewBox st |}.

(** One mouse event on the drawing. *)
Inductive MouseAction : Type :=
  | MouseDown (e : MouseEvent)
  | MouseMove (e : MouseEvent)
  | MouseUp (now : Z).

Definition handleMouse (st : AppState) (a : MouseAction) : AppState :=
  match a with
  | MouseDown e => handleMouseDown e st
  | MouseMove e => handleMouseMove e st
  | MouseUp now => handleMouseUpEvent now st
  end.

End Pointer.

(** ** The daily log and its export

    The hooks [useDailyLog] and [useChartExport].  A record of the log is
    [{date, installed_panels, subcontractor, workers}] with integer
    counts. *)

Record DailyRecord : Type := mkRecord {
  date : string;
  installed_panels : Z;
  subcontractor : string;
  workers : Z
}.

(** [n || 0] on integers. *)
Definition orZero (n : Z) : Z := if (n =? 0)%Z then 0%Z else n.

(** [addRecord(record)], as the new [dailyLog]. *)
Definition addRecord (record : DailyRecord) (dailyLog : list DailyRecord)
    : list DailyRecord :=
  dailyLog ++ [record].

(** A row of the export: the entry of [aggregated] for one date, with the
    set [subs] in insertion order.  The joined subcontractor string and the
    initials derived from [subs] are left out. *)
Record AggRow : Type := mkRow {
  row_date : string;
  row_installed_panels : Z;
  row_workers : Z;
  row_subs : list string
}.

(** [subs.add(sub)] when [sub] is not the empty string. *)
Definition addSub (sub : string) (subs : list string) : list string :=
  if bool_decide (sub = EmptyString) then subs
  else if bool_decide (sub ∈ subs) then subs
  else subs ++ [sub].

(** The update of [aggregated] for a record whose date names an own
    property or none: the row of the date is created when there is none,
    then the record is added to it.  The rows are kept in the order of
    their creation. *)
Fixpoint updateRows (record : DailyRecord) (aggregated : list AggRow)
    : list AggRow :=
  match aggregated with
  | [] =>
      [{| row_date := date record;
          row_installed_panels := 0 + orZero (installed_panels record);
          row_workers := 0 + orZero (workers record);
          row_subs := addSub (subcontractor record) [] |}]
  | row :: rest =>
      if bool_decide (row_date row = date record) then
        {| row_date := row_date row;
           row_installed_panels :=
             row_installed_panels row + orZero (installed_panels record);
           row_workers := row_workers row + orZero (workers record);
           row_subs := addSub (subcontractor record) (row_subs row) |}
        :: rest
      else row :: updateRows record rest
  end%Z.

(** The names of the members a plain object inherits from
    [Object.prototype]. *)
Definition objectPrototypeNames : list string :=
  ["constructor"; "__defineGetter__"; "__defineSetter__"; "hasOwnProperty";
   "__lookupGetter__"; "__lookupSetter__"; "isPrototypeOf";
   "propertyIsEnumerable"; "toString"; "valueOf"; "__proto__";
   "toLocaleString"].

Definition inheritedName (key : string) : bool :=
  bool_decide (key ∈ objectPrototypeNames).

(** The body of [dailyLog.forEach] on the plain object [aggregated].  When
    the date names an inherited member, [aggregated[date]] is that member,
    which is truthy: no row is created, the two sums are written on the
    member, and [aggregated[date].subs] is [undefined], so that [subs.add]
    throws a [TypeError] ([None]) when the record names a subcontractor. *)
Definition aggregateRecord (record : DailyRecord) (aggregated : list AggRow)
    : option (list AggRow) :=
  if inheritedName (date record) then
    if bool_decide (subcontractor record = EmptyString) then Some aggregated
    else None
  else Some (updateRows record aggregated).

(** The value of a decimal digit, and of a string of digits. *)
Definition digitOf (c : Ascii.ascii) : option N :=
  let n := Ascii.N_of_ascii c in
  if (48 <=? n)%N && (n <=? 57)%N then Some (n - 48)%N else None.

Fixpoint digitsValue (acc : N) (l : list Ascii.ascii) : option N :=
  match l with
  | [] => Some acc
  | c :: l' =>
      match digitOf c with
      | Some d => digitsValue (10 * acc + d)%N l'
      | None => None
      end
  end.

(** The array index a property key stands for: the key is the canonical
    decimal form of an integer below [2^32 - 1]. *)
Definition arrayIndex (key : string) : option N :=
  match String.list_ascii_of_string key with
  | [] => None
  | c :: rest =>
      if bool_decide (c = Ascii.ascii_of_N 48) &&
         negb (bool_decide (rest = []))
      then None
      else
        match digitsValue 0 (c :: rest) with
        | Some n => if (n <? 4294967295)%N then Some n else None
        | None => None
        end
  end.

Definition indexOf (row : AggRow) : N :=
  default 0%N (arrayIndex (row_date row)).

Fixpoint insertByIndex (row : AggRow) (l : list AggRow) : list AggRow :=
  match l with
  | [] => [row]
  | r :: l' =>
      if (indexOf row <? indexOf r)%N then row :: l
      else r :: insertByIndex row l'
  end.

(** [Object.values(aggregated)]: the properties whose keys are array
    indices come first, in ascending order of the index, then the other
    ones in the order of their creation. *)
Definition objectValues (aggregated : list AggRow) : list AggRow :=
  foldr (fun row acc =>
           if bool_decide (is_Some (arrayIndex (row_date row)))
           then insertByIndex row acc else acc)
        [] aggregated
  ++ List.filter (fun row => negb (bool_decide
                                     (is_Some (arrayIndex (row_date row)))))
                 aggregated.

(** What the export produces: the alert for an empty log, the
    [TypeError], or the data rows of the sheet and its totals row. *)
Inductive ExportResult : Type :=
  | NothingToExport
  | ExportThrows
  | Exported (rows : list AggRow) (totalRow : AggRow).

Section DailyLogExport.

(** The time value of [new Date(date)]; [NaN] for an invalid date. *)
Variable dateValue : string -> JsNum.

Definition exportRows (dailyLog : list DailyRecord) : ExportResult :=
  if length dailyLog =? 0 then NothingToExport
  else
    match foldl (fun aggregated record =>
                   aggregated ≫= aggregateRecord record)
                (Some []) dailyLog with
    | None => ExportThrows
    | Some aggregated =>
        let sortedData :=
          jsSort (fun a b => jsSub (dateValue (row_date a))
                                   (dateValue (row_date b)))
                 (objectValues aggregated) in
        Exported sortedData
          {| row_date := "TOTAL";
             row_installed_panels :=
               foldl (fun s r => (s + row_installed_panels r)%Z) 0%Z
                     sortedData;
             row_workers :=
               foldl (fun s r => (s + row_workers r)%Z) 0%Z sortedData;
             row_subs := [] |}
    end.

(** The rows of the history table: a sorted copy of the log, latest date
    first. *)
Definition historyRows (dailyLog : list DailyRecord) : list DailyRecord :=
  jsSort (fun a b => jsSub (dateValue (date b)) (dateValue (date a)))
         dailyLog.

End DailyLogExport.

(** One user action on the note layer: a mouse-up in note mode, a click
    on the marker of a note, the three buttons and the keys of the note
    editor (mounted on the note being edited), the Delete key or the delete
    button, and the note mode toggle, which empties the selection. *)
Inductive noteStep : NoteLayer -> NoteLayer -> Prop :=
  | noteStep_mouseUp now g nl :
      noteStep nl (handleMouseUpNote now g nl)
  | noteStep_marker note nl :
      note ∈ notes nl ->
      noteStep nl {| notes := notes nl;
                     editingNote := Some note;
                     selectedNotes := selectedNotes nl |}
  | noteStep_save editorText nl :
      noteStep nl (editorSave editorText nl)
  | noteStep_close nl :
      noteStep nl {| notes := notes nl;
                     editingNote := None;
                     selectedNotes := selectedNotes nl |}
  | noteStep_delete note nl :
      editingNote nl = Some note ->
      noteStep nl (editorDelete (id note) nl)
  | noteStep_deleteKey isAddingNote nl :
      noteStep nl (handleDeleteKey isAddingNote nl)
  | noteStep_toggle nl :
      noteStep nl {| notes := notes nl;
                     editingNote := editingNote nl;
                     selectedNotes := ∅ |}.

Inductive reachableNotes : NoteLayer -> Prop :=
  | reachableNotes_init : reachableNotes initialNotes
  | reachableNotes_step nl nl' :
      reachableNotes nl -> noteStep nl nl' -> reachableNotes nl'.

(** ** Double precision

    The functions whose results depend on the rounding of the arithmetic,
    embedded over binary64 numbers: the bounds of the loading effect, the
    coordinate transform, the panel-end resolver, the ray casting of the
    spatial join and the marker of an inverter. *)
Module Double.

(** Truthiness of a number: [0], [-0] and [NaN] are falsy. *)
Definition jsTruthy (a : float) : bool :=
  negb ((a =? 0)%float || PrimFloat.is_nan a).

(** [a || b] on numbers. *)
Definition jsOr (a b : float) : float := if jsTruthy a then a else b.

Definition isNegZero (a : float) : bool :=
  (a =? 0)%float && PrimFloat.get_sign a.

Definition isPosZero (a : float) : bool :=
  (a =? 0)%float && negb (PrimFloat.get_sign a).

(** [Math.min(...l)] and [Math.max(...l)]: [NaN] as soon as one argument is
    [NaN], [-0] below [+0], the neutral infinities for the empty spread. *)
Definition mathMin (l : list float) : float :=
  if existsb PrimFloat.is_nan l then PrimFloat.nan
  else foldl (fun lowest number =>
                if isNegZero number && isPosZero lowest then number
                else if (number <? lowest)%float then number else lowest)
             PrimFloat.infinity l.

Definition mathMax (l : list float) : float :=
  if existsb PrimFloat.is_nan l then PrimFloat.nan
  else foldl (fun highest number =>
                if isPosZero number && isNegZero highest then number
                else if (highest <? number)%float then number else highest)
             PrimFloat.neg_infinity l.

(** The number of elements of an array, as a number; the length of an array
    is below [2^32], so the conversion is exact. *)
Definition ofNat (n : nat) : float :=
  PrimFloat.of_uint63 (Uint63.of_Z (Z.of_nat n)).

(** An object [{x, y}], an object [{lng, lat}] and a GeoJSON position. *)
Record Point : Type := mkPoint { px : float; py : float }.
Record GeoPoint : Type := mkGeo { lng : float; lat : float }.
Definition Coord : Type := (float * float)%type.

(** [boundsRef.current] when it is not [null], and [canvasSize]. *)
Record Bounds : Type := mkBounds {
  minLng : float;
  maxLng : float;
  minLat : float;
  maxLat : float
}.

Record CanvasSize : Type := mkCanvas { width : float; height : float }.

Definition loadedCanvas : CanvasSize := mkCanvas 1200 900.

(** [0.001], [1e-9]. *)
Definition padding : float := 0x1.0624dd2f1a9fcp-10.
Definition eps9 : float := 0x1.12e0be826d695p-30.

(** The bounds computation of the loading effect. *)
Definition computeBounds (allCoords : list Coord) : option Bounds :=
  match allCoords with
  | [] => None
  | _ =>
      let lngs := map fst allCoords in
      let lats := map snd allCoords in
      Some {| minLng := (mathMin lngs - padding)%float;
              maxLng := (mathMax lngs + padding)%float;
              minLat := (mathMin lats - padding)%float;
              maxLat := (mathMax lats + padding)%float |}
  end.

(** [toSvgCoords(lng, lat)]. *)
Definition toSvgCoords (bounds : option Bounds) (canvasSize : CanvasSize)
    (lng lat : float) : Point :=
  match bounds with
  | None => mkPoint 0 0
  | Some b =>
      let x := ((lng - minLng b) / (maxLng b - minLng b)
                * width canvasSize)%float in
      let y := ((maxLat b - lat) / (maxLat b - minLat b)
                * height canvasSize)%float in
      mkPoint x y
  end.

(** [fromSvgCoords(svgX, svgY)]. *)
Definition fromSvgCoords (bounds : option Bounds) (canvasSize : CanvasSize)
    (svgX svgY : float) : GeoPoint :=
  match bounds with
  | None => mkGeo 0 0
  | Some b =>
      let lng := (svgX / width canvasSize * (maxLng b - minLng b)
                  + minLng b)%float in
      let lat := (maxLat b
                  - svgY / height canvasSize * (maxLat b - minLat b))%float in
      mkGeo lng lat
  end.

(** One turn of the ray-casting loop, for the vertices [poly[i]] and
    [poly[j]]. *)
Definition rayCrosses (point vi vj : Point) : bool :=
  xorb (py point <? py vi)%float (py point <? py vj)%float &&
  (px point
   <? (px vj - px vi) * (py point - py vi) / (py vj - py vi + eps9)
      + px vi)%float.

(** [isPointInPolygon(point, poly)]: [j] runs one vertex behind [i],
    starting at the last vertex. *)
Definition isPointInPolygon (point : Point) (poly : list Point) : bool :=
  foldl (fun inside '(vi, vj) =>
           if rayCrosses point vi vj then negb inside else inside)
        false
        (zip poly (rotate (length poly - 1) poly)).

(** A panel feature and a feature of the text layer. *)
Record Feature : Type := mkFeature {
  coordinates : list Coord;
  properties_text : option string
}.

Record TextFeature : Type := mkText {
  text_coordinates : Coord;
  text_text : option string
}.

(** The bounding box the spatial join computes for a polygon, as
    [(minX, maxX, minY, maxY)]. *)
Definition polyBox (poly : list Coord) : float * float * float * float :=
  foldl (fun '(minX, maxX, minY, maxY) p =>
           (if (fst p <? minX)%float then fst p else minX,
            if (maxX <? fst p)%float then fst p else maxX,
            if (snd p <? minY)%float then snd p else minY,
            if (maxY <? snd p)%float then snd p else maxY))
        (PrimFloat.infinity, PrimFloat.neg_infinity,
         PrimFloat.infinity, PrimFloat.neg_infinity) poly.

(** The test [intersect] of the ray casting loop of the spatial join. *)
Definition intersect (tx ty : float) (ci cj : Coord) : bool :=
  xorb (ty <? snd ci)%float (ty <? snd cj)%float &&
  (tx <? (fst cj - fst ci) * (ty - snd ci) / (snd cj - snd ci + eps9)
         + fst ci)%float.

(** The predicate of [textPoints.find]. *)
Definition textInside (poly : list Coord) (t : TextFeature) : bool :=
  let '(minX, maxX, minY, maxY) := polyBox poly in
  let tx := fst (text_coordinates t) in
  let ty := snd (text_coordinates t) in
  if (tx <? minX)%float || (maxX <? tx)%float ||
     (ty <? minY)%float || (maxY <? ty)%float then false
  else
    foldl (fun inside '(ci, cj) =>
             if intersect tx ty ci cj then negb inside else inside)
          false
          (zip poly (rotate (length poly - 1) poly)).

(** The spatial join for one panel: the text of the first text feature
    found inside the polygon replaces [properties.text]. *)
Definition joinText (text : list TextFeature) (panel : Feature) : Feature :=
  match find (textInside (coordinates panel)) text with
  | Some matchingText =>
      {| coordinates := coordinates panel;
         properties_text := text_text matchingText |}
  | None => panel
  end.

(** The rectangle an inverter is drawn as. *)
Record MarkerRect : Type := mkMarker {
  marker_x : float;
  marker_y : float;
  marker_width : float;
  marker_height : float
}.

(** The component [InvPoint]: the bounding box of the feature on the
    canvas; [None] is the [null] it returns. *)
Definition InvPoint (bounds : option Bounds) (canvasSize : CanvasSize)
    (coords : option (list Coord)) : option MarkerRect :=
  match coords with
  | None => None
  | Some coords =>
      if length coords <? 3 then None
      else
        let svgCoords :=
          map (fun c => toSvgCoords bounds canvasSize (fst c) (snd c))
              coords in
        let xs := map px svgCoords in
        let ys := map py svgCoords in
        let minX := mathMin xs in
        let maxX := mathMax xs in
        let minY := mathMin ys in
        let maxY := mathMax ys in
        Some {| marker_x := minX;
                marker_y := minY;
                marker_width := (maxX - minX)%float;
                marker_height := (maxY - minY)%float |}
  end.

(** [Array.prototype.sort(compare)]: a stable sort; [x] moves behind [y]
    only when [compare(x, y) > 0], so a [NaN] result counts as [0]. *)
Fixpoint sortInsert {A : Type} (compare : A -> A -> float) (x : A)
    (l : list A) : list A :=
  match l with
  | [] => [x]
  | y :: ys =>
      if (0 <? compare x y)%float then y :: sortInsert compare x ys
      else x :: l
  end.

Definition jsSort {A : Type} (compare : A -> A -> float) (l : list A)
    : list A :=
  foldr (sortInsert compare) [] l.

(** An edge [{p1, p2, len, center}]. *)
Record Edge : Type := mkEdge {
  p1 : Point;
  p2 : Point;
  len : float;
  center : Point
}.

(** The closing point is dropped when it repeats the first one. *)
Definition uniqueCoords (coords : list Coord) : list Coord :=
  match head coords, last coords with
  | Some c0, Some cl =>
      if (PrimFloat.abs (fst c0 - fst cl) <? eps9)%float &&
         (PrimFloat.abs (snd c0 - snd cl) <? eps9)%float
      then removelast coords
      else coords
  | _, _ => coords
  end.

(** The panel centre: the sum of the points, taken from the first one on,
    over their number. *)
Definition centroid (svgPts : list Point) : Point :=
  mkPoint
    (foldl (fun sum p => sum + px p)%float 0%float svgPts
     / ofNat (length svgPts))
    (foldl (fun sum p => sum + py p)%float 0%float svgPts
     / ofNat (length svgPts)).

(** [(a, b) => a.len - b.len] and
    [(a, b) => (a.center.x - b.center.x) || (a.center.y - b.center.y)]. *)
Definition compareLen (a b : Edge) : float := (len a - len b)%float.

Definition compareCenter (a b : Edge) : float :=
  jsOr (px (center a) - px (center b)) (py (center a) - py (center b)).

(** The object [getPanelEnds] returns. *)
Record PanelEnds : Type := mkEnds {
  ends_left : Point;
  ends_right : Point;
  ends_center : Point;
  allPoints : list Point
}.

Section Resolver.

(** [Math.hypot] on two arguments.  The language leaves its value to the
    implementation (an approximation of the square root of the sum of the
    squares), so the resolver takes it as a parameter. *)
Variable hypot : float -> float -> float.

Definition edgeOf (a b : Point) : Edge :=
  {| p1 := a;
     p2 := b;
     len := hypot (px b - px a) (py b - py a);
     center := mkPoint ((px a + px b) / 2) ((py a + py b) / 2) |}.

(** The edge loop: edge [i] joins [svgPts[i]] and
    [svgPts[(i + 1) % svgPts.length]]. *)
Definition edgesOf (svgPts : list Point) : list Edge :=
  zip_with edgeOf svgPts (rotate 1 svgPts).

(** The two shortest edges, ordered by their centres. *)
Definition shortEdgesOf (svgPts : list Point) : list Edge :=
  jsSort compareCenter (take 2 (jsSort compareLen (edgesOf svgPts))).

(** The resolver on the canvas-space points. *)
Definition panelEndsOf (svgPts : list Point) : PanelEnds :=
  let shortEdges := shortEdgesOf svgPts in
  let c := centroid svgPts in
  {| ends_left := from_option center c (shortEdges !! 0);
     ends_right := from_option center c (shortEdges !! 1);
     ends_center := c;
     allPoints := svgPts |}.

(** [getPanelEnds(panelIndex)], on the coordinate arrays of the panels. *)
Definition getPanelEnds (panelsData : option (list Feature))
    (bounds : option Bounds) (canvasSize : CanvasSize) (panelIndex : nat)
    : option PanelEnds :=
  features ← panelsData;
  panel ← features !! panelIndex;
  Some (panelEndsOf
          (map (fun c => toSvgCoords bounds canvasSize (fst c) (snd c))
               (uniqueCoords (coordinates panel)))).

End Resolver.

(** The square root of the rounded sum of the rounded squares: a
    [Math.hypot] for the runs on concrete polygons. *)
Definition sqrtSumSquares (x y : float) : float :=
  PrimFloat.sqrt (x * x + y * y).

End Double.

(** The value stored for an end, [undefined] included. *)
Definition rawEnd (ps : PanelStates) (index : nat) (side : Side)
    : option PanelState :=
  ps !! index ≫= getSide side.

(** A gesture that is a click on the drawn panel [index] at [point]. *)
Definition clickGesture (index : nat) (point : Point) : Gesture :=
  {| isSelecting := true;
     selectionStart := Some point;
     selectionEnd := Some point;
     isUnselectMode := false;
     clickedPanelIndex := Some index |}.

(** ** A small site used in the examples

    Three elongated panels, each a closed ring of five
    positions; the bounds and the canvas are the ones the loading effect
    computes for them. *)

Definition pos (a b : Z) : Coord := (Fin (inject_Z a), Fin (inject_Z b)).

Definition ringAt (x0 y0 : Z) : list Coord :=
  [pos x0 y0; pos (x0 + 4) y0; pos (x0 + 4) (y0 + 1); pos x0 (y0 + 1);
   pos x0 y0]%Z.

Definition sitePanels : list Feature :=
  [mkFeature (ringAt 0 0) None;
   mkFeature (ringAt 0 4) None;
   mkFeature (ringAt 8 8) None].

Definition siteData : option (list Feature) := Some sitePanels.

Definition siteBounds : option Bounds :=
  computeBounds (concat (map coordinates sitePanels)).

Definition pt (a b : Q) : Point := mkPoint (Fin a) (Fin b).

(** A click near the left end of panel 0, and a drag over the whole canvas. *)
Definition clickLeft0 : Gesture := clickGesture 0 (pt 10 850).

Definition dragAll (unselect : bool) : Gesture :=
  {| isSelecting := true;
     selectionStart := Some (pt 0 0);
     selectionEnd := Some (pt 1200 900);
     isUnselectMode := unselect;
     clickedPanelIndex := None |}.

Definition siteMouseUp : Gesture -> EditorState -> EditorState :=
  handleMouseUp siteData siteBounds loadedCanvas.

(** The site after one click on the left end of panel 0. *)
Definition siteClicked : EditorState := siteMouseUp clickLeft0 initialEditor.

(** The site after two box selections of everything. *)
Definition siteTerminated : EditorState :=
  siteMouseUp (dragAll false) (siteMouseUp (dragAll false) initialEditor).

(** ** Vocabulary of the properties *)

(** [k] calls of a handler in a row. *)
Fixpoint times {A : Type} (f : A -> option A) (k : nat) (a : A) : option A :=
  match k with
  | 0 => Some a
  | S k' => f a ≫= times f k'
  end.

(** The number of loaded panel features. *)
Definition panelCount (panelsData : option (list Feature)) : nat :=
  match panelsData with Some features => length features | None => 0 end.

(** The ends of the loaded panels: two for each panel index. *)
Definition allEnds (n : nat) : list (nat * Side) :=
  flat_map (fun index => [(index, SideLeft); (index, SideRight)]) (seq 0 n).

(** The number of ends whose state satisfies [P]. *)
Definition endsWith (P : PanelState -> bool) (ps : PanelStates) (n : nat)
    : Z :=
  Z.of_nat
    (length (List.filter (fun '(index, side) => P (endState ps index side))
                         (allEnds n))).

Definition isMc4Done (s : PanelState) : bool :=
  match s with MC4_INSTALLED | TERMINATED => true | NONE => false end.

Definition isTerminated (s : PanelState) : bool :=
  match s with TERMINATED => true | _ => false end.

(** Every key of the mapping is the index of a loaded panel. *)
Definition keysBelow (n : nat) (ps : PanelStates) : Prop :=
  forall index entry, ps !! index = Some entry -> index < n.

(** The history invariant: the index points into the history, at the
    current mapping, and every snapshot only has keys of loaded panels. *)
Definition historyInv (n : nat) (st : EditorState) : Prop :=
  historyIndex st < length (history st) /\
  history st !! historyIndex st = Some (panelStates st) /\
  Forall (keysBelow n) (history st).

(** What one entry adds to the two counters. *)
Definition entryMc4 (state : PanelEntry) : Z :=
  (Z.b2z (countsForMc4 (left state)) + Z.b2z (countsForMc4 (right state)))%Z.

Definition entryTermination (state : PanelEntry) : Z :=
  (Z.b2z (countsForTermination (left state))
   + Z.b2z (countsForTermination (right state)))%Z.

(** The sum of [g] over the entries stored at the indices in [l]. *)
Definition sumEntries (g : PanelEntry -> Z) (ps : PanelStates)
    (l : list nat) : Z :=
  foldr (fun index acc => (from_option g 0 (ps !! index) + acc)%Z) 0%Z l.

(** Every position of the list has two finite coordinates. *)
Definition allFinite (l : list Coord) : bool :=
  forallb (fun c => isFinite (fst c) && isFinite (snd c)) l.

(** No snapshot, the current mapping included, has an entry for the panel
    [index]. *)
Definition untouched (index : nat) (st : EditorState) : Prop :=
  panelStates st !! index = None /\
  Forall (fun s : PanelStates => s !! index = None) (history st).

(** The site with a fourth feature that is a ring of one point. *)
Definition siteWithRing : list Feature :=
  sitePanels ++ [mkFeature [pos 1 1; pos 1 1] None].

(** The site with a fourth, one-vertex feature. *)
Definition siteWithPoint : list Feature :=
  sitePanels ++ [mkFeature [pos 1 1] None].

(** The finite part of a number. *)
Definition finPart (a : JsNum) : Q :=
  match a with Fin q => q | _ => 0%Q end.

(** The rank of a double in the order of the numbers: the comparisons of
    two doubles that are not [NaN] are the comparisons of their ranks. *)
Definition SFweight (m : positive) (e : Z) : Z := (Z.pos m * 2 ^ (e + 1074))%Z.

Definition SFvalue (x : spec_float) : Z :=
  match x with
  | S754_zero _ | S754_nan => 0
  | S754_infinity s => cond_Zopp s (2 ^ 2100)
  | S754_finite s m e => cond_Zopp s (SFweight m e)
  end.

Definition value (a : float) : Z := SFvalue (Prim2SF a).

(** The sign of a double; [Eq] for the zeros and [NaN]. *)
Definition SFsignum (x : spec_float) : comparison :=
  match x with
  | S754_zero _ | S754_nan => Eq
  | S754_infinity s | S754_finite s _ _ => if s then Lt else Gt
  end.

(** The edges of a loop that starts at [a], runs through [t] and ends at
    [z], built by [f]. *)
Fixpoint chainWith {P E : Type} (f : P -> P -> E) (a : P) (t : list P)
    (z : P) : list E :=
  match t with
  | [] => [f a z]
  | b :: t' => f a b :: chainWith f b t' z
  end.

(** An edge whose computed length and centre are numbers. *)
Definition numericEdge (e : Double.Edge) : bool :=
  negb (PrimFloat.is_nan (Double.len e)) &&
  negb (PrimFloat.is_nan (Double.px (Double.center e))) &&
  negb (PrimFloat.is_nan (Double.py (Double.center e))).

(** [l] is not to the right of [r]: the smaller x, and the smaller y when
    the x are equal. *)
Definition leftOf (l r : Double.Point) : Prop :=
  (Double.px l <? Double.px r)%float = true \/
  ((Double.px l =? Double.px r)%float = true /\
   (Double.py l <=? Double.py r)%float = true).

(** Equality of the coordinates, as [==] decides it. *)
Definition samePoint (p q : Double.Point) : Prop :=
  (Double.px p =? Double.px q)%float = true /\
  (Double.py p =? Double.py q)%float = true.

Definition lenKey (e : Double.Edge) : Z := value (Double.len e).
Definition centerKeyX (e : Double.Edge) : Z := value (Double.px (Double.center e)).
Definition centerKeyY (e : Double.Edge) : Z := value (Double.py (Double.center e)).

Definition squareDouble : list Double.Point :=
  [Double.mkPoint 0 0; Double.mkPoint 1 0; Double.mkPoint 1 1;
   Double.mkPoint 0 1].

Definition rectDouble : list Double.Point :=
  [Double.mkPoint 0 0; Double.mkPoint 4 0; Double.mkPoint 4 1;
   Double.mkPoint 0 1].

(** The positions of an inverter. *)
Definition inverterDouble : list Double.Coord :=
  [(5, 2); (6, 2); (6, 3); (5, 3)]%float.

(** The square of the distance between a note and the click. *)
Definition noteDist2 (start : Point) (note : Note) : JsNum :=
  jsHypot2 (jsSub (svgX note) (px start)) (jsSub (svgY note) (py start)).

(** The note layer holding one note at (100, 100). *)
Definition oneNote : NoteLayer :=
  {| notes := [mkNote 1 (Fin 100) (Fin 100) "first"];
     editingNote := None;
     selectedNotes := ∅ |}.

Definition noteClick (x y : Q) : NoteGesture :=
  {| isNoteSelecting := true;
     noteSelectionStart := Some (pt x y);
     noteSelectionEnd := Some (pt x y) |}.

(** A click near the right end of panel 1. *)
Definition clickRight1 : Gesture := clickGesture 1 (pt 390 450).

(** The body of the counting loop in the earlier revision of the component
    (the [counts] callback): an end counts for MC4 only while its state is
    ['mc4']. *)
Definition countEntryEarlier (state : PanelEntry) (acc : Z * Z) : Z * Z :=
  let '(mc4Completed, terminatedCompleted) := acc in
  let mc4Completed :=
    incrIf (bool_decide (left state = Some MC4_INSTALLED)) mc4Completed in
  let terminatedCompleted :=
    incrIf (bool_decide (left state = Some TERMINATED)) terminatedCompleted in
  let mc4Completed :=
    incrIf (bool_decide (right state = Some MC4_INSTALLED)) mc4Completed in
  let terminatedCompleted :=
    incrIf (bool_decide (right state = Some TERMINATED)) terminatedCompleted in
  (mc4Completed, terminatedCompleted).

(** [counts] of the earlier revision: the pair [(mc4, termination)]. *)
Definition countsEarlier (panelsData : option (list Feature))
    (ps : PanelStates) : Counter * Counter :=
  let totalPanels :=
    match panelsData with Some features => length features | None => 0 end in
  let totalEnds := (Z.of_nat totalPanels * 2)%Z in
  let '(mc4Completed, terminatedCompleted) :=
    map_fold (fun _ state acc => countEntryEarlier state acc) (0%Z, 0%Z) ps in
  ({| total := totalEnds;
      completed := mc4Completed;
      remaining := (totalEnds - mc4Completed)%Z |},
   {| total := totalEnds;
      completed := terminatedCompleted;
      remaining := (totalEnds - terminatedCompleted)%Z |}).

(** The site after two box selections of everything and one undo. *)
Definition siteUndone : EditorState :=
  {| panelStates := panelStates (siteMouseUp (dragAll false) initialEditor);
     history := history siteTerminated;
     historyIndex := 1 |}.

(** The site as the loading effect builds it, with one boundary line, no
    inverter and one text inside the first panel. *)
Definition siteLine : list (option (list Coord)) :=
  [Some [pos (-1) (-1); pos 13 (-1); pos 13 10]%Z; None].

Definition siteText : list TextFeature := [mkText (pos 2 0) (Some "A-01")].

Definition siteLoaded : LoadedSite := loadSite sitePanels siteLine [] siteText.

(** The first panel of the loaded site, labelled by the join, and the
    loaded site after a click on it. *)
Definition sitePanel0 : Feature := mkFeature (ringAt 0 0) (Some "A-01").

Definition loadedClicked : EditorState :=
  handleMouseUp (Some (site_panels siteLoaded)) (site_bounds siteLoaded)
                (site_canvas siteLoaded) (clickGesture 0 (pt 100 800))
                initialEditor.

(** The rectangle test of a note drag between [s] and [e]. *)
Definition noteBox (s e : Point) (note : Note) : bool :=
  noteInBox (jsMin (px s) (px e)) (jsMax (px s) (px e))
            (jsMin (py s) (py e)) (jsMax (py s) (py e)) note.

(** A note drag from [s] to [e]. *)
Definition noteDrag (s e : Point) : NoteGesture :=
  {| isNoteSelecting := true;
     noteSelectionStart := Some s;
     noteSelectionEnd := Some e |}.

(** Two notes, the first inside the square from (0, 0) to (150, 150). *)
Definition twoNotes : NoteLayer :=
  {| notes := [mkNote 1 (Fin 100) (Fin 100) "first";
               mkNote 2 (Fin 300) (Fin 100) "second"];
     editingNote := None;
     selectedNotes := ∅ |}.

(** Model-level equality of views: field by field, up to [jsEq]. *)
Definition viewEq (a b : ViewBox) : Prop :=
  jsEq (view_x a) (view_x b) /\ jsEq (view_y a) (view_y b) /\
  jsEq (view_width a) (view_width b) /\ jsEq (view_height a) (view_height b).

(** A view and an element rectangle with finite entries. *)
Definition viewQ (x y w h : Q) : ViewBox :=
  mkViewBox (Fin x) (Fin y) (Fin w) (Fin h).
Definition rectQ (l t w h : Q) : ClientRect :=
  mkRect (Fin l) (Fin t) (Fin w) (Fin h).

(** The magnification of the two zoom steps and of the two wheel steps. *)
Definition zoomScale (zoomIn : bool) : Q := if zoomIn then 5 # 4 else 4 # 5.
Definition wheelScale (down : bool) : Q := if down then 10 # 11 else 10 # 9.

(** The state the earlier box selection writes to both ends of a selected
    panel when the selection counter is [count]. *)
Definition earlierWrites (count : nat) : PanelState :=
  match count with
  | 0 => MC4_INSTALLED
  | 1 => TERMINATED
  | _ => NONE
  end.

(** The note [n] with the text [t]. *)
Definition withText (t : string) (n : Note) : Note :=
  {| id := id n; svgX := svgX n; svgY := svgY n; text := t |}.

(** The identity and the place of a note. *)
Definition notePlace (n : Note) : Z * JsNum * JsNum := (id n, svgX n, svgY n).

(** A document whose canvas coordinates are the client coordinates, and
    the press of a button at a client position, over a panel or not. *)
Definition clientCoords (e : MouseEvent) : option Point :=
  Some (mkPoint (ev_clientX e) (ev_clientY e)).

Definition mouseAt (button : Z) (x y : Q) (panel : option nat) : MouseEvent :=
  mkMouseEvent button (Fin x) (Fin y) panel.

(** The application in note mode. *)
Definition noteModeApp : AppState :=
  {| app_editor := initialEditor;
     app_notes := initialNotes;
     app_isAddingNote := true;
     app_gesture := idleGesture;
     app_noteGesture := idleNoteGesture;
     app_isPanning := false;
     app_panStart := mkPoint (Fin 0) (Fin 0);
     app_viewBox := loadedViewBox |}.

(** The sum of [f] over a list, and over its elements of one date. *)
Definition sumZ {A : Type} (f : A -> Z) (l : list A) : Z :=
  foldr (fun x acc => (f x + acc)%Z) 0%Z l.

Definition onDate (d : string) (l : list DailyRecord) : list DailyRecord :=
  List.filter (fun r => bool_decide (date r = d)) l.

Definition rowsOn (d : string) (l : list AggRow) : list AggRow :=
  List.filter (fun r => bool_decide (row_date r = d)) l.

(** The records that reach a row of the export, and the ones on which the
    export throws. *)
Definition keptRecords (l : list DailyRecord) : list DailyRecord :=
  List.filter (fun r => negb (inheritedName (date r))) l.

Definition throwsOn (r : DailyRecord) : bool :=
  inheritedName (date r) && negb (bool_decide (subcontractor r = EmptyString)).

(** A log of three records over two days, and a clock for its dates. *)
Definition sampleLog : list DailyRecord :=
  addRecord (mkRecord "2024-05-02" 6 "South" 1)
    (addRecord (mkRecord "2024-05-01" 4 "South" 2)
       (addRecord (mkRecord "2024-05-02" 10 "North" 3) [])).

Definition sampleClock (d : string) : JsNum :=
  if bool_decide (d = "2024-05-01") then Fin 1
  else if bool_decide (d = "2024-05-02") then Fin 2
  else NaN.

(** The place of a note, as a canvas point. *)
Definition pointOf (n : Note) : Point := mkPoint (svgX n) (svgY n).

(** No note lies within the click radius of the place of a later note. *)
Fixpoint apart (l : list Note) : bool :=
  match l with
  | [] => true
  | n :: l' => forallb (fun m => negb (nearClick (pointOf m) n)) l' && apart l'
  end.

(** * Properties *)

(** ** Numbers *)

Lemma Qlt_bool_iff (a b : Q) : Qlt_bool a b = true <-> (a < b)%Q.
Proof.
  unfold Qlt_bool. rewrite negb_true_iff. split.
  - intros H. apply Qnot_le_lt. intros Hle.
    apply Qle_bool_iff in Hle. congruence.
  - intros H. destruct (Qle_bool b a) eqn:E; [|done].
    apply Qle_bool_iff in E. exfalso. revert E. by apply Qlt_not_le.
Qed.

Lemma Qeq_bool_false (a b : Q) : ~ (a == b)%Q -> Qeq_bool a b = false.
Proof.
  intros H. destruct (Qeq_bool a b) eqn:E; [|done].
  by apply Qeq_bool_iff in E.
Qed.

Lemma jsDiv_Fin (p q : Q) : ~ (q == 0)%Q -> jsDiv (Fin p) (Fin q) = Fin (p / q).
Proof. intros H. simpl. by rewrite Qeq_bool_false. Qed.

(** ** Doubles *)

Lemma digits2_size p : digits2_pos p = Pos.size p.
Proof. induction p as [p IH|p IH|]; simpl; by rewrite ?IH. Qed.

Lemma digits2_bounds m :
  (2 ^ (Z.pos (digits2_pos m) - 1) <= Z.pos m < 2 ^ Z.pos (digits2_pos m))%Z.
Proof.
  rewrite digits2_size. split.
  - pose proof (Pos.size_le m) as H.
    assert (Z.pos (2 ^ Pos.size m) <= Z.pos m~0)%Z as H' by lia.
    rewrite Pos2Z.inj_pow in H'.
    replace (Z.pos (Pos.size m)) with (Z.succ (Z.pos (Pos.size m) - 1)) in H'
      by lia.
    rewrite Z.pow_succ_r in H' by lia. lia.
  - pose proof (Pos.size_gt m) as H.
    assert (Z.pos m < Z.pos (2 ^ Pos.size m))%Z as H' by lia.
    by rewrite Pos2Z.inj_pow in H'.
Qed.

Lemma valid_finite s m e :
  valid_binary (S754_finite s m e) = true ->
  (-1074 <= e <= 971)%Z /\ (Z.pos m < 2 ^ 53)%Z /\
  (-1074 < e -> 2 ^ 52 <= Z.pos m)%Z.
Proof.
  unfold valid_binary, bounded, canonical_mantissa, fexp, SpecFloat.emin.
  intros H. apply andb_true_iff in H as [H1 H2].
  apply Z.eqb_eq in H1. apply Z.leb_le in H2.
  change prec with 53%Z in *. change emax with 1024%Z in *.
  pose proof (digits2_bounds m) as [Hlo Hhi].
  set (d := Z.pos (digits2_pos m)) in *.
  assert (0 < d)%Z as Hd by (subst d; lia).
  split; [lia|]. split.
  - assert (d <= 53)%Z as Hd53 by lia.
    eapply Z.lt_le_trans; [exact Hhi|]. apply Z.pow_le_mono_r; lia.
  - intros He. assert (d = 53)%Z as Hd53 by lia.
    rewrite Hd53 in Hlo. exact Hlo.
Qed.

Lemma SFweight_pos s m e :
  valid_binary (S754_finite s m e) = true -> (0 < SFweight m e)%Z.
Proof.
  intros H. apply valid_finite in H as (He & _ & _). unfold SFweight.
  apply Z.mul_pos_pos; [lia|]. apply Z.pow_pos_nonneg; lia.
Qed.

Lemma SFweight_lt s1 m1 e1 s2 m2 e2 :
  valid_binary (S754_finite s1 m1 e1) = true ->
  valid_binary (S754_finite s2 m2 e2) = true ->
  (e1 < e2)%Z -> (SFweight m1 e1 < SFweight m2 e2)%Z.
Proof.
  intros H1 H2 He. apply valid_finite in H1 as (He1 & Hm1 & _).
  apply valid_finite in H2 as (He2 & _ & Hm2). unfold SFweight.
  replace (e2 + 1074)%Z with ((e2 - e1) + (e1 + 1074))%Z by lia.
  rewrite (Z.pow_add_r 2 (e2 - e1) (e1 + 1074)) by lia.
  assert (0 < 2 ^ (e1 + 1074))%Z as HP by (apply Z.pow_pos_nonneg; lia).
  assert (2 ^ 1 <= 2 ^ (e2 - e1))%Z as Hk by (apply Z.pow_le_mono_r; lia).
  assert (2 ^ 52 <= Z.pos m2)%Z as Hm2' by (apply Hm2; lia).
  assert (Z.pos m1 < Z.pos m2 * 2 ^ (e2 - e1))%Z as Hm.
  { apply Z.lt_le_trans with (Z.pos m2 * 2 ^ 1)%Z; [lia|].
    apply Z.mul_le_mono_nonneg_l; lia. }
  rewrite Z.mul_assoc. apply Z.mul_lt_mono_pos_r; done.
Qed.

Lemma SFweight_bound s m e :
  valid_binary (S754_finite s m e) = true -> (SFweight m e < 2 ^ 2100)%Z.
Proof.
  intros H. apply valid_finite in H as (He & Hm & _). unfold SFweight.
  assert (0 < 2 ^ (e + 1074))%Z as HP by (apply Z.pow_pos_nonneg; lia).
  assert (2 ^ (e + 1074) < 2 ^ 2046)%Z as Hk by (apply Z.pow_lt_mono_r; lia).
  apply Z.lt_trans with (2 ^ 53 * 2 ^ 2046)%Z.
  - apply Z.mul_lt_mono_nonneg; [lia | exact Hm | lia | exact Hk].
  - rewrite <- Z.pow_add_r by lia. apply Z.pow_lt_mono_r; lia.
Qed.

Ltac solve_Zcompare :=
  first [ apply Z.compare_eq_iff; lia
        | apply Z.compare_lt_iff; lia
        | apply Z.compare_gt_iff; lia ].

Lemma SFcompare_value x y :
  valid_binary x = true -> valid_binary y = true ->
  x <> S754_nan -> y <> S754_nan ->
  SFcompare x y = Some (SFvalue x ?= SFvalue y)%Z.
Proof.
  intros Hx Hy Nx Ny.
  assert (0 < 2 ^ 2100)%Z as Hinf by (apply Z.pow_pos_nonneg; lia).
  destruct x as [sx|sx| |sx mx ex], y as [sy|sy| |sy my ey]; try done;
    cbn [SFcompare SFvalue]; f_equal; symmetry;
    try fold (SFweight mx ex); try fold (SFweight my ey);
    try pose proof (SFweight_pos _ _ _ Hx) as Hwx;
    try pose proof (SFweight_bound _ _ _ Hx) as Hbx;
    try pose proof (SFweight_pos _ _ _ Hy) as Hwy;
    try pose proof (SFweight_bound _ _ _ Hy) as Hby;
    try (generalize dependent (2 ^ 2100)%Z; intros;
         destruct sx, sy; cbn [cond_Zopp]; solve_Zcompare).
  assert ((ex < ey)%Z -> (SFweight mx ex < SFweight my ey)%Z) as Hlt
    by (by apply (SFweight_lt sx mx ex sy my ey)).
  assert ((ey < ex)%Z -> (SFweight my ey < SFweight mx ex)%Z) as Hgt
    by (by apply (SFweight_lt sy my ey sx mx ex)).
  assert (ex = ey -> (SFweight mx ex ?= SFweight my ey)%Z
                     = (mx ?= my)%positive) as Heq.
  { intros ->. unfold SFweight.
    pose proof (valid_finite _ _ _ Hy) as (He & _ & _).
    rewrite <- Zmult_compare_compat_r
      by (apply Z.lt_gt, Z.pow_pos_nonneg; lia). done. }
  rewrite !Pos.compare_cont_spec. cbn [Pos.switch_Eq].
  destruct sx, sy; cbn [cond_Zopp].
  - rewrite Z.compare_opp.
    destruct (Z.compare_spec ex ey) as [E|E|E].
    + rewrite (Z.compare_antisym (SFweight mx ex)), (Heq E).
      by destruct (mx ?= my)%positive.
    + solve_Zcompare.
    + solve_Zcompare.
  - solve_Zcompare.
  - solve_Zcompare.
  - destruct (Z.compare_spec ex ey) as [E|E|E].
    + rewrite (Heq E). by destruct (mx ?= my)%positive.
    + solve_Zcompare.
    + solve_Zcompare.
Qed.

Lemma iter_pos_nat {A : Type} (f : A -> A) p :
  forall x, SpecFloat.iter_pos f p x = Nat.iter (Pos.to_nat p) f x.
Proof.
  induction p as [p IH|p IH|]; intros x; cbn [SpecFloat.iter_pos].
  - rewrite !IH, Pos2Nat.inj_xI. rewrite <- Nat.iter_add.
    replace (Pos.to_nat p + Pos.to_nat p) with (2 * Pos.to_nat p) by lia.
    by rewrite <- Nat.iter_succ_r.
  - rewrite !IH, Pos2Nat.inj_xO. rewrite <- Nat.iter_add.
    by replace (Pos.to_nat p + Pos.to_nat p) with (2 * Pos.to_nat p) by lia.
  - reflexivity.
Qed.

Lemma shr_1_div2 mrs :
  (0 <= shr_m mrs)%Z -> shr_m (shr_1 mrs) = Z.div2 (shr_m mrs).
Proof. destruct mrs as [[|[p|p|]|p] r s]; simpl; (done || lia). Qed.

Lemma shr_iter_div n mrs :
  (0 <= shr_m mrs)%Z ->
  shr_m (Nat.iter n shr_1 mrs) = (shr_m mrs / 2 ^ Z.of_nat n)%Z.
Proof.
  intros Hm. induction n as [|n IH].
  - simpl. by rewrite Z.div_1_r.
  - rewrite Nat.iter_succ, shr_1_div2.
    + rewrite IH, Z.div2_div, Z.div_div by lia.
      rewrite Nat2Z.inj_succ, Z.pow_succ_r by lia.
      by rewrite (Z.mul_comm 2).
    + rewrite IH. apply Z.div_pos; [done|]. apply Z.pow_pos_nonneg; lia.
Qed.

Lemma shr_record_of_loc_m m l : shr_m (shr_record_of_loc m l) = m.
Proof. by destruct l as [|[]]. Qed.

(** Shifting a positive mantissa to its format exponent leaves it positive. *)
Lemma shr_fexp_pos m e l :
  (-1074 <= e)%Z ->
  exists m' e',
    shr_m (fst (shr_fexp prec emax (Z.pos m) e l)) = Z.pos m' /\
    snd (shr_fexp prec emax (Z.pos m) e l) = e' /\ (-1074 <= e')%Z.
Proof.
  intros He. unfold shr_fexp, shr, fexp, SpecFloat.emin. cbn [Zdigits2].
  change prec with 53%Z. change emax with 1024%Z.
  pose proof (digits2_bounds m) as [Hlo Hhi].
  set (d := Z.pos (digits2_pos m)) in *.
  assert (0 < d)%Z as Hd by (subst d; lia).
  destruct (Z.max (d + e - 53) (3 - 1024 - 53) - e)%Z as [|p|p] eqn:En;
    cbn [fst snd]; rewrite ?shr_record_of_loc_m.
  - by exists m, e.
  - assert (Z.pos p = d - 53)%Z as Hp by lia.
    rewrite iter_pos_nat, shr_iter_div
      by (rewrite shr_record_of_loc_m; lia).
    rewrite shr_record_of_loc_m, positive_nat_Z.
    assert (1 <= Z.pos m / 2 ^ Z.pos p)%Z as Hq.
    { apply Z.div_le_lower_bound; [apply Z.pow_pos_nonneg; lia|].
      rewrite Z.mul_1_r. eapply Z.le_trans; [|exact Hlo].
      apply Z.pow_le_mono_r; lia. }
    destruct (Z.pos m / 2 ^ Z.pos p)%Z as [|q|q] eqn:Eq; [lia| |lia].
    exists q, (e + Z.pos p)%Z. repeat split; lia.
  - by exists m, e.
Qed.

Lemma round_nearest_even_pos m l :
  exists m', round_nearest_even (Z.pos m) l = Z.pos m'.
Proof.
  destruct l as [|[]]; cbn [round_nearest_even];
    try destruct (Z.even (Z.pos m)); eauto;
    exists (m + 1)%positive; lia.
Qed.

(** Rounding never loses the sign: the rounded value of a non-zero number
    whose exponent is not below the smallest one is a non-zero finite number
    or an infinity of the same sign. *)
Lemma binary_round_aux_signum s m e l :
  (-1074 <= e)%Z ->
  SFsignum (binary_round_aux prec emax s (Z.pos m) e l)
  = if s then Lt else Gt.
Proof.
  intros He. unfold binary_round_aux.
  destruct (shr_fexp_pos m e l He) as (m1 & e1 & Hm1 & He1 & Hle1).
  destruct (shr_fexp prec emax (Z.pos m) e l) as [mrs1 e1'].
  cbn [fst snd] in Hm1, He1. subst e1'. rewrite Hm1.
  destruct (round_nearest_even_pos m1 (loc_of_shr_record mrs1)) as [m2 ->].
  destruct (shr_fexp_pos m2 e1 loc_Exact Hle1) as (m3 & e3 & Hm3 & He3 & _).
  destruct (shr_fexp prec emax (Z.pos m2) e1 loc_Exact) as [mrs3 e3'].
  cbn [fst snd] in Hm3, He3. subst e3'. rewrite Hm3.
  by destruct (e3 <=? emax - prec)%Z.
Qed.

Lemma binary_round_signum s m e :
  (-1074 <= e)%Z ->
  SFsignum (binary_round prec emax s m e) = if s then Lt else Gt.
Proof.
  intros He. unfold binary_round, shl_align.
  set (e' := fexp prec emax (Z.pos (digits2_pos m) + e)).
  assert (-1074 <= e')%Z as He'.
  { subst e'. unfold fexp, SpecFloat.emin.
    change prec with 53%Z. change emax with 1024%Z. lia. }
  destruct (e' - e)%Z; by apply binary_round_aux_signum.
Qed.

Lemma binary_normalize_signum m e :
  (-1074 <= e)%Z ->
  SFsignum (binary_normalize prec emax m e false) = (m ?= 0)%Z.
Proof.
  intros He. destruct m as [|p|p]; cbn [binary_normalize]; [done| |];
    by rewrite binary_round_signum.
Qed.

Lemma Pos_iter_xO m d : Z.pos (Pos.iter xO m d) = (Z.pos m * 2 ^ Z.pos d)%Z.
Proof.
  induction d as [|d IH] using Pos.peano_ind.
  - simpl. lia.
  - rewrite Pos.iter_succ, Pos2Z.inj_succ, Z.pow_succ_r by lia.
    rewrite Pos2Z.inj_xO, IH. lia.
Qed.

Lemma shl_align_weight m e e' :
  (-1074 <= e' <= e)%Z ->
  (Z.pos (fst (shl_align m e e')) * 2 ^ (e' + 1074))%Z = SFweight m e.
Proof.
  intros He. unfold shl_align, SFweight.
  destruct (e' - e)%Z as [|d|d] eqn:Ed; cbn [fst].
  - by replace e' with e by lia.
  - lia.
  - rewrite Pos_iter_xO, <- Z.mul_assoc, <- Z.pow_add_r by lia.
    f_equal. f_equal. lia.
Qed.

(** The sign of a computed difference is the order of its operands:
    [x - y] is positive exactly when [y < x], and is zero or [NaN] exactly
    when they are equal. *)
Lemma SFsub_signum x y :
  valid_binary x = true -> valid_binary y = true ->
  x <> S754_nan -> y <> S754_nan ->
  SFsignum (SF64sub x y) = (SFvalue x ?= SFvalue y)%Z.
Proof.
  intros Hx Hy Nx Ny.
  assert (0 < 2 ^ 2100)%Z as Hinf by (apply Z.pow_pos_nonneg; lia).
  destruct x as [sx|sx| |sx mx ex], y as [sy|sy| |sy my ey]; try done;
    unfold SF64sub; cbn [SFsub SFvalue]; symmetry;
    try fold (SFweight mx ex); try fold (SFweight my ey);
    try pose proof (SFweight_pos _ _ _ Hx) as Hwx;
    try pose proof (SFweight_bound _ _ _ Hx) as Hbx;
    try pose proof (SFweight_pos _ _ _ Hy) as Hwy;
    try pose proof (SFweight_bound _ _ _ Hy) as Hby;
    try (generalize dependent (2 ^ 2100)%Z; intros;
         destruct sx, sy; cbn [cond_Zopp SFsignum negb]; solve_Zcompare).
  pose proof (valid_finite _ _ _ Hx) as (Hex & _ & _).
  pose proof (valid_finite _ _ _ Hy) as (Hey & _ & _).
  rewrite binary_normalize_signum by lia.
  pose proof (shl_align_weight mx ex (Z.min ex ey)) as Ax.
  pose proof (shl_align_weight my ey (Z.min ex ey)) as Ay.
  rewrite <- Ax, <- Ay by lia.
  assert (0 < 2 ^ (Z.min ex ey + 1074))%Z as HP
    by (apply Z.pow_pos_nonneg; lia).
  set (P := (2 ^ (Z.min ex ey + 1074))%Z) in *.
  assert (forall (s : bool) a, cond_Zopp s (a * P) = (cond_Zopp s a * P)%Z)
    as Hopp by (intros [] a; cbn [cond_Zopp]; lia).
  rewrite !Hopp, (Z.compare_sub (_ * P)), <- Z.mul_sub_distr_r.
  change 0%Z with (0 * P)%Z at 1.
  rewrite <- Zmult_compare_compat_r by lia. done.
Qed.

Lemma is_nan_spec a : PrimFloat.is_nan a = false <-> Prim2SF a <> S754_nan.
Proof.
  unfold PrimFloat.is_nan. rewrite FloatAxioms.eqb_spec. unfold SFeqb.
  destruct (Prim2SF a) as [s|s| |s m e] eqn:E.
  1,2,4: rewrite SFcompare_value, Z.compare_refl;
    try done; rewrite <- E; apply Prim2SF_valid.
  cbn. split; done.
Qed.

Lemma ltb_value a b :
  PrimFloat.is_nan a = false -> PrimFloat.is_nan b = false ->
  (a <? b)%float = (value a <? value b)%Z.
Proof.
  intros Ha Hb. rewrite ltb_spec. unfold SFltb, value, Z.ltb.
  rewrite SFcompare_value;
    [by destruct (_ ?= _)%Z | apply Prim2SF_valid..
    | by apply is_nan_spec | by apply is_nan_spec].
Qed.

Lemma eqb_value a b :
  PrimFloat.is_nan a = false -> PrimFloat.is_nan b = false ->
  (a =? b)%float = (value a =? value b)%Z.
Proof.
  intros Ha Hb. rewrite FloatAxioms.eqb_spec, Z.eqb_compare.
  unfold SFeqb, value.
  rewrite SFcompare_value;
    [done | apply Prim2SF_valid.. | by apply is_nan_spec | by apply is_nan_spec].
Qed.

Lemma sub_signum a b :
  PrimFloat.is_nan a = false -> PrimFloat.is_nan b = false ->
  SFsignum (Prim2SF (a - b)%float) = (value a ?= value b)%Z.
Proof.
  intros Ha Hb. rewrite sub_spec. apply SFsub_signum;
    [apply Prim2SF_valid.. | by apply is_nan_spec | by apply is_nan_spec].
Qed.

Lemma sub_nan a b :
  PrimFloat.is_nan a = true \/ PrimFloat.is_nan b = true ->
  Prim2SF (a - b)%float = S754_nan.
Proof.
  intros H. rewrite sub_spec.
  assert (Prim2SF a = S754_nan \/ Prim2SF b = S754_nan) as [E|E].
  { destruct H as [H|H]; [left|right];
      (destruct (Prim2SF _) eqn:E; [| |done|]; exfalso;
       assert (PrimFloat.is_nan _ = false) as H'
         by (apply is_nan_spec; rewrite E; done); congruence). }
  - by rewrite E.
  - rewrite E. by destruct (Prim2SF a).
Qed.

Lemma SFltb_zero x :
  SFltb (S754_zero false) x = match SFsignum x with Gt => true | _ => false end.
Proof. by destruct x as [s|[]| |[] m e]. Qed.

(** [a - b > 0] is [a > b], for all doubles. *)
Lemma sub_positive a b : (0 <? a - b)%float = (b <? a)%float.
Proof.
  destruct (PrimFloat.is_nan a) eqn:Ha; [|destruct (PrimFloat.is_nan b) eqn:Hb].
  - rewrite !ltb_spec, sub_nan by auto.
    apply Bool.not_false_iff_true in Ha. rewrite is_nan_spec in Ha.
    destruct (Prim2SF a); [exfalso; apply Ha; done..| |exfalso; apply Ha; done].
    by destruct (Prim2SF b).
  - rewrite !ltb_spec, sub_nan by auto.
    apply Bool.not_false_iff_true in Hb. rewrite is_nan_spec in Hb.
    destruct (Prim2SF b); [exfalso; apply Hb; done..| |exfalso; apply Hb; done].
    done.
  - rewrite (ltb_value b a) by done. rewrite ltb_spec.
    change (Prim2SF 0) with (S754_zero false).
    rewrite SFltb_zero, sub_signum by done.
    unfold Z.ltb. rewrite (Z.compare_antisym (value a)).
    by destruct (value a ?= value b)%Z.
Qed.

Lemma SFeqb_refl x :
  valid_binary x = true -> x <> S754_nan -> SFeqb x x = true.
Proof.
  intros Hv Hn. unfold SFeqb.
  by rewrite SFcompare_value, Z.compare_refl.
Qed.

(** [a - b] is [0] or [NaN] exactly when [a == b]. *)
Lemma sub_truthy a b :
  PrimFloat.is_nan a = false -> PrimFloat.is_nan b = false ->
  Double.jsTruthy (a - b)%float = negb (a =? b)%float.
Proof.
  intros Ha Hb. rewrite (eqb_value a b), Z.eqb_compare by done.
  unfold Double.jsTruthy.
  rewrite <- sub_signum by done. f_equal.
  unfold PrimFloat.is_nan. rewrite !FloatAxioms.eqb_spec.
  change (Prim2SF 0) with (S754_zero false).
  pose proof (Prim2SF_valid (a - b)%float) as Hv.
  destruct (Prim2SF (a - b)%float) as [s|s| |s m e] eqn:E.
  - done.
  - by destruct s.
  - done.
  - rewrite (SFeqb_refl (S754_finite s m e)) by done. by destruct s.
Qed.
(** ** Arithmetic on a zero *)

Lemma is_finite_spec x :
  PrimFloat.is_finite x = true ->
  (exists s, Prim2SF x = S754_zero s) \/
  (exists s m e, Prim2SF x = S754_finite s m e).
Proof.
  unfold PrimFloat.is_finite, PrimFloat.is_nan, PrimFloat.is_infinity.
  rewrite !FloatAxioms.eqb_spec, abs_spec.
  change (Prim2SF infinity) with (S754_infinity false).
  destruct (Prim2SF x) as [s|s| |s m e]; eauto; [by destruct s | done].
Qed.

Lemma is_finite_number x :
  PrimFloat.is_finite x = true -> PrimFloat.is_nan x = false.
Proof.
  unfold PrimFloat.is_finite. intros H. apply negb_true_iff in H.
  by apply orb_false_iff in H as [H _].
Qed.

Lemma ltb_numbers a b :
  (a <? b)%float = true ->
  PrimFloat.is_nan a = false /\ PrimFloat.is_nan b = false.
Proof.
  rewrite ltb_spec. intros H.
  split; apply is_nan_spec; intros E; rewrite E in H; [done|].
  by destruct (Prim2SF a).
Qed.

(** [x - x] is [+0] for a finite [x]. *)
Lemma sub_self x :
  PrimFloat.is_finite x = true -> Prim2SF (x - x)%float = S754_zero false.
Proof.
  intros H. rewrite sub_spec. unfold SF64sub.
  destruct (is_finite_spec x H) as [[s ->] | (s & m & e & ->)]; cbn [SFsub].
  - by destruct s.
  - by rewrite Z.sub_diag.
Qed.

Lemma mul_zero_l z t s :
  Prim2SF z = S754_zero s -> PrimFloat.is_finite t = true ->
  exists s', Prim2SF (z * t)%float = S754_zero s'.
Proof.
  intros Hz Ht. rewrite mul_spec, Hz. unfold SF64mul.
  destruct (is_finite_spec t Ht) as [[s' ->] | (s' & m & e & ->)];
    cbn [SFmul]; eauto.
Qed.

Lemma div_zero_l z d s :
  Prim2SF z = S754_zero s ->
  (d =? 0)%float = false -> PrimFloat.is_nan d = false ->
  exists s', Prim2SF (z / d)%float = S754_zero s'.
Proof.
  intros Hz Hd Hn. rewrite div_spec, Hz. unfold SF64div.
  rewrite FloatAxioms.eqb_spec in Hd.
  change (Prim2SF 0) with (S754_zero false) in Hd.
  apply is_nan_spec in Hn.
  destruct (Prim2SF d) as [s'|s'| |s' m e]; cbn [SFdiv]; try done; eauto.
Qed.

Lemma add_zero_l z x s :
  Prim2SF z = S754_zero s -> PrimFloat.is_nan x = false ->
  PrimFloat.is_nan (z + x)%float = false /\ value (z + x)%float = value x.
Proof.
  intros Hz Hx. apply is_nan_spec in Hx.
  assert (Prim2SF (z + x)%float = Prim2SF x \/
          (exists s1 s2, Prim2SF (z + x)%float = S754_zero s1 /\
                         Prim2SF x = S754_zero s2)) as H.
  { rewrite add_spec, Hz. unfold SF64add.
    destruct (Prim2SF x) as [s'|s'| |s' m e]; cbn [SFadd]; try done; eauto.
    right. destruct s, s'; eauto. }
  split.
  - apply is_nan_spec. destruct H as [-> | (s1 & s2 & -> & _)]; done.
  - unfold value. destruct H as [-> | (s1 & s2 & -> & ->)]; done.
Qed.

Lemma binary_normalize_number m e :
  (-1074 <= e)%Z -> binary_normalize prec emax m e false <> S754_nan.
Proof.
  intros He H. pose proof (binary_normalize_signum m e He) as Hs.
  destruct m as [|p|p]; [done| |]; rewrite H in Hs; done.
Qed.

(** The sum of two positive numbers is positive. *)
Lemma add_positive a b :
  (0 <? a)%float = true -> (0 <? b)%float = true ->
  (0 <? a + b)%float = true.
Proof.
  rewrite !ltb_spec, add_spec. change (Prim2SF 0) with (S754_zero false).
  rewrite !SFltb_zero. unfold SF64add.
  pose proof (Prim2SF_valid a) as Va. pose proof (Prim2SF_valid b) as Vb.
  destruct (Prim2SF a) as [sa|[]| |[] ma ea]; try done;
    destruct (Prim2SF b) as [sb|[]| |[] mb eb]; try done.
  intros _ _. cbn [SFadd cond_Zopp].
  apply valid_finite in Va as (Ha & _). apply valid_finite in Vb as (Hb & _).
  rewrite binary_normalize_signum by lia. done.
Qed.

(** The difference of two finite numbers, and a number plus a finite
    one, are numbers. *)
Lemma sub_finite_number a b :
  PrimFloat.is_finite a = true -> PrimFloat.is_finite b = true ->
  PrimFloat.is_nan (a - b)%float = false.
Proof.
  intros Ha Hb. apply is_nan_spec. rewrite sub_spec. unfold SF64sub.
  pose proof (Prim2SF_valid a) as Va. pose proof (Prim2SF_valid b) as Vb.
  destruct (is_finite_spec a Ha) as [[sa Ea] | (sa & ma & ea & Ea)];
    destruct (is_finite_spec b Hb) as [[sb Eb] | (sb & mb & eb & Eb)];
    rewrite Ea, Eb in *; cbn [SFsub]; try done.
  - by destruct sa, sb.
  - apply valid_finite in Va as (Hea & _).
    apply valid_finite in Vb as (Heb & _).
    apply binary_normalize_number. lia.
Qed.

Lemma add_finite_number a b :
  PrimFloat.is_nan a = false -> PrimFloat.is_finite b = true ->
  PrimFloat.is_nan (a + b)%float = false.
Proof.
  intros Ha Hb. apply is_nan_spec. rewrite add_spec. unfold SF64add.
  apply is_nan_spec in Ha.
  pose proof (Prim2SF_valid a) as Va. pose proof (Prim2SF_valid b) as Vb.
  destruct (Prim2SF a) as [sa|sa| |sa ma ea]; try done;
    destruct (is_finite_spec b Hb) as [[sb Eb] | (sb & mb & eb & Eb)];
    rewrite Eb in *; cbn [SFadd]; try done.
  - by destruct sa, sb.
  - apply valid_finite in Va as (Hea & _).
    apply valid_finite in Vb as (Heb & _).
    apply binary_normalize_number. lia.
Qed.

(** ** The panel state machine *)

Lemma endState_rawEnd ps index side :
  endState ps index side = orNone (rawEnd ps index side).
Proof. reflexivity. Qed.

Lemma getSide_setSide side v e : getSide side (setSide side v e) = Some v.
Proof. by destruct side. Qed.

Lemma getSide_setSide_ne side side' v e :
  side <> side' -> getSide side' (setSide side v e) = getSide side' e.
Proof. by destruct side, side'. Qed.

Lemma take_push_length (h : list PanelStates) idx s :
  idx < length h -> length (take (idx + 1) h ++ [s]) = idx + 2.
Proof. intros H. rewrite length_app, length_take. simpl. lia. Qed.

Lemma clickUpdate_panelStates index side v st :
  panelStates (clickUpdate index side v st)
  = <[index := setSide side v (spreadEntry (panelStates st !! index))]>
      (panelStates st).
Proof. reflexivity. Qed.

Lemma clickUpdate_target index side v st :
  rawEnd (panelStates (clickUpdate index side v st)) index side = Some v.
Proof.
  unfold rawEnd. rewrite clickUpdate_panelStates, lookup_insert_eq. simpl.
  apply getSide_setSide.
Qed.

Lemma clickUpdate_frame index side v st index' side' :
  (index', side') <> (index, side) ->
  rawEnd (panelStates (clickUpdate index side v st)) index' side'
  = rawEnd (panelStates st) index' side'.
Proof.
  intros Hne. unfold rawEnd. rewrite clickUpdate_panelStates.
  destruct (decide (index = index')) as [->|Hi].
  - rewrite lookup_insert_eq. simpl.
    rewrite getSide_setSide_ne by (intros ->; by apply Hne).
    destruct (panelStates st !! index'); [done | by destruct side'].
  - by rewrite lookup_insert_ne.
Qed.

(** A single click handled by [handlePanelClick] moves the end one step
    round the cycle; a click with [e.detail >= 2] writes [TERMINATED]. *)
Lemma handlePanelClick_single index side st detail :
  detail < 2 ->
  endState (panelStates
              (handlePanelClick false detail index (Some side) st)) index side
  = clickNext (endState (panelStates st) index side).
Proof.
  intros Hd. unfold handlePanelClick.
  destruct (2 <=? detail) eqn:E; [apply Nat.leb_le in E; lia|].
  by rewrite endState_rawEnd, clickUpdate_target.
Qed.

Lemma handlePanelClick_double index side st detail :
  2 <= detail ->
  endState (panelStates
              (handlePanelClick false detail index (Some side) st)) index side
  = TERMINATED.
Proof.
  intros Hd. unfold handlePanelClick.
  destruct (2 <=? detail) eqn:E; [|apply Nat.leb_gt in E; lia].
  by rewrite endState_rawEnd, clickUpdate_target.
Qed.

Lemma handlePanelClick_frame index side st detail index' side' :
  (index', side') <> (index, side) ->
  rawEnd (panelStates
            (handlePanelClick false detail index (Some side) st)) index' side'
  = rawEnd (panelStates st) index' side'.
Proof. intros Hne. unfold handlePanelClick. by apply clickUpdate_frame. Qed.

Lemma clickNext_three s : clickNext (clickNext (clickNext s)) = s.
Proof. by destruct s. Qed.

Section ClickOnPanel.

Variable panelsData : option (list Feature).
Variable bounds : option Bounds.
Variable canvasSize : CanvasSize.

Abbreviation mouseUp := (handleMouseUp panelsData bounds canvasSize).

Lemma rendered_getPanelEnds index :
  rendered panelsData index ->
  exists ends, getPanelEnds panelsData bounds canvasSize index = Some ends.
Proof.
  intros (features & feature & -> & Hf & _).
  unfold getPanelEnds. simpl. rewrite Hf. simpl. eauto.
Qed.

(** What the mouse-up handler does with a click on a drawn panel: the end
    nearer to the pointer moves one step round the cycle. *)
Lemma mouseUp_click index s e clicked unselect st :
  rendered panelsData index ->
  belowThreshold s e = true ->
  clicked = Some index ->
  exists ends,
    getPanelEnds panelsData bounds canvasSize index = Some ends /\
    mouseUp (mkGesture true (Some s) (Some e) unselect clicked) st
    = clickUpdate index (clickedSide ends s)
        (clickNext (endState (panelStates st) index (clickedSide ends s))) st.
Proof.
  intros Hr Hc ->. destruct (rendered_getPanelEnds index Hr) as [ends He].
  exists ends. split; [done|].
  unfold handleMouseUp. simpl. rewrite Hc, He. reflexivity.
Qed.

Lemma mouseUp_single_click index s e clicked unselect st :
  rendered panelsData index ->
  belowThreshold s e = true ->
  clicked = Some index ->
  exists side,
    let st' := mouseUp (mkGesture true (Some s) (Some e) unselect clicked) st in
    endState (panelStates st') index side
    = clickNext (endState (panelStates st) index side) /\
    forall index' side', (index', side') <> (index, side) ->
      rawEnd (panelStates st') index' side'
      = rawEnd (panelStates st) index' side'.
Proof.
  intros Hr Hc Hi.
  destruct (mouseUp_click index s e clicked unselect st Hr Hc Hi)
    as (ends & _ & Hst).
  exists (clickedSide ends s). cbv zeta. rewrite Hst. split.
  - by rewrite endState_rawEnd, clickUpdate_target.
  - intros. by apply clickUpdate_frame.
Qed.

(** A double click reaches the mouse-up handler as two clicks: the end
    moves two steps round the cycle. *)
Lemma mouseUp_double_click index s e clicked unselect st :
  rendered panelsData index ->
  belowThreshold s e = true ->
  clicked = Some index ->
  exists side,
    let g := mkGesture true (Some s) (Some e) unselect clicked in
    endState (panelStates (mouseUp g (mouseUp g st))) index side
    = clickNext (clickNext (endState (panelStates st) index side)).
Proof.
  intros Hr Hc Hi.
  destruct (mouseUp_click index s e clicked unselect st Hr Hc Hi)
    as (ends & He & Hst).
  exists (clickedSide ends s). cbv zeta.
  destruct (mouseUp_click index s e clicked unselect
              (mouseUp (mkGesture true (Some s) (Some e) unselect clicked) st)
              Hr Hc Hi) as (ends' & He' & Hst').
  assert (ends' = ends) as -> by congruence.
  rewrite Hst', endState_rawEnd, clickUpdate_target. cbn [orNone default].
  f_equal. rewrite Hst. by rewrite endState_rawEnd, clickUpdate_target.
Qed.

End ClickOnPanel.

(** C2 (evaluation of the code): on the site, the left end of panel 0 is
    [MC4_INSTALLED] after one click.  A double click then reaches the
    mouse-up handler, the only click handler attached to the drawing, as two
    clicks, and leaves the end at [NONE]; the handler [handlePanelClick],
    which no element uses, would have left it [TERMINATED] on the same two
    clicks ([e.detail] 1 then 2). *)
Theorem double_click_on_installed_end :
  endState (panelStates siteClicked) 0 SideLeft = MC4_INSTALLED /\
  endState (panelStates (siteMouseUp clickLeft0 (siteMouseUp clickLeft0 siteClicked)))
           0 SideLeft = NONE /\
  endState (panelStates
              (handlePanelClick false 2 0 (Some SideLeft)
                 (handlePanelClick false 1 0 (Some SideLeft) siteClicked)))
           0 SideLeft = TERMINATED.
Proof. vm_compute. auto. Qed.

(** ** Box selection *)

Lemma foldl_insert_lookup (P : nat -> bool) (f : nat -> PanelEntry)
    (l : list nat) (acc : PanelStates) (j : nat) :
  foldl (fun acc index => if P index then <[index := f index]> acc else acc)
        acc l !! j
  = if bool_decide (j ∈ l) && P j then Some (f j) else acc !! j.
Proof.
  revert acc. induction l as [|i l IH]; intros acc; cbn [foldl].
  - rewrite bool_decide_eq_false_2; [done|]. apply not_elem_of_nil.
  - rewrite IH. destruct (decide (j ∈ l)) as [Hin|Hin].
    + rewrite !bool_decide_eq_true_2; [|by apply elem_of_cons; right|done].
      simpl. destruct (P j) eqn:Pj; [done|].
      destruct (P i) eqn:Pi; [|done].
      rewrite lookup_insert_ne; [done|]. intros ->. congruence.
    + rewrite (bool_decide_eq_false_2 (j ∈ l)) by done. simpl.
      destruct (decide (j = i)) as [->|Hne].
      * rewrite bool_decide_eq_true_2 by apply list_elem_of_here. simpl.
        destruct (P i); [by rewrite lookup_insert_eq | done].
      * rewrite bool_decide_eq_false_2
          by (intros [?|?]%elem_of_cons; done).
        simpl. destruct (P i); [by rewrite lookup_insert_ne | done].
Qed.

Section BoxSelection.

Variable panelsData : option (list Feature).
Variable bounds : option Bounds.
Variable canvasSize : CanvasSize.

Abbreviation inSelection := (isPanelInSelection panelsData bounds canvasSize).
Abbreviation select := (applySelection panelsData bounds canvasSize).

Lemma inSelection_lt features index selStart selEnd :
  panelsData = Some features ->
  inSelection index selStart selEnd = true ->
  index < length features.
Proof.
  intros -> H. unfold isPanelInSelection, getPanelEnds in H. simpl in H.
  destruct selStart, selEnd; try done.
  destruct (features !! index) eqn:E; [|done].
  by eapply lookup_lt_Some.
Qed.

Lemma select_lookup features s e unselect st index :
  panelsData = Some features ->
  belowThreshold s e = false ->
  panelStates (select (Some s) (Some e) unselect st) !! index
  = if inSelection index (Some s) (Some e)
    then Some (selectionEntry unselect (panelStates st) index)
    else panelStates st !! index.
Proof.
  intros Hd Hth.
  assert (panelStates (select (Some s) (Some e) unselect st) !! index
          = if bool_decide (index ∈ seq 0 (length features))
               && inSelection index (Some s) (Some e)
            then Some (selectionEntry unselect (panelStates st) index)
            else panelStates st !! index) as ->.
  { rewrite <- (foldl_insert_lookup
                  (fun i => inSelection i (Some s) (Some e))
                  (selectionEntry unselect (panelStates st))).
    unfold applySelection.
    rewrite Hd, Hth. by destruct (existsb _ _). }
  destruct (inSelection index (Some s) (Some e)) eqn:E;
    [|by rewrite andb_false_r].
  rewrite bool_decide_eq_true_2; [done|].
  apply elem_of_seq. pose proof (inSelection_lt _ _ _ _ Hd E). lia.
Qed.

End BoxSelection.

(** C3 (as stated): a box selection with the select gesture does not move
    every selected end one step round the click cycle.  On the site, after
    two selections of everything the left end of panel 0 is [TERMINATED];
    a third selection leaves it [TERMINATED], where the cycle would give
    [NONE]. *)
Lemma box_selection_does_not_wrap :
  ~ (forall panelsData bounds canvasSize s e st index side,
       belowThreshold s e = false ->
       isPanelInSelection panelsData bounds canvasSize index (Some s) (Some e)
       = true ->
       endState
         (panelStates
            (applySelection panelsData bounds canvasSize (Some s) (Some e)
                            false st)) index side
       = clickNext (endState (panelStates st) index side)).
Proof.
  intros H.
  specialize (H siteData siteBounds loadedCanvas (pt 0 0) (pt 1200 900)
                siteTerminated 0 SideLeft eq_refl eq_refl).
  vm_compute in H. discriminate H.
Qed.

(** C3 (amended): a box selection that is not below the drag threshold
    writes, for every panel the selection test accepts, both ends: with the
    select gesture each end moves one step along NONE, MC4_INSTALLED,
    TERMINATED according to its own state, and a TERMINATED end stays
    TERMINATED; with the unselect gesture both ends become NONE.  The entry
    of every other panel is left as it was. *)
Theorem box_selection_steps panelsData bounds canvasSize features s e
    unselect st index :
  panelsData = Some features ->
  belowThreshold s e = false ->
  (isPanelInSelection panelsData bounds canvasSize index (Some s) (Some e)
   = true ->
   forall side,
     endState
       (panelStates
          (applySelection panelsData bounds canvasSize (Some s) (Some e)
                          unselect st)) index side
     = if unselect then NONE
       else selectNext (endState (panelStates st) index side)) /\
  (isPanelInSelection panelsData bounds canvasSize index (Some s) (Some e)
   = false ->
   panelStates
     (applySelection panelsData bounds canvasSize (Some s) (Some e)
                     unselect st) !! index
   = panelStates st !! index).
Proof.
  intros Hd Hth. split; intros Hsel.
  - intros side. unfold endState at 1.
    rewrite (select_lookup _ _ _ features) by done. rewrite Hsel.
    unfold selectionEntry. by destruct unselect, side.
  - rewrite (select_lookup _ _ _ features) by done. by rewrite Hsel.
Qed.

Lemma box_selection_steps_witness :
  siteData = Some sitePanels /\
  belowThreshold (pt 0 0) (pt 1200 900) = false /\
  (isPanelInSelection siteData siteBounds loadedCanvas 0
     (Some (pt 0 0)) (Some (pt 1200 900)) = true ->
   forall side,
     endState
       (panelStates
          (applySelection siteData siteBounds loadedCanvas
             (Some (pt 0 0)) (Some (pt 1200 900)) false siteTerminated))
       0 side
     = selectNext (endState (panelStates siteTerminated) 0 side)) /\
  (isPanelInSelection siteData siteBounds loadedCanvas 0
     (Some (pt 0 0)) (Some (pt 1200 900)) = false ->
   panelStates
     (applySelection siteData siteBounds loadedCanvas
        (Some (pt 0 0)) (Some (pt 1200 900)) false siteTerminated) !! 0
   = panelStates siteTerminated !! 0).
Proof.
  split; [reflexivity|]. split; [vm_compute; reflexivity|].
  apply (box_selection_steps siteData siteBounds loadedCanvas sitePanels
           (pt 0 0) (pt 1200 900) false siteTerminated 0);
    [reflexivity | vm_compute; reflexivity].
Defined.

(** ** The history manager *)

Lemma pushHistory_spec (h : list PanelStates) idx s :
  idx < length h ->
  pushHistory h idx s = (take (idx + 1) h ++ [s], idx + 1) /\
  (take (idx + 1) h ++ [s]) !! (idx + 1) = Some s /\
  length (take (idx + 1) h ++ [s]) = idx + 2 /\
  (forall i, i <= idx -> (take (idx + 1) h ++ [s]) !! i = h !! i).
Proof.
  intros Hlt. pose proof (take_push_length h idx s Hlt) as Hlen.
  assert (length (take (idx + 1) h) = idx + 1) as Htake
    by (rewrite length_take; lia).
  repeat split.
  - unfold pushHistory. rewrite Hlen. f_equal. lia.
  - rewrite lookup_app_r by lia. rewrite Htake.
    by replace (idx + 1 - (idx + 1)) with 0 by lia.
  - done.
  - intros i Hi. rewrite lookup_app_l by lia. apply lookup_take_lt. lia.
Qed.

Lemma historyInv_push n st newStates :
  historyInv n st ->
  keysBelow n newStates ->
  let '(newHistory, idx) :=
    pushHistory (history st) (historyIndex st) newStates in
  historyInv n (mkEditor newStates newHistory idx) /\
  idx = length newHistory - 1.
Proof.
  intros (Hlt & Hcur & Hall) Hk.
  destruct (pushHistory_spec (history st) (historyIndex st) newStates Hlt)
    as (-> & Hlast & Hlen & _).
  split; [|simpl; lia]. repeat split; simpl.
  - lia.
  - done.
  - apply Forall_app. split; [by apply Forall_take | by apply Forall_singleton].
Qed.

Lemma undo_spec n st :
  historyInv n st ->
  (historyIndex st = 0 -> undo st = Some st) /\
  (0 < historyIndex st ->
   exists s, history st !! (historyIndex st - 1) = Some s /\
     undo st = Some (mkEditor s (history st) (historyIndex st - 1))).
Proof.
  intros (Hlt & _ & _). unfold undo. split; intros Hi.
  - by rewrite Hi.
  - destruct (0 <? historyIndex st) eqn:E; [|apply Nat.ltb_ge in E; lia].
    destruct (lookup_lt_is_Some_2 (history st) (historyIndex st - 1))
      as [s Hs]; [lia|].
    exists s. by rewrite Hs.
Qed.

Lemma redo_spec n st :
  historyInv n st ->
  (historyIndex st = length (history st) - 1 -> redo st = Some st) /\
  (historyIndex st < length (history st) - 1 ->
   exists s, history st !! (historyIndex st + 1) = Some s /\
     redo st = Some (mkEditor s (history st) (historyIndex st + 1))).
Proof.
  intros (Hlt & _ & _). unfold redo. split; intros Hi.
  - destruct (historyIndex st <? length (history st) - 1) eqn:E; [|done].
    apply Nat.ltb_lt in E. lia.
  - destruct (historyIndex st <? length (history st) - 1) eqn:E;
      [|apply Nat.ltb_ge in E; lia].
    destruct (lookup_lt_is_Some_2 (history st) (historyIndex st + 1))
      as [s Hs]; [lia|].
    exists s. by rewrite Hs.
Qed.

Lemma historyInv_undo n st st' :
  historyInv n st -> undo st = Some st' -> historyInv n st'.
Proof.
  intros Hinv Hu. destruct (undo_spec n st Hinv) as [H0 Hpos].
  destruct (decide (historyIndex st = 0)) as [Hz|Hnz].
  - rewrite (H0 Hz) in Hu. by inversion Hu; subst.
  - destruct Hpos as (s & Hs & Heq); [lia|]. rewrite Heq in Hu.
    inversion Hu; subst. destruct Hinv as (Hlt & _ & Hall).
    repeat split; simpl; [lia | done | done].
Qed.

Lemma historyInv_redo n st st' :
  historyInv n st -> redo st = Some st' -> historyInv n st'.
Proof.
  intros Hinv Hr. destruct (redo_spec n st Hinv) as [Hlast Hmore].
  destruct (decide (historyIndex st = length (history st) - 1)) as [Hz|Hnz].
  - rewrite (Hlast Hz) in Hr. by inversion Hr; subst.
  - destruct Hinv as (Hlt & Hcur & Hall).
    destruct Hmore as (s & Hs & Heq); [lia|]. rewrite Heq in Hr.
    inversion Hr; subst. repeat split; simpl; [lia | done | done].
Qed.

Lemma historyInv_init n : historyInv n initialEditor.
Proof.
  split; [simpl; lia|]. split; [done|].
  apply Forall_singleton. intros i e H. by rewrite lookup_empty in H.
Qed.

Lemma keysBelow_insert n (ps : PanelStates) index entry :
  keysBelow n ps -> index < n -> keysBelow n (<[index := entry]> ps).
Proof.
  intros Hk Hi j e. destruct (decide (index = j)) as [->|Hne].
  - done.
  - rewrite lookup_insert_ne by done. apply Hk.
Qed.

Lemma historyInv_current n st : historyInv n st -> keysBelow n (panelStates st).
Proof.
  intros (_ & Hcur & Hall). rewrite Forall_lookup in Hall. by eapply Hall.
Qed.

Lemma historyInv_clickUpdate n index side v st :
  historyInv n st -> index < n ->
  historyInv n (clickUpdate index side v st) /\
  historyIndex (clickUpdate index side v st)
  = length (history (clickUpdate index side v st)) - 1.
Proof.
  intros Hinv Hi. unfold clickUpdate.
  pose proof (historyInv_push n st
    (<[index := setSide side v (spreadEntry (panelStates st !! index))]>
       (panelStates st)) Hinv) as Hp.
  destruct (pushHistory _ _ _) as [newHistory idx]. apply Hp.
  apply keysBelow_insert; [by apply historyInv_current | done].
Qed.

Section History.

Variable panelsData : option (list Feature).
Variable bounds : option Bounds.
Variable canvasSize : CanvasSize.

Abbreviation panels := (panelCount panelsData).
Abbreviation inSel := (isPanelInSelection panelsData bounds canvasSize).
Abbreviation select := (applySelection panelsData bounds canvasSize).
Abbreviation mouseUp := (handleMouseUp panelsData bounds canvasSize).

Lemma getPanelEnds_lt index ends :
  getPanelEnds panelsData bounds canvasSize index = Some ends -> index < panels.
Proof.
  unfold getPanelEnds, panelCount. destruct panelsData as [features|];
    simpl; [|done].
  destruct (features !! index) eqn:E; [|done].
  intros _. by eapply lookup_lt_Some.
Qed.

(** A box selection either pushes one snapshot, or selects nothing and
    leaves the state as it is. *)
Lemma select_inv st selStart selEnd unselect :
  historyInv panels st ->
  historyInv panels (select selStart selEnd unselect st) /\
  (historyIndex (select selStart selEnd unselect st)
   = length (history (select selStart selEnd unselect st)) - 1 \/
   select selStart selEnd unselect st = st).
Proof.
  intros Hinv. unfold applySelection, panelCount in *.
  destruct panelsData as [features|]; [|by auto].
  destruct selStart as [s|]; [|by auto].
  destruct selEnd as [e|]; [|by auto].
  destruct (belowThreshold s e); [by auto|].
  set (P := fun index : nat =>
         isPanelInSelection (Some features) bounds canvasSize index
                            (Some s) (Some e)).
  set (f := selectionEntry unselect (panelStates st)).
  set (newStates := foldl _ _ _).
  assert (forall j, newStates !! j
            = if bool_decide (j ∈ seq 0 (length features)) && P j
              then Some (f j) else panelStates st !! j) as Hlook.
  { intros j. apply (foldl_insert_lookup P f). }
  assert (keysBelow (length features) newStates) as Hkeys.
  { intros j entry Hj. rewrite Hlook in Hj.
    destruct (bool_decide (j ∈ seq 0 (length features))) eqn:Hin.
    - apply bool_decide_eq_true in Hin. apply elem_of_seq in Hin. lia.
    - simpl in Hj. by eapply historyInv_current. }
  destruct (existsb _ _) eqn:Hex.
  - pose proof (historyInv_push _ st newStates Hinv Hkeys) as Hp.
    destruct (pushHistory _ _ _) as [newHistory idx].
    destruct Hp as [Hp1 Hp2]. split; [done | by left].
  - assert (newStates = panelStates st) as ->.
    { apply map_eq. intros j. rewrite Hlook.
      destruct (bool_decide (j ∈ seq 0 (length features))) eqn:Hin;
        [|done].
      destruct (P j) eqn:Pj; [|done]. exfalso.
      apply bool_decide_eq_true in Hin.
      assert (existsb P (seq 0 (length features)) = true) as Hex'.
      { apply existsb_exists. exists j. split; [|done].
        by apply list_elem_of_In. }
      change (existsb P (seq 0 (length features)) = false) in Hex.
      congruence. }
    destruct st; simpl in *. auto.
Qed.

Lemma select_pushes st s e unselect index :
  historyInv panels st ->
  belowThreshold s e = false ->
  inSel index (Some s) (Some e) = true ->
  historyIndex (select (Some s) (Some e) unselect st)
  = length (history (select (Some s) (Some e) unselect st)) - 1.
Proof.
  intros Hinv Hth Hsel. unfold applySelection.
  destruct panelsData as [features|]; [|done].
  rewrite Hth.
  assert (existsb (fun i => isPanelInSelection (Some features) bounds
                              canvasSize i (Some s) (Some e))
                  (seq 0 (length features)) = true) as ->.
  { apply existsb_exists. exists index. split; [|done].
    apply list_elem_of_In, elem_of_seq.
    assert (index < length features); [|lia].
    by eapply (inSelection_lt (Some features) bounds canvasSize). }
  destruct Hinv as (Hlt & _ & _).
  destruct (pushHistory_spec (history st) (historyIndex st)
    (foldl (fun acc i =>
              if isPanelInSelection (Some features) bounds canvasSize i
                   (Some s) (Some e)
              then <[i := selectionEntry unselect (panelStates st) i]> acc
              else acc) (panelStates st) (seq 0 (length features))) Hlt)
    as (-> & _ & Hlen & _).
  cbn [historyIndex history]. rewrite Hlen. lia.
Qed.

Lemma mouseUp_inv g st : historyInv panels st -> historyInv panels (mouseUp g st).
Proof.
  intros Hinv. unfold handleMouseUp.
  destruct (isSelecting g); [|done].
  destruct (selectionStart g) as [s|] eqn:Hs; [|done].
  destruct (selectionEnd g) as [e|] eqn:He; [|done].
  destruct (if belowThreshold s e then clickedPanelIndex g else None)
    as [panelIndex|].
  - destruct (getPanelEnds _ _ _ panelIndex) as [ends|] eqn:Hends; [|done].
    apply historyInv_clickUpdate; [done|]. by eapply getPanelEnds_lt.
  - by apply select_inv.
Qed.

Lemma step_inv st st' :
  step panelsData bounds canvasSize st st' ->
  historyInv panels st -> historyInv panels st'.
Proof.
  intros Hstep Hinv.
  destruct Hstep as [g st _ | isAddingNote detail index side st Hrend
                    | st st' Hu | st st' Hr].
  - by apply mouseUp_inv.
  - unfold handlePanelClick. destruct isAddingNote; [done|].
    destruct side as [side|]; [|done].
    apply historyInv_clickUpdate; [done|].
    destruct Hrend as (features & feature & -> & Hf & _).
    by eapply lookup_lt_Some.
  - by eapply historyInv_undo.
  - by eapply historyInv_redo.
Qed.

Lemma reachable_inv st :
  reachable panelsData bounds canvasSize st -> historyInv panels st.
Proof.
  induction 1 as [|st st' _ IH Hstep].
  - apply historyInv_init.
  - by eapply step_inv.
Qed.

(** From a reachable state neither [undo] nor [redo] reads outside the
    history. *)
Lemma reachable_undo_redo_defined st :
  reachable panelsData bounds canvasSize st ->
  is_Some (undo st) /\ is_Some (redo st).
Proof.
  intros Hr. pose proof (reachable_inv st Hr) as Hinv.
  destruct (undo_spec _ st Hinv) as [Hu0 Hu1].
  destruct (redo_spec _ st Hinv) as [Hr0 Hr1]. split.
  - destruct (decide (historyIndex st = 0)) as [Hz|Hz].
    + rewrite Hu0; eauto.
    + destruct Hu1 as (s & _ & ->); [lia | eauto].
  - destruct (decide (historyIndex st = length (history st) - 1)) as [Hz|Hz].
    + rewrite Hr0; eauto.
    + destruct Hinv as (Hlt & _). destruct Hr1 as (s & _ & ->); [lia | eauto].
Qed.

End History.

Lemma site_rendered index : index < 3 -> rendered siteData index.
Proof.
  intros Hi. unfold rendered, siteData.
  destruct index as [|[|[|index]]]; [| | |lia];
    (eexists; eexists; split; [reflexivity|]; split; [reflexivity|]; simpl; lia).
Qed.

Lemma site_step g st :
  (forall index, clickedPanelIndex g = Some index -> index < 3) ->
  reachable siteData siteBounds loadedCanvas st ->
  reachable siteData siteBounds loadedCanvas (siteMouseUp g st).
Proof.
  intros Hg Hr. eapply reachable_step; [exact Hr|].
  apply step_mouseUp. intros index Hi. apply site_rendered. by apply Hg.
Qed.

Lemma siteClicked_reachable :
  reachable siteData siteBounds loadedCanvas siteClicked.
Proof.
  apply site_step; [|apply reachable_init].
  intros index [= <-]. lia.
Qed.

Lemma siteTerminated_reachable :
  reachable siteData siteBounds loadedCanvas siteTerminated.
Proof. do 2 (apply site_step; [done|]). apply reachable_init. Qed.

(** C4: the history manager.  The initial history is the single empty
    mapping at index 0.  In every reachable state the index lies within the
    history; a push keeps the snapshots up to the current index, drops the
    ones behind it, appends the new snapshot and moves the index to this
    last element; undo does nothing at index 0 and otherwise moves the index
    one down and restores that snapshot; redo does nothing at the last index
    and otherwise moves the index one up and restores that snapshot. *)
Theorem history_contract panelsData bounds canvasSize st :
  reachable panelsData bounds canvasSize st ->
  initialEditor = mkEditor ∅ [∅] 0 /\
  historyIndex st < length (history st) /\
  (forall snapshot,
     let newHistory := take (historyIndex st + 1) (history st) ++ [snapshot] in
     pushHistory (history st) (historyIndex st) snapshot
     = (newHistory, length newHistory - 1) /\
     length newHistory = historyIndex st + 2 /\
     newHistory !! (length newHistory - 1) = Some snapshot /\
     forall i, i <= historyIndex st -> newHistory !! i = history st !! i) /\
  (historyIndex st = 0 -> undo st = Some st) /\
  (0 < historyIndex st ->
   exists s, history st !! (historyIndex st - 1) = Some s /\
     undo st = Some (mkEditor s (history st) (historyIndex st - 1))) /\
  (historyIndex st = length (history st) - 1 -> redo st = Some st) /\
  (historyIndex st < length (history st) - 1 ->
   exists s, history st !! (historyIndex st + 1) = Some s /\
     redo st = Some (mkEditor s (history st) (historyIndex st + 1))).
Proof.
  intros Hr. pose proof (reachable_inv _ _ _ st Hr) as Hinv.
  destruct (undo_spec _ st Hinv) as [Hu0 Hu1].
  destruct (redo_spec _ st Hinv) as [Hr0 Hr1].
  pose proof Hinv as (Hlt & _ & _).
  split; [reflexivity|]. split; [exact Hlt|].
  split; [|by repeat split].
  intros snapshot newHistory.
  destruct (pushHistory_spec (history st) (historyIndex st) snapshot Hlt)
    as (_ & Hlast & Hlen & Hkeep).
  subst newHistory. split; [reflexivity|]. split; [exact Hlen|].
  split; [|exact Hkeep].
  rewrite Hlen. by replace (historyIndex st + 2 - 1) with (historyIndex st + 1)
    by lia.
Qed.

Lemma history_contract_witness :
  reachable siteData siteBounds loadedCanvas siteClicked /\
  historyIndex siteClicked < length (history siteClicked) /\
  0 < historyIndex siteClicked /\
  exists s, history siteClicked !! (historyIndex siteClicked - 1) = Some s /\
    undo siteClicked
    = Some (mkEditor s (history siteClicked) (historyIndex siteClicked - 1)).
Proof.
  split; [exact siteClicked_reachable|].
  pose proof (history_contract siteData siteBounds loadedCanvas siteClicked
                siteClicked_reachable) as (_ & Hlt & _ & _ & Hundo & _).
  assert (0 < historyIndex siteClicked) as Hpos by (vm_compute; lia).
  split; [exact Hlt|]. split; [exact Hpos | exact (Hundo Hpos)].
Defined.

Lemma redo_at_last st :
  historyIndex st = length (history st) - 1 -> redo st = Some st.
Proof.
  intros H. unfold redo.
  destruct (historyIndex st <? length (history st) - 1) eqn:E; [|done].
  apply Nat.ltb_lt in E. lia.
Qed.

Lemma clickUpdate_index index side v st :
  historyIndex st < length (history st) ->
  historyIndex (clickUpdate index side v st) = historyIndex st + 1 /\
  length (history (clickUpdate index side v st)) = historyIndex st + 2.
Proof.
  intros Hlt. unfold clickUpdate.
  destruct (pushHistory_spec (history st) (historyIndex st)
    (<[index := setSide side v (spreadEntry (panelStates st !! index))]>
       (panelStates st)) Hlt) as (-> & _ & Hlen & _).
  cbn [historyIndex history]. by rewrite Hlen.
Qed.

Lemma times_undo n k : forall st,
  historyInv n st -> k <= historyIndex st ->
  exists s, history st !! (historyIndex st - k) = Some s /\
    times undo k st = Some (mkEditor s (history st) (historyIndex st - k)).
Proof.
  induction k as [|k IH]; intros st Hinv Hk.
  - exists (panelStates st). destruct Hinv as (_ & Hcur & _).
    rewrite Nat.sub_0_r. split; [done|]. by destruct st.
  - destruct (undo_spec n st Hinv) as [_ Hpos].
    destruct Hpos as (s1 & Hs1 & Hu); [lia|].
    assert (historyInv n (mkEditor s1 (history st) (historyIndex st - 1)))
      as Hinv1 by (by eapply historyInv_undo).
    destruct (IH _ Hinv1) as (s & Hs & Ht); [simpl; lia|].
    simpl in Hs, Ht. exists s.
    replace (historyIndex st - S k) with (historyIndex st - 1 - k) by lia.
    split; [done|]. simpl. rewrite Hu. simpl. exact Ht.
Qed.

Lemma times_redo n k : forall st,
  historyInv n st -> historyIndex st + k < length (history st) ->
  exists s, history st !! (historyIndex st + k) = Some s /\
    times redo k st = Some (mkEditor s (history st) (historyIndex st + k)).
Proof.
  induction k as [|k IH]; intros st Hinv Hk.
  - exists (panelStates st). destruct Hinv as (_ & Hcur & _).
    rewrite Nat.add_0_r. split; [done|]. by destruct st.
  - destruct (redo_spec n st Hinv) as [_ Hmore].
    destruct Hmore as (s1 & Hs1 & Hu); [lia|].
    assert (historyInv n (mkEditor s1 (history st) (historyIndex st + 1)))
      as Hinv1 by (by eapply historyInv_redo).
    destruct (IH _ Hinv1) as (s & Hs & Ht); [simpl; lia|].
    simpl in Hs, Ht. exists s.
    replace (historyIndex st + S k) with (historyIndex st + 1 + k) by lia.
    split; [done|]. simpl. rewrite Hu. simpl. exact Ht.
Qed.

(** C5: the undo/redo laws.  In a reachable state, [k] undo calls followed
    by [k] redo calls give back the state they started from, mapping
    included, for every [k] up to the history index (which [k] pushes raise
    to at least [k], and which is at most the history length minus one).
    After an undo, a mutation (a click on an end, or a box selection that
    selects a panel) becomes the last snapshot, so the redo that follows
    changes nothing. *)
Theorem undo_redo_laws panelsData bounds canvasSize st :
  reachable panelsData bounds canvasSize st ->
  (forall k, k <= historyIndex st ->
     times undo k st ≫= times redo k = Some st) /\
  (forall st', undo st = Some st' ->
     (forall index side newState,
        redo (clickUpdate index side newState st')
        = Some (clickUpdate index side newState st')) /\
     (forall s e unselect index,
        belowThreshold s e = false ->
        isPanelInSelection panelsData bounds canvasSize index
                           (Some s) (Some e) = true ->
        redo (applySelection panelsData bounds canvasSize
                             (Some s) (Some e) unselect st')
        = Some (applySelection panelsData bounds canvasSize
                               (Some s) (Some e) unselect st'))).
Proof.
  intros Hr. pose proof (reachable_inv _ _ _ st Hr) as Hinv. split.
  - intros k Hk.
    destruct (times_undo _ k st Hinv Hk) as (s & Hs & ->). simpl.
    set (st1 := mkEditor s (history st) (historyIndex st - k)).
    assert (historyInv (panelCount panelsData) st1) as Hinv1.
    { destruct Hinv as (Hlt & Hcur & Hall). split; [simpl; lia|]. by split. }
    destruct (times_redo _ k st1 Hinv1) as (s' & Hs' & ->).
    { destruct Hinv as (Hlt & _). simpl. lia. }
    simpl in *. replace (historyIndex st - k + k) with (historyIndex st) in *
      by lia.
    destruct Hinv as (_ & Hcur & _). rewrite Hcur in Hs'.
    inversion Hs'; subst. by destruct st.
  - intros st' Hu.
    assert (historyInv (panelCount panelsData) st') as Hinv'
      by (by eapply historyInv_undo).
    split.
    + intros index side newState. apply redo_at_last.
      destruct Hinv' as (Hlt & _).
      destruct (clickUpdate_index index side newState st' Hlt) as [-> ->]. lia.
    + intros s e unselect index Hth Hsel. apply redo_at_last.
      by eapply select_pushes.
Qed.

Lemma undo_redo_laws_witness :
  reachable siteData siteBounds loadedCanvas siteTerminated /\
  2 <= historyIndex siteTerminated /\
  times undo 2 siteTerminated ≫= times redo 2 = Some siteTerminated.
Proof.
  split; [exact siteTerminated_reachable|].
  assert (2 <= historyIndex siteTerminated) as Hk by (vm_compute; lia).
  split; [exact Hk|].
  exact (proj1 (undo_redo_laws siteData siteBounds loadedCanvas siteTerminated
                  siteTerminated_reachable) 2 Hk).
Defined.

(** ** The aggregate counters *)

Lemma countEntry_add state a b :
  countEntry state (a, b)
  = ((a + entryMc4 state)%Z, (b + entryTermination state)%Z).
Proof.
  unfold countEntry, entryMc4, entryTermination, incrIf.
  destruct (countsForMc4 (left state)), (countsForMc4 (right state)),
    (countsForTermination (left state)),
    (countsForTermination (right state)); simpl; f_equal; lia.
Qed.

Lemma countEntry_comm s1 s2 acc :
  countEntry s1 (countEntry s2 acc) = countEntry s2 (countEntry s1 acc).
Proof. destruct acc as [a b]. rewrite !countEntry_add. f_equal; lia. Qed.

Lemma sumEntries_empty g l : sumEntries g ∅ l = 0%Z.
Proof.
  induction l as [|i l IH]; [done|]. simpl. by rewrite lookup_empty, IH.
Qed.

Lemma sumEntries_insert_notin g (ps : PanelStates) i x l :
  i ∉ l -> sumEntries g (<[i := x]> ps) l = sumEntries g ps l.
Proof.
  induction l as [|j l IH]; [done|]. intros Hni.
  apply not_elem_of_cons in Hni as [Hne Hni]. simpl.
  rewrite lookup_insert_ne by done. by rewrite IH.
Qed.

Lemma sumEntries_insert g (ps : PanelStates) i x l :
  NoDup l -> i ∈ l -> ps !! i = None ->
  sumEntries g (<[i := x]> ps) l = (sumEntries g ps l + g x)%Z.
Proof.
  induction l as [|j l IH]; intros Hnd Hin Hnone.
  - by apply elem_of_nil in Hin.
  - apply NoDup_cons in Hnd as [Hj Hnd]. simpl.
    destruct (decide (i = j)) as [->|Hne].
    + rewrite lookup_insert_eq, Hnone, sumEntries_insert_notin by done.
      simpl. lia.
    + rewrite lookup_insert_ne by done. rewrite IH; [lia|done| |done].
      apply elem_of_cons in Hin as [?|?]; [done|done].
Qed.

(** The fold over the values of the mapping is the sum over the panel
    indices, as soon as every key is a panel index. *)
Lemma fold_countEntry n (ps : PanelStates) :
  keysBelow n ps ->
  map_fold (fun _ state acc => countEntry state acc) (0%Z, 0%Z) ps
  = (sumEntries entryMc4 ps (seq 0 n),
     sumEntries entryTermination ps (seq 0 n)).
Proof.
  induction ps as [|i x ps Hnone IH] using map_ind; intros Hk.
  - by rewrite map_fold_empty, !sumEntries_empty.
  - rewrite map_fold_insert_L; [|intros; apply countEntry_comm|done].
    rewrite IH.
    + rewrite countEntry_add.
      assert (i ∈ seq 0 n) as Hin.
      { apply elem_of_seq. pose proof (Hk i x (lookup_insert_eq _ _ _)). lia. }
      by rewrite !sumEntries_insert by (done || apply NoDup_seq).
    + intros j e Hj. apply (Hk j e).
      rewrite lookup_insert_ne; [done|]. intros ->. congruence.
Qed.

Lemma endsWith_sum (P : PanelState -> bool) (R : option PanelState -> bool)
    (ps : PanelStates) l :
  (forall v, R v = P (orNone v)) ->
  P NONE = false ->
  Z.of_nat
    (length (List.filter (fun '(index, side) => P (endState ps index side))
               (flat_map (fun index => [(index, SideLeft); (index, SideRight)])
                         l)))
  = sumEntries (fun state => (Z.b2z (R (left state)) + Z.b2z (R (right state)))%Z)
               ps l.
Proof.
  intros HQ HP. induction l as [|i l IH]; [done|].
  cbn [flat_map sumEntries foldr]. rewrite List.filter_app, length_app.
  rewrite Nat2Z.inj_add, IH. unfold sumEntries. f_equal.
  cbn [List.filter]. unfold endState.
  destruct (ps !! i) as [entry|]; simpl.
  - rewrite !HQ. by destruct (P (orNone (left entry))),
      (P (orNone (right entry))).
  - by rewrite HP.
Qed.

(** The totals do not depend on the mapping. *)
Lemma counters_total panelsData (ps : PanelStates) :
  total (mc4 panelsData ps) = (2 * Z.of_nat (panelCount panelsData))%Z /\
  total (termination panelsData ps)
  = (2 * Z.of_nat (panelCount panelsData))%Z.
Proof.
  unfold mc4, termination, counters, panelCount.
  destruct (map_fold _ _ ps) as [m t]. cbn [fst snd total]. lia.
Qed.

Section Counters.

Variable panelsData : option (list Feature).
Variable bounds : option Bounds.
Variable canvasSize : CanvasSize.

Lemma counters_unfold (ps : PanelStates) :
  keysBelow (panelCount panelsData) ps ->
  counters panelsData ps
  = (let totalEnds := (Z.of_nat (panelCount panelsData) * 2)%Z in
     let m := endsWith isMc4Done ps (panelCount panelsData) in
     let t := endsWith isTerminated ps (panelCount panelsData) in
     (mkCounter totalEnds m (totalEnds - m),
      mkCounter totalEnds t (totalEnds - t))).
Proof.
  intros Hk. unfold counters. rewrite (fold_countEntry _ ps Hk).
  unfold endsWith, allEnds.
  rewrite (endsWith_sum isMc4Done countsForMc4);
    [|by intros [[]|] | done].
  rewrite (endsWith_sum isTerminated countsForTermination);
    [|by intros [[]|] | done].
  reflexivity.
Qed.

End Counters.

(** C1: in every reachable state the counters shown are: for MC4 the
    number of ends of loaded panels whose state is [MC4_INSTALLED] or
    [TERMINATED], for termination the number of ends whose state is
    [TERMINATED]; both totals are twice the number of loaded panel
    features, and completed plus remaining is the total. *)
Theorem counters_invariant panelsData bounds canvasSize st :
  reachable panelsData bounds canvasSize st ->
  let ps := panelStates st in
  let panels := panelCount panelsData in
  completed (mc4 panelsData ps) = endsWith isMc4Done ps panels /\
  completed (termination panelsData ps) = endsWith isTerminated ps panels /\
  total (mc4 panelsData ps) = (2 * Z.of_nat panels)%Z /\
  total (termination panelsData ps) = (2 * Z.of_nat panels)%Z /\
  (completed (mc4 panelsData ps) + remaining (mc4 panelsData ps))%Z
  = total (mc4 panelsData ps) /\
  (completed (termination panelsData ps)
   + remaining (termination panelsData ps))%Z
  = total (termination panelsData ps).
Proof.
  intros Hr ps panels.
  pose proof (historyInv_current _ _ (reachable_inv _ _ _ st Hr)) as Hk.
  unfold mc4, termination. rewrite (counters_unfold _ ps Hk).
  cbn [fst snd total completed remaining]. repeat split; lia.
Qed.

Lemma counters_invariant_witness :
  reachable siteData siteBounds loadedCanvas siteClicked /\
  completed (mc4 siteData (panelStates siteClicked))
  = endsWith isMc4Done (panelStates siteClicked) (panelCount siteData) /\
  completed (termination siteData (panelStates siteClicked))
  = endsWith isTerminated (panelStates siteClicked) (panelCount siteData) /\
  total (mc4 siteData (panelStates siteClicked))
  = (2 * Z.of_nat (panelCount siteData))%Z /\
  total (termination siteData (panelStates siteClicked))
  = (2 * Z.of_nat (panelCount siteData))%Z /\
  (completed (mc4 siteData (panelStates siteClicked))
   + remaining (mc4 siteData (panelStates siteClicked)))%Z
  = total (mc4 siteData (panelStates siteClicked)) /\
  (completed (termination siteData (panelStates siteClicked))
   + remaining (termination siteData (panelStates siteClicked)))%Z
  = total (termination siteData (panelStates siteClicked)).
Proof.
  split; [exact siteClicked_reachable|].
  exact (counters_invariant siteData siteBounds loadedCanvas siteClicked
           siteClicked_reachable).
Defined.

(** The scenarios of the specification on the site of three panels. *)
Example scenario_no_clicks :
  counters siteData (panelStates initialEditor)
  = (mkCounter 6 0 6, mkCounter 6 0 6).
Proof. reflexivity. Qed.

Example scenario_clicks :
  let st1 := siteMouseUp clickLeft0 initialEditor in
  let st2 := siteMouseUp clickRight1 (siteMouseUp clickRight1 st1) in
  completed (mc4 siteData (panelStates st1)) = 1%Z /\
  completed (mc4 siteData (panelStates st2)) = 2%Z /\
  completed (termination siteData (panelStates st2)) = 1%Z /\
  endState (panelStates st2) 1 SideRight = TERMINATED.
Proof. vm_compute. auto. Qed.

Example scenario_box_selection :
  let st1 := siteMouseUp (dragAll false) initialEditor in
  let st2 := siteMouseUp (dragAll false) st1 in
  let st3 := siteMouseUp (dragAll true) st2 in
  (forall index side, index < 3 ->
     endState (panelStates st1) index side = MC4_INSTALLED /\
     endState (panelStates st2) index side = TERMINATED /\
     endState (panelStates st3) index side = NONE) /\
  counters siteData (panelStates st2) = (mkCounter 6 6 0, mkCounter 6 6 0) /\
  (historyIndex st3, length (history st3)) = (3, 4).
Proof.
  split; [|by vm_compute].
  intros [|[|[|index]]] [] Hi; try lia; by vm_compute.
Qed.

(** The earlier revision of the counting loop does not count a terminated
    end as MC4 done: on the fully terminated site it reports 0 where the
    current counters report 6. *)
Example earlier_counts_differ :
  map_fold (fun _ state acc => countEntryEarlier state acc) (0%Z, 0%Z)
           (panelStates siteTerminated) = (0%Z, 6%Z) /\
  map_fold (fun _ state acc => countEntry state acc) (0%Z, 0%Z)
           (panelStates siteTerminated) = (6%Z, 6%Z).
Proof. by vm_compute. Qed.

(** ** The coordinate transform *)

Lemma minmax_finite (l : list JsNum) :
  l <> [] -> forallb isFinite l = true ->
  exists m M : Q,
    jsMinList l = Fin m /\ jsMaxList l = Fin M /\ (m <= M)%Q.
Proof.
  induction l as [|a l IH]; [done|]. intros _ Hfin.
  apply andb_true_iff in Hfin as [Ha Hl].
  destruct a as [a| | |]; try done.
  destruct l as [|a' l].
  - exists a, a. repeat split; apply Qle_refl.
  - destruct IH as (m & M & Hm & HM & Hle); [done|done|].
    unfold jsMinList, jsMaxList in *. cbn [foldr] in *. rewrite Hm, HM.
    cbn [jsMin jsMax jsLe].
    destruct (Qle_bool a m) eqn:E1, (Qle_bool a M) eqn:E2;
      eexists; eexists; (split; [reflexivity|]); (split; [reflexivity|]).
    + apply Qle_bool_iff in E2. done.
    + apply Qle_refl.
    + done.
    + apply Qlt_le_weak, Qlt_bool_iff. unfold Qlt_bool. by rewrite E1.
Qed.

Lemma forallb_map_fst (l : list Coord) :
  allFinite l = true ->
  forallb isFinite (map fst l) = true /\ forallb isFinite (map snd l) = true.
Proof.
  induction l as [|c l IH]; [done|]. simpl. intros H.
  apply andb_true_iff in H as [Hc Hl]. apply andb_true_iff in Hc as [-> ->].
  destruct (IH Hl) as [-> ->]. done.
Qed.

Lemma toSvgCoords_finite (x0 x1 y0 y1 w h lng lat : Q) :
  (x0 < x1)%Q -> (y0 < y1)%Q ->
  toSvgCoords (Some (mkBounds (Fin x0) (Fin x1) (Fin y0) (Fin y1)))
              (mkCanvas (Fin w) (Fin h)) (Fin lng) (Fin lat)
  = mkPoint (Fin ((lng + - x0) / (x1 + - x0) * w))
            (Fin ((y1 + - lat) / (y1 + - y0) * h)).
Proof.
  intros Hx Hy. unfold toSvgCoords. cbn [minLng maxLng minLat maxLat].
  cbn [width height jsSub jsNeg jsAdd].
  rewrite !jsDiv_Fin by lra. reflexivity.
Qed.


(** ** The transform in doubles *)

Lemma not_finite_spec r :
  Prim2SF r = S754_nan \/ (exists s, Prim2SF r = S754_infinity s) ->
  PrimFloat.is_finite r = false.
Proof.
  intros H. unfold PrimFloat.is_finite, PrimFloat.is_nan, PrimFloat.is_infinity.
  rewrite !FloatAxioms.eqb_spec, abs_spec.
  change (Prim2SF infinity) with (S754_infinity false).
  destruct H as [-> | [s ->]]; [done | by destruct s].
Qed.

Lemma eqb_numbers a b :
  (a =? b)%float = true ->
  PrimFloat.is_nan a = false /\ PrimFloat.is_nan b = false.
Proof.
  rewrite FloatAxioms.eqb_spec. intros H.
  split; apply is_nan_spec; intros E; rewrite E in H; [done|].
  by destruct (Prim2SF a).
Qed.

(** The difference of two equal numbers is a zero or [NaN]. *)
Lemma sub_equal a b :
  (a =? b)%float = true ->
  (exists s, Prim2SF (a - b)%float = S754_zero s) \/
  Prim2SF (a - b)%float = S754_nan.
Proof.
  intros H. destruct (eqb_numbers a b H) as [Ha Hb].
  pose proof (sub_signum a b Ha Hb) as Hs.
  rewrite eqb_value, Z.eqb_compare in H by done.
  destruct (value a ?= value b)%Z; try done.
  destruct (Prim2SF (a - b)%float) as [s|[]| |[] m e]; try done; eauto.
Qed.

(** Dividing by a zero or by [NaN] and scaling gives no finite number. *)
Lemma scaled_quotient_not_finite n d w :
  (exists s, Prim2SF d = S754_zero s) \/ Prim2SF d = S754_nan ->
  PrimFloat.is_finite (n / d * w)%float = false.
Proof.
  intros Hd. apply not_finite_spec. rewrite mul_spec, div_spec.
  unfold SF64mul, SF64div.
  destruct Hd as [[s ->] | ->].
  - destruct (Prim2SF n) as [sn|sn| |sn mn en]; cbn [SFdiv];
      destruct (Prim2SF w) as [sw|sw| |sw mw ew]; cbn [SFmul]; eauto.
  - destruct (Prim2SF n) as [sn|sn| |sn mn en]; cbn [SFdiv SFmul]; eauto.
Qed.


(** On the sample site the doubles come back within 1e-9. *)
Example round_trip_sample_double :
  let allCoords := [(0, 0); (4, 0); (4, 1); (0, 1)]%float in
  let b := Double.computeBounds allCoords in
  let g := Double.fromSvgCoords b Double.loadedCanvas 10 850 in
  let p := Double.toSvgCoords b Double.loadedCanvas
                              (Double.lng g) (Double.lat g) in
  (PrimFloat.abs (Double.px p - 10) <? Double.eps9)%float = true /\
  (PrimFloat.abs (Double.py p - 850) <? Double.eps9)%float = true.
Proof. vm_compute. auto. Qed.

Lemma zero_eqb r s : Prim2SF r = S754_zero s -> (r =? 0)%float = true.
Proof.
  intros H. rewrite FloatAxioms.eqb_spec, H.
  change (Prim2SF 0) with (S754_zero false). done.
Qed.

Lemma sub_zero_r x z s :
  Prim2SF z = S754_zero s -> PrimFloat.is_nan x = false ->
  PrimFloat.is_nan (x - z)%float = false /\ value (x - z)%float = value x.
Proof.
  intros Hz Hx. apply is_nan_spec in Hx.
  assert (Prim2SF (x - z)%float = Prim2SF x \/
          (exists s1 s2, Prim2SF (x - z)%float = S754_zero s1 /\
                         Prim2SF x = S754_zero s2)) as H.
  { rewrite sub_spec, Hz. unfold SF64sub.
    destruct (Prim2SF x) as [s'|s'| |s' m e]; cbn [SFsub]; try done; eauto.
    right. destruct s, s'; eauto. }
  split.
  - apply is_nan_spec. destruct H as [-> | (s1 & s2 & -> & _)]; done.
  - unfold value. destruct H as [-> | (s1 & s2 & -> & ->)]; done.
Qed.

(** In doubles the two directions agree exactly at the north-west corner
    of the box: it is drawn at the canvas origin, and the canvas origin is
    mapped back to it, for a box of finite bounds and non-zero finite
    extents and a canvas of non-zero finite size. *)
Lemma corner_round_trip_double (b : Double.Bounds)
    (canvasSize : Double.CanvasSize) :
  PrimFloat.is_finite (Double.minLng b) = true ->
  PrimFloat.is_finite (Double.maxLat b) = true ->
  PrimFloat.is_finite (Double.maxLng b - Double.minLng b)%float = true ->
  PrimFloat.is_finite (Double.maxLat b - Double.minLat b)%float = true ->
  (Double.maxLng b - Double.minLng b =? 0)%float = false ->
  (Double.maxLat b - Double.minLat b =? 0)%float = false ->
  PrimFloat.is_finite (Double.width canvasSize) = true ->
  PrimFloat.is_finite (Double.height canvasSize) = true ->
  (Double.width canvasSize =? 0)%float = false ->
  (Double.height canvasSize =? 0)%float = false ->
  let p := Double.toSvgCoords (Some b) canvasSize
                              (Double.minLng b) (Double.maxLat b) in
  let g := Double.fromSvgCoords (Some b) canvasSize 0 0 in
  (Double.px p =? 0)%float = true /\ (Double.py p =? 0)%float = true /\
  (Double.lng g =? Double.minLng b)%float = true /\
  (Double.lat g =? Double.maxLat b)%float = true.
Proof.
  intros Fx Fy FW FH NW NH Fw Fh Nw Nh p g. subst p g.
  cbn [Double.toSvgCoords Double.fromSvgCoords Double.px Double.py
       Double.lng Double.lat].
  pose proof (is_finite_number _ FW) as NaW.
  pose proof (is_finite_number _ FH) as NaH.
  pose proof (is_finite_number _ Fw) as Naw.
  pose proof (is_finite_number _ Fh) as Nah.
  pose proof (is_finite_number _ Fx) as Nax.
  pose proof (is_finite_number _ Fy) as Nay.
  split; [|split; [|split]].
  - destruct (div_zero_l _ _ _ (sub_self _ Fx) NW NaW) as [s1 H1].
    destruct (mul_zero_l _ _ _ H1 Fw) as [s2 H2]. by eapply zero_eqb.
  - destruct (div_zero_l _ _ _ (sub_self _ Fy) NH NaH) as [s1 H1].
    destruct (mul_zero_l _ _ _ H1 Fh) as [s2 H2]. by eapply zero_eqb.
  - assert (Prim2SF 0 = S754_zero false) as H0 by reflexivity.
    destruct (div_zero_l _ _ _ H0 Nw Naw) as [s1 H1].
    destruct (mul_zero_l _ _ _ H1 FW) as [s2 H2].
    destruct (add_zero_l _ (Double.minLng b) _ H2 Nax) as [Hn Hv].
    rewrite eqb_value, Hv by done. apply Z.eqb_refl.
  - assert (Prim2SF 0 = S754_zero false) as H0 by reflexivity.
    destruct (div_zero_l _ _ _ H0 Nh Nah) as [s1 H1].
    destruct (mul_zero_l _ _ _ H1 FH) as [s2 H2].
    destruct (sub_zero_r (Double.maxLat b) _ _ H2 Nay) as [Hn Hv].
    rewrite eqb_value, Hv by done. apply Z.eqb_refl.
Qed.



(** C7 (as stated): the transform has no guard.  With a zero-width
    bounding box the canvas x is [+Infinity] for a longitude east of the
    box, not a finite value. *)
Lemma degenerate_bounds_not_tolerated :
  ~ (forall (b : Bounds) (canvasSize : CanvasSize) (lng lat : Q),
       jsEq (maxLng b) (minLng b) \/ jsEq (maxLat b) (minLat b) ->
       isFinite (px (toSvgCoords (Some b) canvasSize (Fin lng) (Fin lat)))
       && isFinite (py (toSvgCoords (Some b) canvasSize (Fin lng) (Fin lat)))
       = true).
Proof.
  intros H.
  specialize (H (mkBounds (Fin 0) (Fin 0) (Fin 0) (Fin 1)) loadedCanvas
                1%Q 0%Q).
  vm_compute in H. discriminate H. left. reflexivity.
Qed.

Example degenerate_bounds_values :
  let b := mkBounds (Fin 0) (Fin 0) (Fin 0) (Fin 1) in
  px (toSvgCoords (Some b) loadedCanvas (Fin 1) (Fin 0)) = PosInf /\
  px (toSvgCoords (Some b) loadedCanvas (Fin 0) (Fin 0)) = NaN /\
  px (toSvgCoords (Some b) loadedCanvas (Fin (-1)) (Fin 0)) = NegInf.
Proof. vm_compute. auto. Qed.

(** C7 (amended): the transform has no guard.  For a box with
    [maxLng == minLng] the canvas x is [NaN] or an infinity for every
    longitude and every canvas width, and likewise y for a box with
    [maxLat == minLat]; while no bounds are stored the transform returns
    (0, 0).  The padding of the loader does not exclude such a box: for the
    positions [[1e16, 0], [1e16, 1]] it is lost in the rounding, the stored
    longitudes are equal and the canvas x of the positions is [NaN]. *)
Theorem transform_on_degenerate_bounds (b : Double.Bounds)
    (canvasSize : Double.CanvasSize) (lng lat : float) :
  ((Double.maxLng b =? Double.minLng b)%float = true ->
   PrimFloat.is_finite
     (Double.px (Double.toSvgCoords (Some b) canvasSize lng lat)) = false) /\
  ((Double.maxLat b =? Double.minLat b)%float = true ->
   PrimFloat.is_finite
     (Double.py (Double.toSvgCoords (Some b) canvasSize lng lat)) = false) /\
  Double.toSvgCoords None canvasSize lng lat = Double.mkPoint 0 0 /\
  (exists b0,
     Double.computeBounds [(1e16, 0); (1e16, 1)]%float = Some b0 /\
     (Double.maxLng b0 =? Double.minLng b0)%float = true /\
     PrimFloat.is_nan
       (Double.px (Double.toSvgCoords (Some b0) Double.loadedCanvas 1e16 0))
     = true).
Proof.
  split; [|split; [|split]].
  - intros H. cbn [Double.toSvgCoords Double.px].
    by apply scaled_quotient_not_finite, sub_equal.
  - intros H. cbn [Double.toSvgCoords Double.py].
    by apply scaled_quotient_not_finite, sub_equal.
  - reflexivity.
  - eexists. split; [reflexivity|]. split; vm_compute; reflexivity.
Qed.

(** ** Malformed geometry *)

Lemma uniqueCoords_short coords :
  length coords < 2 -> allFinite coords = true -> uniqueCoords coords = [].
Proof.
  intros Hlen Hfin. destruct coords as [|[a b] [|c coords]];
    [done| |simpl in Hlen; lia].
  simpl in Hfin. destruct a as [a| | |], b as [b| | |]; try done.
  unfold uniqueCoords. cbn [head last fst snd jsSub jsNeg jsAdd jsAbs jsLt eps9].
  assert (forall q : Q, Qlt_bool (Qabs (q + - q)) (1 # 1000000000) = true)
    as Hsmall.
  { intros q. apply Qlt_bool_iff. apply Qabs_case; intros; lra. }
  by rewrite !Hsmall.
Qed.

Section Malformed.

Variable features : list Feature.
Variable bounds : option Bounds.
Variable canvasSize : CanvasSize.
Variable index : nat.
Variable feature : Feature.

Hypothesis Hfeature : features !! index = Some feature.
Hypothesis Hshort : length (coordinates feature) < 2.
Hypothesis Hfinite : allFinite (coordinates feature) = true.

Lemma malformed_not_drawn state :
  Panel bounds canvasSize feature index state = None.
Proof.
  unfold Panel. destruct (length (coordinates feature) <? 2) eqn:E; [done|].
  apply Nat.ltb_ge in E. lia.
Qed.

Lemma malformed_not_rendered : ~ rendered (Some features) index.
Proof.
  intros (features' & feature' & [= <-] & Hf & Hlen).
  rewrite Hfeature in Hf. inversion Hf; subst. lia.
Qed.

Lemma malformed_not_selected selStart selEnd :
  isPanelInSelection (Some features) bounds canvasSize index selStart selEnd
  = false.
Proof.
  unfold isPanelInSelection, getPanelEnds. simpl. rewrite Hfeature. simpl.
  destruct selStart as [s|], selEnd as [e|]; try done.
  unfold svgPtsOf. by rewrite uniqueCoords_short.
Qed.

Lemma malformed_select_lookup selStart selEnd unselect st :
  panelStates (applySelection (Some features) bounds canvasSize
                              selStart selEnd unselect st) !! index
  = panelStates st !! index.
Proof.
  destruct selStart as [s|]; [|done]. destruct selEnd as [e|]; [|done].
  destruct (belowThreshold s e) eqn:Hth.
  - unfold applySelection. by rewrite Hth.
  - rewrite (select_lookup _ _ _ features) by done.
    by rewrite malformed_not_selected.
Qed.

Lemma pushHistory_untouched (h : list PanelStates) idx (s : PanelStates) :
  Forall (fun s : PanelStates => s !! index = None) h ->
  s !! index = None ->
  Forall (fun s : PanelStates => s !! index = None)
         (fst (pushHistory h idx s)).
Proof.
  intros Hh Hs. unfold pushHistory. cbn [fst]. apply Forall_app.
  split; [by apply Forall_take | by apply Forall_singleton].
Qed.

Lemma clickUpdate_untouched panelIndex side v st :
  panelIndex <> index -> untouched index st ->
  untouched index (clickUpdate panelIndex side v st).
Proof.
  intros Hne [Hcur Hhist]. unfold clickUpdate.
  set (newStates := <[panelIndex := _]> (panelStates st)).
  assert (newStates !! index = None) as Hnew
    by (subst newStates; by rewrite lookup_insert_ne).
  pose proof (pushHistory_untouched (history st) (historyIndex st)
                newStates Hhist Hnew) as Hp.
  destruct (pushHistory _ _ _) as [newHistory idx]. by split.
Qed.

Lemma select_untouched selStart selEnd unselect st :
  untouched index st ->
  untouched index (applySelection (Some features) bounds canvasSize
                                  selStart selEnd unselect st).
Proof.
  intros Hu. pose proof Hu as [Hcur Hhist].
  pose proof (malformed_select_lookup selStart selEnd unselect st) as Hl.
  rewrite Hcur in Hl. split; [exact Hl|]. revert Hl.
  unfold applySelection.
  destruct selStart as [s|]; [|done]. destruct selEnd as [e|]; [|done].
  destruct (belowThreshold s e); [done|].
  destruct (existsb _ _); [|done].
  set (newStates := foldl _ _ _).
  pose proof (pushHistory_untouched (history st) (historyIndex st)
                newStates Hhist) as Hp.
  destruct (pushHistory _ _ _) as [newHistory idx]. cbn [panelStates history].
  exact Hp.
Qed.

Lemma step_untouched st st' :
  step (Some features) bounds canvasSize st st' ->
  untouched index st -> untouched index st'.
Proof.
  intros Hstep Hu.
  destruct Hstep as [g st Hg | isAddingNote detail panelIndex side st Hrend
                    | st st' Hun | st st' Hre].
  - unfold handleMouseUp.
    destruct (isSelecting g); [|done].
    destruct (selectionStart g) as [s|]; [|done].
    destruct (selectionEnd g) as [e|]; [|done].
    destruct (belowThreshold s e).
    + destruct (clickedPanelIndex g) as [panelIndex|] eqn:Hc.
      * destruct (getPanelEnds _ _ _ panelIndex); [|done].
        apply clickUpdate_untouched; [|done].
        intros ->. by apply malformed_not_rendered, Hg.
      * by apply select_untouched.
    + by apply select_untouched.
  - unfold handlePanelClick. destruct isAddingNote; [done|].
    destruct side as [side|]; [|done].
    apply clickUpdate_untouched; [|done].
    intros ->. by apply malformed_not_rendered.
  - destruct Hu as [Hcur Hhist]. unfold undo in Hun.
    destruct (0 <? historyIndex st); [|by inversion Hun; subst].
    destruct (history st !! (historyIndex st - 1)) as [s|] eqn:Hs; [|done].
    inversion Hun; subst. split; [|done]. cbn [panelStates].
    rewrite Forall_lookup in Hhist. by eapply Hhist.
  - destruct Hu as [Hcur Hhist]. unfold redo in Hre.
    destruct (historyIndex st <? length (history st) - 1);
      [|by inversion Hre; subst].
    destruct (history st !! (historyIndex st + 1)) as [s|] eqn:Hs; [|done].
    inversion Hre; subst. split; [|done]. cbn [panelStates].
    rewrite Forall_lookup in Hhist. by eapply Hhist.
Qed.

Lemma reachable_untouched st :
  reachable (Some features) bounds canvasSize st -> untouched index st.
Proof.
  induction 1 as [|st st' _ IH Hstep].
  - split; [done|]. by apply Forall_singleton.
  - by eapply step_untouched.
Qed.

End Malformed.

(** C8 (as stated): a feature with fewer than two vertices still adds its
    two ends to the totals.  With the empty polygon as the only feature
    both totals are 2. *)
Lemma malformed_feature_counts_in_total :
  ~ (forall features feature ps,
       length (coordinates feature) < 2 ->
       total (mc4 (Some (features ++ [feature])) ps)
       = total (mc4 (Some features) ps) /\
       total (termination (Some (features ++ [feature])) ps)
       = total (termination (Some features) ps)).
Proof.
  intros H. destruct (H [] (mkFeature [] None) ∅) as [H1 _]; [simpl; lia|].
  vm_compute in H1. discriminate H1.
Qed.

Lemma uniqueCoords_ring (p : Coord) :
  allFinite [p; p] = true -> uniqueCoords [p; p] = [p].
Proof.
  intros Hfin. destruct p as [a b]. simpl in Hfin.
  destruct a as [a| | |], b as [b| | |]; try done.
  unfold uniqueCoords. cbn [head last fst snd jsSub jsNeg jsAdd jsAbs jsLt eps9].
  assert (forall q : Q, Qlt_bool (Qabs (q + - q)) (1 # 1000000000) = true)
    as Hsmall.
  { intros q. apply Qlt_bool_iff. apply Qabs_case; intros; lra. }
  by rewrite !Hsmall.
Qed.

(** A ring that is one point twice is drawn, and a rectangle that contains
    its point selects it. *)
Lemma ring_drawn_and_selected features bounds canvasSize index feature p :
  features !! index = Some feature ->
  coordinates feature = [p; p] ->
  allFinite [p; p] = true ->
  let point := toSvgCoords bounds canvasSize (fst p) (snd p) in
  (forall state, exists view,
     Panel bounds canvasSize feature index state = Some view /\
     view_points view = [point]) /\
  rendered (Some features) index /\
  (forall s e,
     isPointInBox point (jsMin (px s) (px e)) (jsMax (px s) (px e))
                        (jsMin (py s) (py e)) (jsMax (py s) (py e)) = true ->
     isPanelInSelection (Some features) bounds canvasSize index
                        (Some s) (Some e) = true).
Proof.
  intros Hf Hc Hfin point. split; [|split].
  - intros state. unfold Panel. rewrite Hc. cbn [length Nat.ltb Nat.leb].
    eexists. split; [reflexivity|]. cbn [view_points]. unfold svgPtsOf.
    by rewrite uniqueCoords_ring.
  - exists features, feature. rewrite Hc. repeat split; [done|]. simpl. lia.
  - intros s e Hbox. unfold isPanelInSelection, getPanelEnds. simpl.
    rewrite Hf. simpl. unfold svgPtsOf. rewrite Hc, uniqueCoords_ring by done.
    cbn [map length Nat.eqb existsb]. fold point. by rewrite Hbox.
Qed.

(** C8 (amended): a panel feature whose coordinates array has fewer than
    two positions (finite numbers, the closing position counted) is not
    drawn, no drag rectangle selects it, and in every reachable state the
    mapping has no entry for it, so both of its ends read [NONE] and are not
    among the ends the completed counters count; the totals are twice the
    number of features, this one included.  A ring of two positions that
    are the same point, one vertex once the closing position is dropped, is
    not skipped: it is drawn as a polygon of one point and every rectangle
    that contains the point selects it. *)
Theorem malformed_feature_skipped features bounds canvasSize index feature :
  features !! index = Some feature ->
  allFinite (coordinates feature) = true ->
  (length (coordinates feature) < 2 ->
   (forall state, Panel bounds canvasSize feature index state = None) /\
   (forall selStart selEnd,
      isPanelInSelection (Some features) bounds canvasSize index
                         selStart selEnd = false) /\
   (forall st,
      reachable (Some features) bounds canvasSize st ->
      panelStates st !! index = None /\
      (forall side, endState (panelStates st) index side = NONE))) /\
  (forall ps : PanelStates,
     total (mc4 (Some features) ps) = (2 * Z.of_nat (length features))%Z /\
     total (termination (Some features) ps)
     = (2 * Z.of_nat (length features))%Z) /\
  (forall p,
     coordinates feature = [p; p] ->
     let point := toSvgCoords bounds canvasSize (fst p) (snd p) in
     (forall state, exists view,
        Panel bounds canvasSize feature index state = Some view /\
        view_points view = [point]) /\
     rendered (Some features) index /\
     (forall s e,
        isPointInBox point (jsMin (px s) (px e)) (jsMax (px s) (px e))
                           (jsMin (py s) (py e)) (jsMax (py s) (py e)) = true ->
        isPanelInSelection (Some features) bounds canvasSize index
                           (Some s) (Some e) = true)).
Proof.
  intros Hf Hfin. split; [|split].
  - intros Hshort. split; [|split].
    + intros state. by apply malformed_not_drawn.
    + intros selStart selEnd. by eapply malformed_not_selected.
    + intros st Hr.
      destruct (reachable_untouched features bounds canvasSize index feature
                  Hf Hshort Hfin st Hr) as [Hcur _].
      split; [exact Hcur|]. intros side. unfold endState. by rewrite Hcur.
  - intros ps. destruct (counters_total (Some features) ps) as [Ht1 Ht2].
    by split.
  - intros p Hc. apply (ring_drawn_and_selected features); [done|done|].
    by rewrite <- Hc.
Qed.

Lemma malformed_feature_skipped_witness :
  siteWithPoint !! 3 = Some (mkFeature [pos 1 1] None) /\
  allFinite (coordinates (mkFeature [pos 1 1] None)) = true /\
  length (coordinates (mkFeature [pos 1 1] None)) < 2 /\
  (forall state,
     Panel siteBounds loadedCanvas (mkFeature [pos 1 1] None) 3 state = None) /\
  (forall selStart selEnd,
     isPanelInSelection (Some siteWithPoint) siteBounds loadedCanvas 3
                        selStart selEnd = false) /\
  (forall st,
     reachable (Some siteWithPoint) siteBounds loadedCanvas st ->
     panelStates st !! 3 = None /\
     (forall side, endState (panelStates st) 3 side = NONE)) /\
  (forall ps : PanelStates,
     total (mc4 (Some siteWithPoint) ps)
     = (2 * Z.of_nat (length siteWithPoint))%Z /\
     total (termination (Some siteWithPoint) ps)
     = (2 * Z.of_nat (length siteWithPoint))%Z).
Proof.
  assert (length (coordinates (mkFeature [pos 1 1] None)) < 2) as Hshort
    by (simpl; lia).
  split; [reflexivity|]. split; [reflexivity|]. split; [exact Hshort|].
  destruct (malformed_feature_skipped siteWithPoint siteBounds loadedCanvas 3
              (mkFeature [pos 1 1] None) eq_refl eq_refl)
    as (Hskip & Htotal & _).
  destruct (Hskip Hshort) as (H1 & H2 & H3). done.
Defined.

(** On the site with the ring [[1, 1], [1, 1]] as fourth feature, a drag
    over the whole canvas installs both ends of the ring, and the counters
    count them: eight ends in all and eight installed. *)
Example ring_of_one_point_counted :
  let st := handleMouseUp (Some siteWithRing) siteBounds loadedCanvas
                          (dragAll false) initialEditor in
  Panel siteBounds loadedCanvas (mkFeature [pos 1 1; pos 1 1] None) 3 None
  <> None /\
  panelStates st !! 3
  = Some {| left := Some MC4_INSTALLED; right := Some MC4_INSTALLED |} /\
  mc4 (Some siteWithRing) (panelStates st)
  = {| total := 8; completed := 8; remaining := 0 |}.
Proof. vm_compute. repeat split; done. Qed.

(** ** Sorting *)

Lemma filter_none {A : Type} (P : A -> Prop) `{!forall x, Decision (P x)}
    (l : list A) :
  Forall (fun x => ~ P x) l -> filter P l = [].
Proof.
  induction 1 as [|x l Hx _ IH]; [done|].
  by rewrite filter_cons_False.
Qed.

Section Sorting.

Context {A : Type}.

(** The comparator orders the elements satisfying [good] by a rational
    key: [compare a b > 0] exactly when the key of [b] is the smaller. *)
Variable key : A -> Q.
Variable compare : A -> A -> JsNum.
Variable good : A -> Prop.
Hypothesis compare_key : forall a b, good a -> good b ->
  jsLt (Fin 0) (compare a b) = Qlt_bool (key b) (key a).

Local Abbreviation keyLe := (fun a b : A => (key a <= key b)%Q).

Lemma sortInsert_perm x l : sortInsert compare x l ≡ₚ x :: l.
Proof.
  induction l as [|y ys IH]; [reflexivity|]. cbn [sortInsert].
  destruct (jsLt (Fin 0) (compare x y)); [|reflexivity].
  rewrite IH. apply Permutation_swap.
Qed.

Lemma jsSort_perm l : jsSort compare l ≡ₚ l.
Proof.
  induction l as [|x l IH]; [reflexivity|]. unfold jsSort in *. cbn [foldr].
  rewrite sortInsert_perm. by rewrite IH.
Qed.

Lemma sortInsert_sorted x l :
  good x -> Forall good l ->
  StronglySorted keyLe l -> StronglySorted keyLe (sortInsert compare x l).
Proof.
  intros Hx. induction l as [|y ys IH]; intros Hl Hs.
  - simpl. repeat constructor.
  - apply Forall_cons in Hl as [Hy Hys].
    apply StronglySorted_inv in Hs as [Hs Hall]. cbn [sortInsert].
    rewrite compare_key by done.
    destruct (Qlt_bool (key y) (key x)) eqn:E.
    + apply Qlt_bool_iff in E. constructor; [by apply IH|].
      rewrite sortInsert_perm. constructor; [|done].
      cbv beta. lra.
    + assert (key x <= key y)%Q as Hle.
      { destruct (Qlt_le_dec (key y) (key x)) as [Hlt|Hle]; [|done].
        apply Qlt_bool_iff in Hlt. congruence. }
      constructor; [by constructor|]. constructor; [done|].
      eapply Forall_impl; [exact Hall|]. cbv beta. intros z Hz. lra.
Qed.

Lemma jsSort_sorted l :
  Forall good l -> StronglySorted keyLe (jsSort compare l).
Proof.
  induction l as [|x l IH]; intros Hl; [constructor|].
  apply Forall_cons in Hl as [Hx Hl]. unfold jsSort in *. cbn [foldr].
  apply sortInsert_sorted; [done| |by apply IH].
  by rewrite (jsSort_perm l).
Qed.

End Sorting.

Lemma leb_value a b :
  PrimFloat.is_nan a = false -> PrimFloat.is_nan b = false ->
  (a <=? b)%float = (value a <=? value b)%Z.
Proof.
  intros Ha Hb. rewrite leb_spec. unfold SFleb, value, Z.leb.
  rewrite SFcompare_value;
    [by destruct (_ ?= _)%Z | apply Prim2SF_valid..
    | by apply is_nan_spec | by apply is_nan_spec].
Qed.

Section DoubleSorting.

Context {A : Type}.

(** The comparator orders the elements satisfying [good] by an integer
    key: [compare a b > 0] exactly when the key of [b] is the smaller. *)
Variable key : A -> Z.
Variable compare : A -> A -> float.
Variable good : A -> Prop.
Hypothesis compare_key : forall a b, good a -> good b ->
  (0 <? compare a b)%float = (key b <? key a)%Z.

Local Abbreviation keyLe := (fun a b : A => (key a <= key b)%Z).

Lemma double_sortInsert_perm x l : Double.sortInsert compare x l ≡ₚ x :: l.
Proof.
  induction l as [|y ys IH]; [reflexivity|]. cbn [Double.sortInsert].
  destruct (0 <? compare x y)%float; [|reflexivity].
  rewrite IH. apply Permutation_swap.
Qed.

Lemma double_jsSort_perm l : Double.jsSort compare l ≡ₚ l.
Proof.
  induction l as [|x l IH]; [reflexivity|].
  unfold Double.jsSort in *. cbn [foldr].
  rewrite double_sortInsert_perm. by rewrite IH.
Qed.

Lemma double_sortInsert_sorted x l :
  good x -> Forall good l ->
  StronglySorted keyLe l -> StronglySorted keyLe (Double.sortInsert compare x l).
Proof.
  intros Hx. induction l as [|y ys IH]; intros Hl Hs.
  - simpl. repeat constructor.
  - apply Forall_cons in Hl as [Hy Hys].
    apply StronglySorted_inv in Hs as [Hs Hall]. cbn [Double.sortInsert].
    rewrite compare_key by done.
    destruct (key y <? key x)%Z eqn:E.
    + apply Z.ltb_lt in E. constructor; [by apply IH|].
      rewrite double_sortInsert_perm. constructor; [|done].
      cbv beta. lia.
    + apply Z.ltb_ge in E.
      constructor; [by constructor|]. constructor; [done|].
      eapply Forall_impl; [exact Hall|]. cbv beta. intros z Hz. lia.
Qed.

Lemma double_jsSort_sorted l :
  Forall good l -> StronglySorted keyLe (Double.jsSort compare l).
Proof.
  induction l as [|x l IH]; intros Hl; [constructor|].
  apply Forall_cons in Hl as [Hx Hl]. unfold Double.jsSort in *. cbn [foldr].
  apply double_sortInsert_sorted; [done| |by apply IH].
  by rewrite (double_jsSort_perm l).
Qed.

(** In a sorted list the elements with a key up to [c] form a prefix. *)
Lemma double_sorted_prefix (c : Z) l :
  StronglySorted keyLe l ->
  filter (fun x => (key x <= c)%Z) l
  = take (length (filter (fun x => (key x <= c)%Z) l)) l.
Proof.
  induction l as [|x l IH]; intros Hs; [done|].
  apply StronglySorted_inv in Hs as [Hs Hall].
  destruct (decide (key x <= c)%Z) as [E|E].
  - rewrite filter_cons_True by done. simpl. f_equal. by apply IH.
  - rewrite filter_cons_False by done.
    assert (filter (fun x => (key x <= c)%Z) l = []) as ->; [|done].
    apply filter_none. eapply Forall_impl; [exact Hall|].
    cbv beta. intros z Hz Hc. lia.
Qed.

(** When the second element of a sorted list is strictly below all the
    later ones, the first two elements of any sorted permutation of the
    list are the same two. *)
Lemma double_sorted_take_two a b rest l :
  StronglySorted keyLe (a :: b :: rest) ->
  Forall (fun r => (key b < key r)%Z) rest ->
  StronglySorted keyLe l ->
  l ≡ₚ a :: b :: rest ->
  take 2 l ≡ₚ [a; b].
Proof.
  intros Hs Hgap Hl Hperm.
  set (P := fun x : A => (key x <= key b)%Z).
  assert (filter P (a :: b :: rest) = [a; b]) as Hf1.
  { apply StronglySorted_inv in Hs as [_ Ha].
    apply Forall_cons in Ha as [Hab _].
    rewrite filter_cons_True by exact Hab.
    rewrite filter_cons_True by (unfold P; lia).
    f_equal. f_equal. apply filter_none.
    eapply Forall_impl; [exact Hgap|]. unfold P. cbv beta. intros z Hz Hc.
    lia. }
  assert (filter P l ≡ₚ [a; b]) as Hf2 by (by rewrite Hperm, Hf1).
  rewrite <- Hf2. unfold P. rewrite (double_sorted_prefix (key b) l Hl).
  apply Permutation_length in Hf2. unfold P in Hf2. by rewrite Hf2.
Qed.

End DoubleSorting.

(** ** The edge loop *)

Section Loop.

Context {P E : Type}.
Variable f : P -> P -> E.

Lemma zip_with_chainWith a t z :
  zip_with f (a :: t) (t ++ [z]) = chainWith f a t z.
Proof.
  revert a. induction t as [|b t IH]; intros a; [done|].
  cbn [app chainWith]. rewrite <- IH. reflexivity.
Qed.

Lemma loop_cons x l :
  zip_with f (x :: l) (rotate 1 (x :: l)) = chainWith f x l x.
Proof.
  unfold rotate. destruct l as [|y t]; [done|].
  replace (1 mod length (x :: y :: t)) with 1
    by (symmetry; apply Nat.mod_small; simpl; lia).
  cbn [drop take]. apply (zip_with_chainWith x (y :: t) x).
Qed.

Lemma chainWith_snoc a t b z :
  chainWith f a (t ++ [b]) z = chainWith f a t b ++ [f b z].
Proof.
  revert a. induction t as [|c t IH]; intros a; simpl; [done|].
  by rewrite IH.
Qed.

Lemma length_chainWith a t z : length (chainWith f a t z) = S (length t).
Proof.
  revert a. induction t as [|c t IH]; intros a; simpl; [done|].
  by rewrite IH.
Qed.

Lemma loop_length l : length (zip_with f l (rotate 1 l)) = length l.
Proof.
  destruct l as [|x l]; [done|]. by rewrite loop_cons, length_chainWith.
Qed.

Lemma loop_snoc_perm x t :
  zip_with f (t ++ [x]) (rotate 1 (t ++ [x]))
  ≡ₚ zip_with f (x :: t) (rotate 1 (x :: t)).
Proof.
  destruct t as [|y t]; [reflexivity|].
  change ((y :: t) ++ [x]) with (y :: (t ++ [x])).
  rewrite !loop_cons, chainWith_snoc. cbn [chainWith].
  symmetry. apply Permutation_cons_append.
Qed.

Lemma loop_app_perm l1 : forall l2,
  zip_with f (l2 ++ l1) (rotate 1 (l2 ++ l1))
  ≡ₚ zip_with f (l1 ++ l2) (rotate 1 (l1 ++ l2)).
Proof.
  induction l1 as [|x t IH]; intros l2.
  - by rewrite app_nil_r.
  - rewrite (cons_middle x l2 t), app_assoc, IH.
    rewrite app_assoc, loop_snoc_perm. reflexivity.
Qed.

(** Starting the loop at another vertex permutes its edges. *)
Lemma loop_rotate k l :
  zip_with f (rotate k l) (rotate 1 (rotate k l))
  ≡ₚ zip_with f l (rotate 1 l).
Proof. unfold rotate at 1 3. rewrite loop_app_perm. by rewrite take_drop. Qed.

End Loop.

(** ** The panel-end resolver *)

Lemma numericEdge_spec e :
  numericEdge e = true ->
  PrimFloat.is_nan (Double.len e) = false /\
  PrimFloat.is_nan (Double.px (Double.center e)) = false /\
  PrimFloat.is_nan (Double.py (Double.center e)) = false.
Proof.
  unfold numericEdge. intros H.
  apply andb_true_iff in H as [H Hy]. apply andb_true_iff in H as [Hl Hx].
  by rewrite !negb_true_iff in *.
Qed.

Lemma numeric_edges l :
  forallb numericEdge l = true -> Forall (fun e => numericEdge e = true) l.
Proof.
  intros H. apply Forall_forall. intros e He.
  apply list_elem_of_In in He. by apply (proj1 (forallb_forall _ _) H).
Qed.

Lemma numeric_edges_perm l l' :
  l ≡ₚ l' -> forallb numericEdge l = true -> forallb numericEdge l' = true.
Proof.
  intros Hp H. apply forallb_forall. intros e He.
  apply (proj1 (forallb_forall _ _) H).
  apply list_elem_of_In. rewrite Hp. by apply list_elem_of_In.
Qed.

Lemma double_compareLen_key a b :
  numericEdge a = true -> numericEdge b = true ->
  (0 <? Double.compareLen a b)%float = (lenKey b <? lenKey a)%Z.
Proof.
  intros Ha Hb. apply numericEdge_spec in Ha as (Ha & _ & _).
  apply numericEdge_spec in Hb as (Hb & _ & _).
  unfold Double.compareLen. rewrite sub_positive. by apply ltb_value.
Qed.

Lemma double_compareCenter_spec a b :
  numericEdge a = true -> numericEdge b = true ->
  (0 <? Double.compareCenter a b)%float = true <->
  (centerKeyX b < centerKeyX a)%Z \/
  (centerKeyX a = centerKeyX b /\ (centerKeyY b < centerKeyY a)%Z).
Proof.
  intros Ha Hb. apply numericEdge_spec in Ha as (_ & Hax & Hay).
  apply numericEdge_spec in Hb as (_ & Hbx & Hby).
  unfold Double.compareCenter, Double.jsOr, centerKeyX, centerKeyY.
  rewrite sub_truthy, eqb_value by done.
  destruct (Z.eqb_spec (value (Double.px (Double.center a)))
                       (value (Double.px (Double.center b)))) as [E|E];
    cbn [negb]; rewrite sub_positive, ltb_value, Z.ltb_lt by done; lia.
Qed.

Lemma double_two_sorted (e1 e2 : Double.Edge) :
  Double.jsSort Double.compareCenter [e1; e2]
  = if (0 <? Double.compareCenter e1 e2)%float then [e2; e1] else [e1; e2].
Proof. reflexivity. Qed.

Lemma double_sorted_edges hypot pts :
  forallb numericEdge (Double.edgesOf hypot pts) = true ->
  2 <= length pts ->
  exists e1 e2 rest,
    Double.jsSort Double.compareLen (Double.edgesOf hypot pts)
    = e1 :: e2 :: rest /\
    forallb numericEdge (e1 :: e2 :: rest) = true /\
    StronglySorted (fun a b => (lenKey a <= lenKey b)%Z) (e1 :: e2 :: rest).
Proof.
  intros Hnum Hlen.
  pose proof (double_jsSort_perm Double.compareLen (Double.edgesOf hypot pts))
    as Hperm.
  pose proof (double_jsSort_sorted lenKey Double.compareLen
                (fun e => numericEdge e = true) double_compareLen_key
                (Double.edgesOf hypot pts) (numeric_edges _ Hnum)) as Hsorted.
  pose proof (numeric_edges_perm _ _ (symmetry Hperm) Hnum) as Hnum'.
  apply Permutation_length in Hperm.
  unfold Double.edgesOf in Hperm at 2. rewrite loop_length in Hperm.
  destruct (Double.jsSort Double.compareLen (Double.edgesOf hypot pts))
    as [|e1 [|e2 rest]]; [simpl in Hperm; lia | simpl in Hperm; lia |].
  by exists e1, e2, rest.
Qed.

Lemma double_leftOf_sorted e1 e2 :
  numericEdge e1 = true -> numericEdge e2 = true ->
  exists eL eR,
    Double.jsSort Double.compareCenter [e1; e2] = [eL; eR] /\
    ([eL; eR] = [e1; e2] \/ [eL; eR] = [e2; e1]) /\
    leftOf (Double.center eL) (Double.center eR).
Proof.
  intros H1 H2. rewrite double_two_sorted.
  pose proof (double_compareCenter_spec e1 e2 H1 H2) as Hspec.
  apply numericEdge_spec in H1 as (_ & H1x & H1y).
  apply numericEdge_spec in H2 as (_ & H2x & H2y).
  unfold centerKeyX, centerKeyY in Hspec.
  destruct (0 <? Double.compareCenter e1 e2)%float eqn:E.
  - exists e2, e1. split; [done|]. split; [by right|].
    unfold leftOf. rewrite ltb_value, eqb_value, leb_value by done.
    rewrite Z.ltb_lt, Z.eqb_eq, Z.leb_le.
    destruct (proj1 Hspec eq_refl) as [Hx|[Hx Hy]]; lia.
  - exists e1, e2. split; [done|]. split; [by left|].
    unfold leftOf. rewrite ltb_value, eqb_value, leb_value by done.
    rewrite Z.ltb_lt, Z.eqb_eq, Z.leb_le.
    assert (~ ((value (Double.px (Double.center e2))
                < value (Double.px (Double.center e1)))%Z \/
               (value (Double.px (Double.center e1))
                = value (Double.px (Double.center e2)) /\
                (value (Double.py (Double.center e2))
                 < value (Double.py (Double.center e1)))%Z))) as Hn.
    { intros H. apply Hspec in H. congruence. }
    lia.
Qed.

Lemma samePoint_refl e :
  numericEdge e = true -> samePoint (Double.center e) (Double.center e).
Proof.
  intros H. apply numericEdge_spec in H as (_ & Hx & Hy).
  unfold samePoint. rewrite !eqb_value, !Z.eqb_eq by done. done.
Qed.

(** Sorting the same two edges in either order gives the same centres. *)
Lemma double_two_sorted_swap e1 e2 :
  numericEdge e1 = true -> numericEdge e2 = true ->
  exists a b a' b',
    Double.jsSort Double.compareCenter [e2; e1] = [a; b] /\
    Double.jsSort Double.compareCenter [e1; e2] = [a'; b'] /\
    samePoint (Double.center a) (Double.center a') /\
    samePoint (Double.center b) (Double.center b').
Proof.
  intros H1 H2. rewrite !double_two_sorted.
  pose proof (double_compareCenter_spec e1 e2 H1 H2) as S12.
  pose proof (double_compareCenter_spec e2 e1 H2 H1) as S21.
  pose proof (samePoint_refl e1 H1) as R1.
  pose proof (samePoint_refl e2 H2) as R2.
  destruct (0 <? Double.compareCenter e1 e2)%float eqn:E12,
           (0 <? Double.compareCenter e2 e1)%float eqn:E21.
  - exfalso. pose proof (proj1 S12 eq_refl). pose proof (proj1 S21 eq_refl).
    lia.
  - by exists e2, e1, e2, e1.
  - by exists e1, e2, e1, e2.
  - exists e2, e1, e1, e2. split; [done|]. split; [done|].
    assert (centerKeyX e1 = centerKeyX e2 /\ centerKeyY e1 = centerKeyY e2)
      as [Hx Hy].
    { assert (~ ((centerKeyX e2 < centerKeyX e1)%Z \/
                 (centerKeyX e1 = centerKeyX e2 /\
                  (centerKeyY e2 < centerKeyY e1)%Z))) as N12
        by (intros H; apply S12 in H; congruence).
      assert (~ ((centerKeyX e1 < centerKeyX e2)%Z \/
                 (centerKeyX e2 = centerKeyX e1 /\
                  (centerKeyY e1 < centerKeyY e2)%Z))) as N21
        by (intros H; apply S21 in H; congruence).
      lia. }
    apply numericEdge_spec in H1 as (_ & H1x & H1y).
    apply numericEdge_spec in H2 as (_ & H2x & H2y).
    unfold samePoint, centerKeyX, centerKeyY in *.
    rewrite !eqb_value, !Z.eqb_eq by done. lia.
Qed.

Lemma double_panelEndsOf_shape hypot pts e1 e2 rest a b :
  Double.jsSort Double.compareLen (Double.edgesOf hypot pts)
  = e1 :: e2 :: rest ->
  Double.jsSort Double.compareCenter [e1; e2] = [a; b] ->
  Double.ends_left (Double.panelEndsOf hypot pts) = Double.center a /\
  Double.ends_right (Double.panelEndsOf hypot pts) = Double.center b.
Proof.
  intros Hs Hc. unfold Double.panelEndsOf, Double.shortEdgesOf. rewrite Hs.
  change (take 2 (e1 :: e2 :: rest)) with [e1; e2]. by rewrite Hc.
Qed.

(** C9 (as stated): the assignment depends on the starting vertex when
    computed edge lengths tie, whatever value [Math.hypot] gives to the
    sides of the unit square as long as it is exact on them.  Starting the
    unit square one vertex later moves the left end from the bottom edge to
    the top edge. *)
Lemma square_rotation_changes_ends :
  ~ (forall (hypot : float -> float -> float) (svgPts : list Double.Point)
            (k : nat),
       (hypot 1 0 = 1)%float -> (hypot 0 1 = 1)%float ->
       (hypot (-1) 0 = 1)%float -> (hypot 0 (-1) = 1)%float ->
       2 <= length svgPts ->
       forallb numericEdge (Double.edgesOf hypot svgPts) = true ->
       samePoint (Double.ends_left
                    (Double.panelEndsOf hypot (rotate k svgPts)))
                 (Double.ends_left (Double.panelEndsOf hypot svgPts)) /\
       samePoint (Double.ends_right
                    (Double.panelEndsOf hypot (rotate k svgPts)))
                 (Double.ends_right (Double.panelEndsOf hypot svgPts))).
Proof.
  intros H.
  destruct (H Double.sqrtSumSquares squareDouble 1) as [[_ Hy] _];
    try (vm_compute; reflexivity); [simpl; lia|].
  vm_compute in Hy. discriminate Hy.
Qed.

(** C9 (amended): for a polygon with at least two vertices left once the
    closing point is dropped, whose computed edge lengths and edge centres
    are numbers, the resolver returns two ends: the centres of the first two
    edges in ascending order of the computed length, the left one not to the
    right of the other in the order by x, then y, of the centres; the centre
    is the sum of the vertices, taken in the order of the list, over their
    number.  When the second of the sorted edges is strictly shorter, as
    computed, than every later one, every starting rotation of the vertex
    list gives the same left and right end. *)
Theorem panel_ends_resolved (hypot : float -> float -> float)
    (svgPts : list Double.Point) :
  2 <= length svgPts ->
  forallb numericEdge (Double.edgesOf hypot svgPts) = true ->
  exists e1 e2 rest eL eR,
    Double.jsSort Double.compareLen (Double.edgesOf hypot svgPts)
    = e1 :: e2 :: rest /\
    e1 :: e2 :: rest ≡ₚ Double.edgesOf hypot svgPts /\
    (Double.len e1 <=? Double.len e2)%float = true /\
    Forall (fun r => (Double.len e2 <=? Double.len r)%float = true) rest /\
    ([eL; eR] = [e1; e2] \/ [eL; eR] = [e2; e1]) /\
    Double.ends_left (Double.panelEndsOf hypot svgPts) = Double.center eL /\
    Double.ends_right (Double.panelEndsOf hypot svgPts) = Double.center eR /\
    leftOf (Double.center eL) (Double.center eR) /\
    Double.ends_center (Double.panelEndsOf hypot svgPts)
    = Double.mkPoint
        (foldl (fun sum p => sum + Double.px p)%float 0%float svgPts
         / Double.ofNat (length svgPts))
        (foldl (fun sum p => sum + Double.py p)%float 0%float svgPts
         / Double.ofNat (length svgPts)) /\
    (Forall (fun r => (Double.len e2 <? Double.len r)%float = true) rest ->
     forall k,
       samePoint (Double.ends_left
                    (Double.panelEndsOf hypot (rotate k svgPts)))
                 (Double.ends_left (Double.panelEndsOf hypot svgPts)) /\
       samePoint (Double.ends_right
                    (Double.panelEndsOf hypot (rotate k svgPts)))
                 (Double.ends_right (Double.panelEndsOf hypot svgPts))).
Proof.
  intros Hlen Hnum.
  destruct (double_sorted_edges hypot svgPts Hnum Hlen)
    as (e1 & e2 & rest & Hs & Hgood & Hsorted).
  pose proof (numeric_edges _ Hgood) as Hgood'.
  apply Forall_cons in Hgood' as [G1 Hgood'].
  apply Forall_cons in Hgood' as [G2 Grest].
  destruct (double_leftOf_sorted e1 e2 G1 G2) as (eL & eR & Hc & Hor & Hlf).
  destruct (double_panelEndsOf_shape hypot svgPts e1 e2 rest eL eR Hs Hc)
    as [HL HR].
  pose proof Hsorted as Hsorted'.
  apply StronglySorted_inv in Hsorted' as [Hs2 Hall1].
  apply StronglySorted_inv in Hs2 as [_ Hall2].
  apply Forall_cons in Hall1 as [H12 _].
  pose proof (numericEdge_spec e1 G1) as (N1 & _ & _).
  pose proof (numericEdge_spec e2 G2) as (N2 & _ & _).
  exists e1, e2, rest, eL, eR.
  split; [exact Hs|]. split; [rewrite <- Hs; apply double_jsSort_perm|].
  split; [rewrite leb_value by done; by apply Z.leb_le|].
  split.
  { apply Forall_forall. intros r Hr.
    rewrite Forall_forall in Hall2, Grest.
    pose proof (numericEdge_spec r (Grest r Hr)) as (Nr & _ & _).
    rewrite leb_value by done. apply Z.leb_le. by apply Hall2. }
  split; [exact Hor|]. split; [exact HL|]. split; [exact HR|].
  split; [exact Hlf|]. split; [reflexivity|].
  intros Hgap k. rewrite HL, HR.
  assert (Forall (fun r => (lenKey e2 < lenKey r)%Z) rest) as Hgap'.
  { apply Forall_forall. intros r Hr.
    rewrite Forall_forall in Hgap, Grest.
    pose proof (numericEdge_spec r (Grest r Hr)) as (Nr & _ & _).
    specialize (Hgap r Hr). rewrite ltb_value in Hgap by done.
    by apply Z.ltb_lt. }
  assert (Double.edgesOf hypot (rotate k svgPts)
          ≡ₚ Double.edgesOf hypot svgPts) as Hrot by apply loop_rotate.
  assert (2 <= length (rotate k svgPts)) as Hlenk by (by rewrite length_rotate).
  destruct (double_sorted_edges hypot (rotate k svgPts)
              (numeric_edges_perm _ _ (symmetry Hrot) Hnum) Hlenk)
    as (e1' & e2' & rest' & Hs' & _ & Hsorted').
  assert (e1' :: e2' :: rest' ≡ₚ e1 :: e2 :: rest) as Hperm.
  { rewrite <- Hs', <- Hs, !double_jsSort_perm. exact Hrot. }
  pose proof (double_sorted_take_two lenKey e1 e2 rest (e1' :: e2' :: rest')
                Hsorted Hgap' Hsorted' Hperm) as Htwo.
  change (take 2 (e1' :: e2' :: rest')) with [e1'; e2'] in Htwo.
  symmetry in Htwo.
  apply Permutation_length_2_inv in Htwo.
  destruct Htwo as [Htwo|Htwo]; inversion Htwo; subst e1' e2'.
  - destruct (double_panelEndsOf_shape hypot (rotate k svgPts) e1 e2 rest'
                eL eR Hs' Hc) as [-> ->].
    destruct Hor as [Hor|Hor]; inversion Hor; subst eL eR;
      split; by apply samePoint_refl.
  - destruct (double_two_sorted_swap e1 e2 G1 G2)
      as (a & b & a' & b' & Hswap & Horig & Ha & Hb).
    rewrite Hc in Horig. inversion Horig; subst a' b'.
    destruct (double_panelEndsOf_shape hypot (rotate k svgPts) e2 e1 rest'
                a b Hs' Hswap) as [-> ->]. by split.
Qed.

Lemma panel_ends_resolved_witness :
  2 <= length rectDouble /\
  forallb numericEdge (Double.edgesOf Double.sqrtSumSquares rectDouble) = true /\
  forall k,
    samePoint (Double.ends_left
                 (Double.panelEndsOf Double.sqrtSumSquares
                    (rotate k rectDouble)))
              (Double.mkPoint 0 0.5) /\
    samePoint (Double.ends_right
                 (Double.panelEndsOf Double.sqrtSumSquares
                    (rotate k rectDouble)))
              (Double.mkPoint 4 0.5).
Proof.
  assert (2 <= length rectDouble) as Hlen by (simpl; lia).
  assert (forallb numericEdge
            (Double.edgesOf Double.sqrtSumSquares rectDouble) = true)
    as Hnum by (vm_compute; reflexivity).
  split; [exact Hlen|]. split; [exact Hnum|].
  destruct (panel_ends_resolved Double.sqrtSumSquares rectDouble Hlen Hnum)
    as (e1 & e2 & rest & eL & eR & Hs & _ & _ & _ & _ & HL & HR & _ & _ & Hrot).
  vm_compute in Hs. inversion Hs; subst e1 e2 rest. clear Hs.
  intros k. apply Hrot. repeat constructor.
Defined.

(** Lengths that differ before rounding can tie in doubles.  With the
    square root of the sum of the squares for [Math.hypot], the sides of
    the triangle (0, 0), (5, 2^-30), (3, 4) that meet at the origin both
    have the computed length 5, and the left end depends on the starting
    vertex. *)
Example triangle_ties_in_doubles :
  let tri := [Double.mkPoint 0 0; Double.mkPoint 5 0x1p-30;
              Double.mkPoint 3 4] in
  map (fun e => (Double.len e =? 5)%float)
      (Double.edgesOf Double.sqrtSumSquares tri) = [true; false; true] /\
  Double.px (Double.ends_left (Double.panelEndsOf Double.sqrtSumSquares tri))
  = 2.5%float /\
  Double.px (Double.ends_left
               (Double.panelEndsOf Double.sqrtSumSquares (rotate 1 tri)))
  = 1.5%float.
Proof. by vm_compute. Qed.

(** The centre is a sum in the order of the list: it can differ in the
    last place from one starting vertex to the next. *)
Example centre_depends_on_start :
  let tri := [Double.mkPoint 0x1.999999999999ap-4 0;
              Double.mkPoint 0x1.999999999999ap-3 0;
              Double.mkPoint 0x1.3333333333333p-2 1] in
  (Double.px (Double.centroid tri)
   =? Double.px (Double.centroid (rotate 1 tri)))%float = false.
Proof. by vm_compute. Qed.

(** The resolver on a panel of the site: a closed ring of five positions
    gives four canvas points, and the left end is to the left of the right
    one. *)
Example resolver_on_ring :
  let ring := [(0, 0); (4, 0); (4, 1); (0, 1); (0, 0)]%float in
  let panel := Double.mkFeature ring None in
  exists ends,
    Double.getPanelEnds Double.sqrtSumSquares (Some [panel])
                        (Double.computeBounds ring) Double.loadedCanvas 0
    = Some ends /\
    length (Double.allPoints ends) = 4 /\
    (Double.px (Double.ends_left ends) <? Double.px (Double.ends_right ends))%float
    = true.
Proof. eexists. split; [reflexivity|]. by vm_compute. Qed.

(** ** The note layer *)

Lemma nearClick_dist start note :
  nearClick start note
  = jsLt (noteDist2 start note) (jsMul clickRadius clickRadius).
Proof. reflexivity. Qed.

Lemma jsLt_asym a b : jsLt a b = true -> jsLt b a = false.
Proof.
  destruct a as [p| | |], b as [q| | |]; simpl; try done.
  intros H. apply Qlt_bool_iff in H.
  destruct (Qlt_bool q p) eqn:E; [|done]. apply Qlt_bool_iff in E. lra.
Qed.

Lemma click_point_not_far now start :
  jsLt (jsMul clickRadius clickRadius)
       (noteDist2 start (mkNote now (px start) (py start) "")) = false.
Proof.
  unfold noteDist2. cbn [svgX svgY].
  destruct (px start) as [a| | |], (py start) as [b| | |]; try done.
  cbn. destruct (Qlt_bool _ _) eqn:E; [|done].
  apply Qlt_bool_iff in E. exfalso. revert E. apply Qle_not_lt.
  assert ((a + - a) * (a + - a) + (b + - b) * (b + - b) == 0)%Q as Hz by ring.
  rewrite Hz. done.
Qed.

(** A click in note mode, on the canvas.  When a note lies within the
    click radius (its canvas distance to the click is below 5) the first
    such note becomes the
    note being edited and the notes are unchanged; when none does, one new
    note with the coordinates of the click is appended; and when every note
    is farther than the radius from the click, this new note is none of the
    existing ones. *)
Theorem note_click now s e nl :
  belowThreshold s e = true ->
  let nl' := handleMouseUpNote now (mkNoteGesture true (Some s) (Some e)) nl in
  let newNote := mkNote now (px s) (py s) "" in
  ((exists note, note ∈ notes nl /\ nearClick s note = true) ->
   (exists existing,
      existing ∈ notes nl /\ nearClick s existing = true /\
      find (nearClick s) (notes nl) = Some existing /\
      editingNote nl' = Some existing /\ notes nl' = notes nl)) /\
  (Forall (fun note => nearClick s note = false) (notes nl) ->
   notes nl' = notes nl ++ [newNote] /\ editingNote nl' = editingNote nl) /\
  (Forall (fun note =>
             jsLt (jsMul clickRadius clickRadius) (noteDist2 s note) = true)
          (notes nl) ->
   notes nl' = notes nl ++ [newNote] /\
   (newNote ∉ notes nl) /\
   length (notes nl') = S (length (notes nl))).
Proof.
  intros Hth nl' newNote.
  assert (Forall (fun note => nearClick s note = false) (notes nl) ->
          nl' = mkNoteLayer (notes nl ++ [newNote]) (editingNote nl)
                            (selectedNotes nl)) as Hnone.
  { intros Hall. subst nl'. unfold handleMouseUpNote.
    cbn [isNoteSelecting noteSelectionStart noteSelectionEnd]. rewrite Hth.
    destruct (find (nearClick s) (notes nl)) as [x|] eqn:F; [|done].
    apply find_some in F as [Hin Hx]. rewrite Forall_forall in Hall.
    apply list_elem_of_In in Hin. rewrite (Hall x Hin) in Hx. done. }
  split; [|split].
  - intros (note & Hin & Hnear). subst nl'. unfold handleMouseUpNote.
    cbn [isNoteSelecting noteSelectionStart noteSelectionEnd]. rewrite Hth.
    destruct (find (nearClick s) (notes nl)) as [x|] eqn:F.
    + pose proof (find_some _ _ F) as [Hx1 Hx2].
      exists x. apply list_elem_of_In in Hx1. done.
    + apply list_elem_of_In in Hin.
      rewrite (find_none _ _ F note Hin) in Hnear. done.
  - intros Hall. by rewrite (Hnone Hall).
  - intros Hfar.
    assert (Forall (fun note => nearClick s note = false) (notes nl)) as Hall.
    { eapply Forall_impl; [exact Hfar|]. intros note H.
      rewrite nearClick_dist. by apply jsLt_asym. }
    rewrite (Hnone Hall). cbn [notes]. split; [done|]. split.
    + intros Hin. rewrite Forall_forall in Hfar.
      pose proof (Hfar newNote Hin) as H. subst newNote.
      by rewrite click_point_not_far in H.
    + rewrite length_app. simpl. lia.
Qed.

Lemma note_click_witness :
  belowThreshold (pt 103 100) (pt 103 100) = true /\
  (exists note, note ∈ notes oneNote /\ nearClick (pt 103 100) note = true) /\
  exists existing,
    existing ∈ notes oneNote /\ nearClick (pt 103 100) existing = true /\
    find (nearClick (pt 103 100)) (notes oneNote) = Some existing /\
    editingNote (handleMouseUpNote 2 (noteClick 103 100) oneNote)
    = Some existing /\
    notes (handleMouseUpNote 2 (noteClick 103 100) oneNote) = notes oneNote.
Proof.
  assert (belowThreshold (pt 103 100) (pt 103 100) = true) as Hth
    by reflexivity.
  assert (exists note, note ∈ notes oneNote /\
                       nearClick (pt 103 100) note = true) as Hex.
  { exists (mkNote 1 (Fin 100) (Fin 100) "first").
    split; [apply list_elem_of_here | reflexivity]. }
  split; [exact Hth|]. split; [exact Hex|].
  exact (proj1 (note_click 2 (pt 103 100) (pt 103 100) oneNote Hth) Hex).
Defined.

(** C10: the click radius is a distance on the canvas, not on the screen,
    although the source calls it pixels.  On an element of 1200 by 900
    pixels, after four steps of zooming out, a click at the canvas point
    (110, 100) is less than 5 pixels from the note at (100, 100) on the
    screen, and a second note is added instead of the first one being
    opened; after four steps of zooming in, a click at (104, 100) is more
    than 5 pixels from the note on the screen, and opens it. *)
Theorem note_radius_in_canvas_units :
  let rect := Some (mkRect (Fin 0) (Fin 0) (Fin 1200) (Fin 900)) in
  let zoomedOut := Nat.iter 4 (zoom rect false None None) loadedViewBox in
  let zoomedIn := Nat.iter 4 (zoom rect true None None) loadedViewBox in
  let first := mkNote 1 (Fin 100) (Fin 100) "first" in
  jsLt (dist2 (canvasToScreen rect zoomedOut (Fin 110) (Fin 100))
              (canvasToScreen rect zoomedOut (Fin 100) (Fin 100)))
       (jsMul clickRadius clickRadius) = true /\
  handleMouseUpNote 2 (noteClick 110 100) oneNote
  = {| notes := [first; mkNote 2 (Fin 110) (Fin 100) ""];
       editingNote := None;
       selectedNotes := ∅ |} /\
  jsLt (jsMul clickRadius clickRadius)
       (dist2 (canvasToScreen rect zoomedIn (Fin 104) (Fin 100))
              (canvasToScreen rect zoomedIn (Fin 100) (Fin 100))) = true /\
  handleMouseUpNote 2 (noteClick 104 100) oneNote
  = {| notes := [first]; editingNote := Some first; selectedNotes := ∅ |}.
Proof. vm_compute. repeat split; done. Qed.

(** The scenario of the specification: a click 3 units from the note at
    (100, 100) opens it; a click 50 units away adds a second note there; a
    click at exactly 5 units also adds one. *)
Example note_scenario :
  handleMouseUpNote 2 (noteClick 103 100) oneNote
  = {| notes := notes oneNote;
       editingNote := Some (mkNote 1 (Fin 100) (Fin 100) "first");
       selectedNotes := ∅ |} /\
  notes (handleMouseUpNote 2 (noteClick 150 100) oneNote)
  = [mkNote 1 (Fin 100) (Fin 100) "first"; mkNote 2 (Fin 150) (Fin 100) ""] /\
  notes (handleMouseUpNote 2 (noteClick 105 100) oneNote)
  = [mkNote 1 (Fin 100) (Fin 100) "first"; mkNote 2 (Fin 105) (Fin 100) ""].
Proof. repeat split. Qed.

(** ** Loaded geometry on the canvas *)

Lemma minmax_bounds (l : list JsNum) (m M : Q) :
  forallb isFinite l = true ->
  jsMinList l = Fin m -> jsMaxList l = Fin M ->
  forall a : Q, Fin a ∈ l -> (m <= a <= M)%Q.
Proof.
  revert m M. induction l as [|x l IH]; intros m M Hfin Hm HM a Hin.
  - by apply elem_of_nil in Hin.
  - apply andb_true_iff in Hfin as [Hx Hl].
    destruct x as [x| | |]; try done.
    destruct l as [|y l].
    + apply list_elem_of_singleton in Hin. inversion Hin; subst a.
      cbn in Hm, HM. inversion Hm; inversion HM; subst. lra.
    + destruct (minmax_finite (y :: l)) as (m' & M' & Hm' & HM' & Hle);
        [done|done|].
      change (jsMinList (Fin x :: y :: l))
        with (jsMin (Fin x) (jsMinList (y :: l))) in Hm.
      change (jsMaxList (Fin x :: y :: l))
        with (jsMax (Fin x) (jsMaxList (y :: l))) in HM.
      rewrite Hm' in Hm. rewrite HM' in HM. cbn [jsMin jsMax jsLe] in Hm, HM.
      assert (m <= x /\ m <= m' /\ x <= M /\ M' <= M)%Q as (H1 & H2 & H3 & H4).
      { assert (Qle_bool x m' = true -> x <= m')%Q as A1
          by apply Qle_bool_iff.
        assert (Qle_bool x m' = false -> m' < x)%Q as A2
          by (intros E; apply Qlt_bool_iff; unfold Qlt_bool; by rewrite E).
        assert (Qle_bool x M' = true -> x <= M')%Q as A3
          by apply Qle_bool_iff.
        assert (Qle_bool x M' = false -> M' < x)%Q as A4
          by (intros E; apply Qlt_bool_iff; unfold Qlt_bool; by rewrite E).
        destruct (Qle_bool x m'), (Qle_bool x M');
          inversion Hm as [Em]; inversion HM as [EM]; rewrite <- ?Em, <- ?EM;
          try (specialize (A1 eq_refl)); try (specialize (A2 eq_refl));
          try (specialize (A3 eq_refl)); try (specialize (A4 eq_refl));
          repeat split; lra. }
      apply elem_of_cons in Hin as [Hin|Hin].
      * inversion Hin; subst. lra.
      * destruct (IH m' M' Hl Hm' HM' a Hin). lra.
Qed.

Lemma scaled_inside (num den w : Q) :
  (0 < num)%Q -> (num < den)%Q -> (0 < w)%Q ->
  (0 < num / den * w)%Q /\ (num / den * w < w)%Q.
Proof.
  intros Hn Hd Hw.
  assert (0 < num / den)%Q as H0 by (apply Qlt_shift_div_l; lra).
  assert (num / den < 1)%Q as H1 by (apply Qlt_shift_div_r; lra).
  split.
  - apply Qmult_lt_0_compat; lra.
  - pose proof (Qmult_lt_compat_r (num / den) 1 w Hw H1) as H. lra.
Qed.

(** Every position the bounds were computed from is sent strictly inside
    the canvas. *)
Lemma positions_inside_canvas allCoords b (w h : Q) c :
  computeBounds allCoords = Some b ->
  allFinite allCoords = true ->
  (0 < w)%Q -> (0 < h)%Q ->
  c ∈ allCoords ->
  exists x y : Q,
    toSvgCoords (Some b) (mkCanvas (Fin w) (Fin h)) (fst c) (snd c) = pt x y /\
    (0 < x < w)%Q /\ (0 < y < h)%Q.
Proof.
  intros Hb Hfin Hw Hh Hin.
  destruct allCoords as [|c0 l]; [done|].
  destruct (forallb_map_fst _ Hfin) as [Hx Hy].
  destruct (minmax_finite (map fst (c0 :: l))) as (x0 & x1 & Hx0 & Hx1 & _);
    [done|done|].
  destruct (minmax_finite (map snd (c0 :: l))) as (y0 & y1 & Hy0 & Hy1 & _);
    [done|done|].
  assert (exists a b' : Q, c = (Fin a, Fin b')) as (a & b' & ->).
  { unfold allFinite in Hfin. rewrite forallb_forall in Hfin.
    apply list_elem_of_In in Hin. specialize (Hfin c Hin).
    destruct c as [[a| | |] [b'| | |]]; try done. eauto. }
  assert (x0 <= a <= x1)%Q as Ha.
  { apply (minmax_bounds (map fst (c0 :: l))); try done.
    apply (list_elem_of_fmap_2 fst) in Hin. exact Hin. }
  assert (y0 <= b' <= y1)%Q as Hb'.
  { apply (minmax_bounds (map snd (c0 :: l))); try done.
    apply (list_elem_of_fmap_2 snd) in Hin. exact Hin. }
  unfold computeBounds in Hb. rewrite Hx0, Hx1, Hy0, Hy1 in Hb.
  inversion Hb; subst b. unfold padding. cbn [jsSub jsNeg jsAdd fst snd].
  rewrite toSvgCoords_finite by lra.
  eexists. eexists. split; [reflexivity|].
  split; apply scaled_inside; lra.
Qed.

Lemma gatherCoords_nonempty panels line invPoint text c :
  c ∈ gatherCoords panels line invPoint text ->
  (0 <? length (gatherCoords panels line invPoint text)) = true.
Proof.
  intros Hin. apply Nat.ltb_lt.
  destruct (gatherCoords panels line invPoint text); [|simpl; lia].
  by apply elem_of_nil in Hin.
Qed.

Lemma loadSite_inside panels line invPoint text c :
  allFinite (gatherCoords panels line invPoint text) = true ->
  c ∈ gatherCoords panels line invPoint text ->
  exists x y : Q,
    toSvgCoords (site_bounds (loadSite panels line invPoint text))
                (site_canvas (loadSite panels line invPoint text))
                (fst c) (snd c)
    = pt x y /\
    (0 < x < 1200)%Q /\ (0 < y < 900)%Q.
Proof.
  intros Hfin Hin. unfold loadSite.
  cbn [site_bounds site_canvas].
  rewrite (gatherCoords_nonempty _ _ _ _ c Hin).
  destruct (computeBounds (gatherCoords panels line invPoint text))
    as [b|] eqn:Hb.
  - unfold loadedCanvas.
    apply (positions_inside_canvas _ b 1200 900 c Hb Hfin); [done|done|done].
  - unfold computeBounds in Hb.
    destruct (gatherCoords panels line invPoint text); [|done].
    by apply elem_of_nil in Hin.
Qed.

(** ** Gestures and the history *)

Lemma times_add {A : Type} (f : A -> option A) (a b : nat) (x : A) :
  times f (a + b) x = times f a x ≫= times f b.
Proof.
  revert x. induction a as [|a IH]; intros x; [done|].
  cbn [Nat.add times]. destruct (f x) as [y|]; [|done]. apply IH.
Qed.

Lemma times_undo_at_zero k st :
  historyIndex st = 0 -> times undo k st = Some st.
Proof.
  intros H0. assert (undo st = Some st) as Hu by (unfold undo; by rewrite H0).
  induction k as [|k IH]; [done|].
  cbn [times]. rewrite Hu. exact IH.
Qed.

(** What a push followed by one undo gives back. *)
Lemma push_then_undo panels st newStates :
  historyInv panels st ->
  undo (mkEditor newStates
          (take (historyIndex st + 1) (history st) ++ [newStates])
          (historyIndex st + 1))
  = Some (mkEditor (panelStates st)
            (take (historyIndex st + 1) (history st) ++ [newStates])
            (historyIndex st)).
Proof.
  intros (Hlt & Hcur & _). unfold undo. cbn [historyIndex history].
  replace (0 <? historyIndex st + 1) with true
    by (symmetry; apply Nat.ltb_lt; lia).
  replace (historyIndex st + 1 - 1) with (historyIndex st) by lia.
  destruct (pushHistory_spec (history st) (historyIndex st) newStates Hlt)
    as (_ & _ & _ & Hkeep).
  rewrite Hkeep by lia. by rewrite Hcur.
Qed.

Lemma clickUpdate_pushed index side v st :
  historyIndex st < length (history st) ->
  clickUpdate index side v st
  = mkEditor (panelStates (clickUpdate index side v st))
      (take (historyIndex st + 1) (history st)
         ++ [panelStates (clickUpdate index side v st)])
      (historyIndex st + 1).
Proof.
  intros Hlt. unfold clickUpdate.
  destruct (pushHistory_spec (history st) (historyIndex st)
    (<[index := setSide side v (spreadEntry (panelStates st !! index))]>
       (panelStates st)) Hlt) as (-> & _).
  reflexivity.
Qed.

Lemma foldl_insert_none (P : nat -> bool) (f : nat -> PanelEntry)
    (l : list nat) (acc : PanelStates) :
  existsb P l = false ->
  foldl (fun acc index => if P index then <[index := f index]> acc else acc)
        acc l = acc.
Proof.
  induction l as [|i l IH]; [done|]. cbn [existsb foldl].
  intros [Hi Hl]%orb_false_iff. rewrite Hi. by apply IH.
Qed.

Section Gestures.

Variable panelsData : option (list Feature).
Variable bounds : option Bounds.
Variable canvasSize : CanvasSize.

Abbreviation panels := (panelCount panelsData).
Abbreviation select := (applySelection panelsData bounds canvasSize).
Abbreviation mouseUp := (handleMouseUp panelsData bounds canvasSize).

(** A box selection leaves the state as it is, or pushes exactly one
    snapshot, the new mapping. *)
Lemma select_cases st selStart selEnd unselect :
  historyInv panels st ->
  select selStart selEnd unselect st = st \/
  select selStart selEnd unselect st
  = mkEditor (panelStates (select selStart selEnd unselect st))
      (take (historyIndex st + 1) (history st)
         ++ [panelStates (select selStart selEnd unselect st)])
      (historyIndex st + 1).
Proof.
  intros (Hlt & _). unfold applySelection.
  destruct panelsData as [features|]; [|by left].
  destruct selStart as [s|]; [|by left].
  destruct selEnd as [e|]; [|by left].
  destruct (belowThreshold s e); [by left|].
  destruct (existsb _ _) eqn:Hex.
  - set (newStates := foldl _ _ _).
    destruct (pushHistory_spec (history st) (historyIndex st) newStates Hlt)
      as (-> & _). by right.
  - left.
    rewrite (foldl_insert_none
               (fun index => isPanelInSelection (Some features) bounds
                               canvasSize index (Some s) (Some e))
               (selectionEntry unselect (panelStates st)) _ _ Hex).
    by destruct st.
Qed.

(** The same for any mouse-up on the drawing. *)
Lemma mouseUp_cases g st :
  historyInv panels st ->
  mouseUp g st = st \/
  mouseUp g st
  = mkEditor (panelStates (mouseUp g st))
      (take (historyIndex st + 1) (history st) ++ [panelStates (mouseUp g st)])
      (historyIndex st + 1).
Proof.
  intros Hinv. unfold handleMouseUp.
  destruct (isSelecting g); [|by left].
  destruct (selectionStart g) as [s|] eqn:Hs; [|by left].
  destruct (selectionEnd g) as [e|] eqn:He; [|by left].
  destruct (if belowThreshold s e then clickedPanelIndex g else None)
    as [panelIndex|].
  - destruct (getPanelEnds _ _ _ panelIndex) as [ends|]; [|by left].
    right. apply clickUpdate_pushed. by destruct Hinv.
  - by apply select_cases.
Qed.

End Gestures.

(** X2: one undo takes back one gesture.  In a reachable state, a mouse-up
    on the drawing (a click on a panel end or a box selection over any
    number of panels) either leaves the state untouched or is reverted by a
    single undo, which restores the mapping and the history index from
    before the gesture. *)
Theorem gesture_undone_by_one_undo panelsData bounds canvasSize st g :
  reachable panelsData bounds canvasSize st ->
  handleMouseUp panelsData bounds canvasSize g st = st \/
  undo (handleMouseUp panelsData bounds canvasSize g st)
  = Some (mkEditor (panelStates st)
            (history (handleMouseUp panelsData bounds canvasSize g st))
            (historyIndex st)).
Proof.
  intros Hr. pose proof (reachable_inv _ _ _ st Hr) as Hinv.
  destruct (mouseUp_cases panelsData bounds canvasSize g st Hinv) as [H|H];
    [by left | right].
  rewrite H. cbn [history]. by eapply push_then_undo.
Qed.

Lemma gesture_undone_by_one_undo_witness :
  reachable siteData siteBounds loadedCanvas siteClicked /\
  (handleMouseUp siteData siteBounds loadedCanvas (dragAll false) siteClicked
   = siteClicked \/
   undo (handleMouseUp siteData siteBounds loadedCanvas (dragAll false)
           siteClicked)
   = Some (mkEditor (panelStates siteClicked)
             (history (handleMouseUp siteData siteBounds loadedCanvas
                         (dragAll false) siteClicked))
             (historyIndex siteClicked))).
Proof.
  split; [exact siteClicked_reachable|].
  exact (gesture_undone_by_one_undo siteData siteBounds loadedCanvas
           siteClicked (dragAll false) siteClicked_reachable).
Defined.

Lemma undo_history st st' : undo st = Some st' -> history st' = history st.
Proof.
  unfold undo. destruct (0 <? historyIndex st); [|by intros [= <-]].
  destruct (history st !! (historyIndex st - 1)); [|done]. by intros [= <-].
Qed.

Lemma redo_history st st' : redo st = Some st' -> history st' = history st.
Proof.
  unfold redo. destruct (historyIndex st <? length (history st) - 1);
    [|by intros [= <-]].
  destruct (history st !! (historyIndex st + 1)); [|done]. by intros [= <-].
Qed.

Lemma push_keeps_first (h : list PanelStates) idx s :
  idx < length h -> (take (idx + 1) h ++ [s]) !! 0 = h !! 0.
Proof.
  intros Hlt. destruct (pushHistory_spec h idx s Hlt) as (_ & _ & _ & Hkeep).
  apply Hkeep. lia.
Qed.

(** The first snapshot of the history is always the empty mapping. *)
Lemma reachable_first_snapshot panelsData bounds canvasSize st :
  reachable panelsData bounds canvasSize st -> history st !! 0 = Some ∅.
Proof.
  induction 1 as [|st st' Hr IH Hstep]; [done|].
  pose proof (reachable_inv _ _ _ st Hr) as Hinv.
  pose proof Hinv as (Hlt & _).
  destruct Hstep as [g st _ | isAddingNote detail index side st _
                    | st st' Hu | st st' Hre].
  - destruct (mouseUp_cases panelsData bounds canvasSize g st Hinv) as [->| ->];
      [done|]. cbn [history]. by rewrite push_keeps_first.
  - unfold handlePanelClick. destruct isAddingNote; [done|].
    destruct side as [side|]; [|done].
    rewrite clickUpdate_pushed by done. cbn [history].
    by rewrite push_keeps_first.
  - by rewrite (undo_history _ _ Hu).
  - by rewrite (redo_history _ _ Hre).
Qed.

(** X3: undo stops at the baseline.  From a reachable state, as many undo
    calls as the history index, or any larger number, end at index 0 with
    the empty mapping (no end marked), the history itself unchanged. *)
Theorem undo_stops_at_baseline panelsData bounds canvasSize st k :
  reachable panelsData bounds canvasSize st ->
  historyIndex st <= k ->
  times undo k st = Some (mkEditor ∅ (history st) 0).
Proof.
  intros Hr Hk. pose proof (reachable_inv _ _ _ st Hr) as Hinv.
  pose proof (reachable_first_snapshot _ _ _ st Hr) as Hfirst.
  replace k with (historyIndex st + (k - historyIndex st)) by lia.
  rewrite times_add.
  destruct (times_undo _ (historyIndex st) st Hinv) as (s & Hs & ->); [lia|].
  rewrite Nat.sub_diag in *. rewrite Hfirst in Hs. inversion Hs; subst s.
  cbn [mbind option_bind]. by apply times_undo_at_zero.
Qed.

Lemma undo_stops_at_baseline_witness :
  reachable siteData siteBounds loadedCanvas siteTerminated /\
  historyIndex siteTerminated <= 5 /\
  times undo 5 siteTerminated = Some (mkEditor ∅ (history siteTerminated) 0).
Proof.
  assert (historyIndex siteTerminated <= 5) as Hk by (vm_compute; lia).
  split; [exact siteTerminated_reachable|]. split; [exact Hk|].
  exact (undo_stops_at_baseline siteData siteBounds loadedCanvas
           siteTerminated 5 siteTerminated_reachable Hk).
Defined.

(** X4: redo then undo.  In a reachable state with at least [k] snapshots
    ahead of the index, [k] redo calls followed by [k] undo calls give back
    the state they started from. *)
Theorem redo_undo_inverse panelsData bounds canvasSize st k :
  reachable panelsData bounds canvasSize st ->
  historyIndex st + k < length (history st) ->
  times redo k st ≫= times undo k = Some st.
Proof.
  intros Hr Hk. pose proof (reachable_inv _ _ _ st Hr) as Hinv.
  destruct (times_redo _ k st Hinv Hk) as (s & Hs & ->).
  cbn [mbind option_bind].
  set (st1 := mkEditor s (history st) (historyIndex st + k)).
  assert (historyInv (panelCount panelsData) st1) as Hinv1.
  { destruct Hinv as (Hlt & Hcur & Hall). split; [simpl; lia|]. by split. }
  destruct (times_undo _ k st1 Hinv1) as (s' & Hs' & ->); [simpl; lia|].
  simpl in *. replace (historyIndex st + k - k) with (historyIndex st) in *
    by lia.
  destruct Hinv as (_ & Hcur & _). rewrite Hcur in Hs'.
  inversion Hs'; subst. by destruct st.
Qed.

Lemma siteUndone_reachable :
  reachable siteData siteBounds loadedCanvas siteUndone.
Proof.
  eapply reachable_step; [exact siteTerminated_reachable|].
  apply step_undo. vm_compute. reflexivity.
Qed.

Lemma redo_undo_inverse_witness :
  reachable siteData siteBounds loadedCanvas siteUndone /\
  historyIndex siteUndone + 1 < length (history siteUndone) /\
  times redo 1 siteUndone ≫= times undo 1 = Some siteUndone.
Proof.
  assert (historyIndex siteUndone + 1 < length (history siteUndone)) as Hk
    by (vm_compute; lia).
  split; [exact siteUndone_reachable|]. split; [exact Hk|].
  exact (redo_undo_inverse siteData siteBounds loadedCanvas siteUndone 1
           siteUndone_reachable Hk).
Defined.

(** ** The counters stay in range *)

Lemma filter_length_mono {A : Type} (P Q : A -> bool) (l : list A) :
  (forall x, P x = true -> Q x = true) ->
  length (List.filter P l) <= length (List.filter Q l).
Proof.
  intros HPQ. induction l as [|x l IH]; [done|]. cbn [List.filter].
  destruct (P x) eqn:EP.
  - rewrite (HPQ x EP). simpl. lia.
  - destruct (Q x); simpl; lia.
Qed.

Lemma allEnds_length n : length (allEnds n) = 2 * n.
Proof.
  unfold allEnds.
  assert (forall start,
            length (flat_map (fun index => [(index, SideLeft); (index, SideRight)])
                             (seq start n)) = 2 * n) as H; [|apply H].
  induction n as [|n IH]; intros start; [done|].
  cbn [seq flat_map]. rewrite length_app, IH. simpl. lia.
Qed.

Lemma endsWith_range P Q (ps : PanelStates) n :
  (forall s, P s = true -> Q s = true) ->
  (0 <= endsWith P ps n <= endsWith Q ps n)%Z /\
  (endsWith Q ps n <= 2 * Z.of_nat n)%Z.
Proof.
  intros HPQ. unfold endsWith. split; [split; [lia|]|].
  - apply inj_le, filter_length_mono. intros [index side]. apply HPQ.
  - pose proof (List.filter_length_le
                  (fun '(index, side) => Q (endState ps index side))
                  (allEnds n)) as Hle.
    rewrite allEnds_length in Hle. lia.
Qed.

(** X5: the counters stay in range.  In every reachable state the number
    of terminated ends is at most the number of ends done for MC4, which
    is at most the total; so neither counter shows a negative number of
    completed or remaining ends, and the termination counter never has
    fewer ends remaining than the MC4 counter. *)
Theorem counters_in_range panelsData bounds canvasSize st :
  reachable panelsData bounds canvasSize st ->
  let m := mc4 panelsData (panelStates st) in
  let t := termination panelsData (panelStates st) in
  (0 <= completed t <= completed m)%Z /\
  (completed m <= total m)%Z /\
  (0 <= remaining m <= remaining t)%Z /\
  (remaining t <= total t)%Z.
Proof.
  intros Hr m t. subst m t.
  pose proof (historyInv_current _ _ (reachable_inv _ _ _ st Hr)) as Hk.
  unfold mc4, termination. rewrite (counters_unfold _ (panelStates st) Hk).
  cbn [fst snd total completed remaining].
  destruct (endsWith_range isTerminated isMc4Done (panelStates st)
              (panelCount panelsData)) as [[H0 H1] H2].
  { by intros []. }
  lia.
Qed.

Lemma counters_in_range_witness :
  reachable siteData siteBounds loadedCanvas siteClicked /\
  (0 <= completed (termination siteData (panelStates siteClicked))
   <= completed (mc4 siteData (panelStates siteClicked)))%Z /\
  (completed (mc4 siteData (panelStates siteClicked))
   <= total (mc4 siteData (panelStates siteClicked)))%Z /\
  (0 <= remaining (mc4 siteData (panelStates siteClicked))
   <= remaining (termination siteData (panelStates siteClicked)))%Z /\
  (remaining (termination siteData (panelStates siteClicked))
   <= total (termination siteData (panelStates siteClicked)))%Z.
Proof.
  split; [exact siteClicked_reachable|].
  exact (counters_in_range siteData siteBounds loadedCanvas siteClicked
           siteClicked_reachable).
Defined.

(** ** Repeated box selections *)

Lemma selectNext_twice s : selectNext (selectNext s) = TERMINATED.
Proof. by destruct s. Qed.

Lemma endState_selectionEntry (ps : PanelStates) unselect prev index side :
  ps !! index = Some (selectionEntry unselect prev index) ->
  endState ps index side
  = if unselect then NONE else selectNext (endState prev index side).
Proof.
  intros H. unfold endState. rewrite H. unfold selectionEntry.
  by destruct unselect, side.
Qed.

Lemma select_pushed panelsData bounds canvasSize features s e unselect st
    index :
  panelsData = Some features ->
  historyIndex st < length (history st) ->
  belowThreshold s e = false ->
  isPanelInSelection panelsData bounds canvasSize index (Some s) (Some e)
  = true ->
  let st' :=
    applySelection panelsData bounds canvasSize (Some s) (Some e) unselect st
  in
  st' = mkEditor (panelStates st')
          (take (historyIndex st + 1) (history st) ++ [panelStates st'])
          (historyIndex st + 1).
Proof.
  intros Hd Hlt Hth Hsel. cbv zeta. unfold applySelection.
  rewrite Hd, Hth.
  assert (existsb
            (fun index =>
               isPanelInSelection (Some features) bounds canvasSize index
                                  (Some s) (Some e))
            (seq 0 (length features)) = true) as ->.
  { apply existsb_exists. exists index. rewrite <- Hd. split; [|done].
    apply in_seq. pose proof (inSelection_lt _ _ _ _ _ _ _ Hd Hsel). lia. }
  unfold pushHistory. cbn [panelStates history historyIndex]. f_equal.
  rewrite length_app, length_take. simpl. lia.
Qed.

(** X6: repeated box selections.  Two select gestures over the same
    rectangle leave every end of every selected panel [TERMINATED],
    whatever its state was; a third one leaves the mapping as it is, and
    (in a reachable state, when the rectangle selects a panel) still appends
    a snapshot, equal to the current mapping, to the history. *)
Theorem select_twice_terminates panelsData bounds canvasSize features s e st :
  panelsData = Some features ->
  belowThreshold s e = false ->
  let inSel index :=
    isPanelInSelection panelsData bounds canvasSize index (Some s) (Some e) in
  let sel :=
    applySelection panelsData bounds canvasSize (Some s) (Some e) false in
  (forall index side,
     inSel index = true ->
     endState (panelStates (sel (sel st))) index side = TERMINATED) /\
  panelStates (sel (sel (sel st))) = panelStates (sel (sel st)) /\
  (forall index,
     reachable panelsData bounds canvasSize st ->
     inSel index = true ->
     history (sel (sel (sel st)))
     = history (sel (sel st)) ++ [panelStates (sel (sel st))] /\
     historyIndex (sel (sel (sel st))) = historyIndex (sel (sel st)) + 1).
Proof.
  intros Hd Hth inSel sel.
  assert (forall index side,
            inSel index = true ->
            endState (panelStates (sel (sel st))) index side = TERMINATED)
    as Hterm.
  { intros index side Hsel.
    rewrite (endState_selectionEntry _ false (panelStates (sel st)) index).
    - rewrite (endState_selectionEntry _ false (panelStates st) index).
      + apply selectNext_twice.
      + subst sel. rewrite (select_lookup _ _ _ features) by done.
        fold (inSel index). by rewrite Hsel.
    - subst sel. rewrite (select_lookup _ _ _ features) by done.
      fold (inSel index). by rewrite Hsel. }
  split; [exact Hterm|]. split.
  - apply map_eq. intros index. subst sel.
    rewrite (select_lookup _ _ _ features _ _ _ _ index) by done.
    fold (inSel index). destruct (inSel index) eqn:Hsel; [|done].
    rewrite (select_lookup _ _ _ features _ _ _ _ index) by done.
    fold (inSel index). rewrite Hsel. unfold selectionEntry at 1.
    rewrite !Hterm by done.
    unfold selectionEntry. f_equal. f_equal.
    + f_equal. symmetry.
      rewrite (endState_selectionEntry _ false (panelStates st) index).
      * apply selectNext_twice.
      * rewrite (select_lookup _ _ _ features) by done.
        fold (inSel index). by rewrite Hsel.
    + f_equal. symmetry.
      rewrite (endState_selectionEntry _ false (panelStates st) index).
      * apply selectNext_twice.
      * rewrite (select_lookup _ _ _ features) by done.
        fold (inSel index). by rewrite Hsel.
  - intros index Hr Hsel.
    pose proof (reachable_inv _ _ _ st Hr) as Hinv.
    pose proof (select_inv panelsData bounds canvasSize st (Some s) (Some e)
                  false Hinv) as [Hinv1 _].
    pose proof (select_inv panelsData bounds canvasSize _ (Some s) (Some e)
                  false Hinv1) as [Hinv2 _].
    fold sel in Hinv1, Hinv2.
    pose proof (select_pushes panelsData bounds canvasSize _ s e false index
                  Hinv1 Hth Hsel) as Hlast.
    fold sel in Hlast.
    pose proof Hinv2 as (Hlt2 & _ & _).
    pose proof (select_pushed panelsData bounds canvasSize features s e false
                  (sel (sel st)) index Hd Hlt2 Hth Hsel) as Hp.
    cbv zeta in Hp. fold sel in Hp.
    assert (panelStates (sel (sel (sel st))) = panelStates (sel (sel st)))
      as Hsame.
    { apply map_eq. intros j. subst sel.
      rewrite (select_lookup _ _ _ features _ _ _ _ j) by done.
      fold (inSel j). destruct (inSel j) eqn:Hj; [|done].
      rewrite (select_lookup _ _ _ features _ _ _ _ j) by done.
      fold (inSel j). rewrite Hj. unfold selectionEntry at 1.
      rewrite !Hterm by done.
      unfold selectionEntry. f_equal. f_equal.
      - f_equal. symmetry.
        rewrite (endState_selectionEntry _ false (panelStates st) j).
        + apply selectNext_twice.
        + rewrite (select_lookup _ _ _ features) by done.
          fold (inSel j). by rewrite Hj.
      - f_equal. symmetry.
        rewrite (endState_selectionEntry _ false (panelStates st) j).
        + apply selectNext_twice.
        + rewrite (select_lookup _ _ _ features) by done.
          fold (inSel j). by rewrite Hj. }
    rewrite Hp. cbn [history historyIndex]. rewrite Hsame.
    split; [|done]. f_equal.
    apply take_ge. lia.
Qed.

Lemma select_twice_terminates_witness :
  siteData = Some sitePanels /\
  belowThreshold (pt 0 0) (pt 1200 900) = false /\
  forall index side,
    isPanelInSelection siteData siteBounds loadedCanvas index
                       (Some (pt 0 0)) (Some (pt 1200 900)) = true ->
    endState
      (panelStates
         (applySelection siteData siteBounds loadedCanvas
            (Some (pt 0 0)) (Some (pt 1200 900)) false
            (applySelection siteData siteBounds loadedCanvas
               (Some (pt 0 0)) (Some (pt 1200 900)) false initialEditor)))
      index side
    = TERMINATED.
Proof.
  assert (belowThreshold (pt 0 0) (pt 1200 900) = false) as Hth
    by (vm_compute; reflexivity).
  split; [reflexivity|]. split; [exact Hth|].
  exact (proj1 (select_twice_terminates siteData siteBounds loadedCanvas
                  sitePanels (pt 0 0) (pt 1200 900) initialEditor
                  eq_refl Hth)).
Defined.

(** ** The geometry utilities *)

(** X7: the segment test does not depend on which segment comes first:
    [segmentsIntersect(p1, p2, q1, q2)] and [segmentsIntersect(q1, q2, p1,
    p2)] agree on all inputs, non-finite coordinates included. *)
Theorem segmentsIntersect_swap p1 p2 q1 q2 :
  segmentsIntersect p1 p2 q1 q2 = segmentsIntersect q1 q2 p1 p2.
Proof.
  unfold segmentsIntersect. cbv zeta.
  destruct (jsLt (jsAbs (orient p1 p2 q1)) eps6 && onSegment p1 p2 q1),
    (jsLt (jsAbs (orient p1 p2 q2)) eps6 && onSegment p1 p2 q2),
    (jsLt (jsAbs (orient q1 q2 p1)) eps6 && onSegment q1 q2 p1),
    (jsLt (jsAbs (orient q1 q2 p2)) eps6 && onSegment q1 q2 p2);
    try reflexivity.
  apply andb_comm.
Qed.

(** ** Drags over the whole canvas *)

Lemma joinText_coordinates text panel :
  coordinates (joinText text panel) = coordinates panel.
Proof. unfold joinText. by destruct (find _ text). Qed.

Lemma loadSite_lookup panels line invPoint text index feature :
  site_panels (loadSite panels line invPoint text) !! index = Some feature ->
  exists panel,
    panels !! index = Some panel /\
    coordinates feature = coordinates panel.
Proof.
  unfold loadSite. cbn [site_panels]. intros H.
  apply list_lookup_fmap_Some in H as (panel & -> & Hp).
  exists panel. split; [done|]. apply joinText_coordinates.
Qed.

Lemma gatherCoords_panel panels line invPoint text index panel c :
  panels !! index = Some panel ->
  c ∈ coordinates panel ->
  c ∈ gatherCoords panels line invPoint text.
Proof.
  intros Hp Hc. unfold gatherCoords. apply elem_of_app. left.
  apply list_elem_of_In, in_concat. exists (coordinates panel).
  split; [|by apply list_elem_of_In].
  apply in_map, list_elem_of_In. by eapply list_elem_of_lookup_2.
Qed.

Lemma allFinite_elem l c :
  allFinite l = true -> c ∈ l -> isFinite (fst c) && isFinite (snd c) = true.
Proof.
  unfold allFinite. rewrite forallb_forall. intros H Hin.
  apply H. by apply list_elem_of_In.
Qed.

Lemma allFinite_sub l l' :
  allFinite l = true -> (forall c, c ∈ l' -> c ∈ l) -> allFinite l' = true.
Proof.
  intros H Hsub. unfold allFinite. apply forallb_forall. intros c Hc.
  apply (allFinite_elem l); [done|]. by apply Hsub, list_elem_of_In.
Qed.

Lemma uniqueCoords_head coords :
  2 <= length coords ->
  exists c rest, uniqueCoords coords = c :: rest /\ c ∈ coords.
Proof.
  intros Hlen. destruct coords as [|c0 [|c1 l]]; [simpl in Hlen; lia..|].
  unfold uniqueCoords. cbn [head].
  destruct (last (c0 :: c1 :: l)) as [cl|]; [|by eexists _, _; split; [|left]].
  destruct (_ && _).
  - exists c0, (removelast (c1 :: l)). split; [done|left].
  - by eexists _, _; split; [|left].
Qed.

Lemma isPointInBox_pt (x y x0 x1 y0 y1 : Q) :
  (x0 <= x <= x1)%Q -> (y0 <= y <= y1)%Q ->
  isPointInBox (pt x y) (jsMin (Fin x0) (Fin x1)) (jsMax (Fin x0) (Fin x1))
               (jsMin (Fin y0) (Fin y1)) (jsMax (Fin y0) (Fin y1)) = true.
Proof.
  intros [Hx0 Hx1] [Hy0 Hy1].
  assert (Qle_bool x0 x1 = true) as Ex by (apply Qle_bool_iff; lra).
  assert (Qle_bool y0 y1 = true) as Ey by (apply Qle_bool_iff; lra).
  unfold isPointInBox, jsMin, jsMax, jsGe, jsLe, pt. cbn [px py].
  rewrite Ex, Ey.
  rewrite !andb_true_iff. repeat split; apply Qle_bool_iff; lra.
Qed.

Section WholeCanvas.

Variable panels : list Feature.
Variable line : list (option (list Coord)).
Variable invPoint : list (option (list Coord)).
Variable text : list TextFeature.

Hypothesis Hfinite : allFinite (gatherCoords panels line invPoint text) = true.

Abbreviation site := (loadSite panels line invPoint text).
Abbreviation data := (Some (site_panels site)).

Variables x0 y0 x1 y1 : Q.
Hypothesis Hx0 : (x0 <= 0)%Q.
Hypothesis Hy0 : (y0 <= 0)%Q.
Hypothesis Hx1 : (1200 <= x1)%Q.
Hypothesis Hy1 : (900 <= y1)%Q.

Abbreviation inBox index :=
  (isPanelInSelection data (site_bounds site) (site_canvas site) index
                      (Some (pt x0 y0)) (Some (pt x1 y1))).

Lemma feature_finite index feature :
  site_panels site !! index = Some feature ->
  allFinite (coordinates feature) = true.
Proof.
  intros Hf. destruct (loadSite_lookup _ _ _ _ _ _ Hf) as (panel & Hp & Hc).
  rewrite Hc. apply (allFinite_sub _ _ Hfinite).
  intros c. by apply (gatherCoords_panel _ _ _ _ index panel).
Qed.

Lemma drawn_in_box index feature :
  site_panels site !! index = Some feature ->
  2 <= length (coordinates feature) ->
  inBox index = true.
Proof.
  intros Hf Hlen.
  destruct (loadSite_lookup _ _ _ _ _ _ Hf) as (panel & Hp & Hc).
  destruct (uniqueCoords_head _ Hlen) as (c & rest & Hu & Hin).
  rewrite Hc in Hin.
  pose proof (gatherCoords_panel _ line invPoint text _ _ _ Hp Hin) as Hg.
  destruct (loadSite_inside _ _ _ _ c Hfinite Hg) as (x & y & Hxy & Hx & Hy).
  unfold isPanelInSelection, getPanelEnds.
  cbn [mbind option_bind]. rewrite Hf. cbn [mbind option_bind].
  unfold panelEndsOf. cbn [allPoints]. unfold svgPtsOf. rewrite Hu.
  cbn [map length Nat.eqb existsb]. rewrite Hxy.
  cbn [px py pt].
  change (mkPoint (Fin x) (Fin y)) with (pt x y).
  rewrite isPointInBox_pt by lra. done.
Qed.

Lemma touched_in_box st index entry :
  reachable data (site_bounds site) (site_canvas site) st ->
  panelStates st !! index = Some entry ->
  inBox index = true.
Proof.
  intros Hr He.
  pose proof (historyInv_current _ _ (reachable_inv _ _ _ st Hr)) as Hk.
  pose proof (Hk index entry He) as Hlt. cbn [panelCount] in Hlt.
  destruct (lookup_lt_is_Some_2 _ _ Hlt) as [feature Hf].
  destruct (decide (2 <= length (coordinates feature))) as [Hlen|Hshort].
  - by eapply drawn_in_box.
  - destruct (reachable_untouched _ (site_bounds site) (site_canvas site)
                index feature Hf ltac:(lia) (feature_finite _ _ Hf) st Hr)
      as [Hnone _].
    congruence.
Qed.

End WholeCanvas.

Lemma wide_drag_not_click (x0 y0 x1 y1 : Q) :
  (x0 <= 0)%Q -> (1200 <= x1)%Q ->
  belowThreshold (pt x0 y0) (pt x1 y1) = false.
Proof.
  intros Hx0 Hx1. unfold belowThreshold, pt, threshold.
  cbn [px py jsSub jsNeg jsAdd jsAbs jsLt].
  assert (Qlt_bool (Qabs (x1 + - x0)) (5 # 100) = false) as ->; [|done].
  destruct (Qlt_bool _ _) eqn:E; [|done].
  apply Qlt_bool_iff in E. rewrite Qabs_pos in E by lra. lra.
Qed.

Lemma endsWith_none P (ps : PanelStates) n :
  P NONE = false ->
  (forall index side, endState ps index side = NONE) ->
  endsWith P ps n = 0%Z.
Proof.
  intros HP Hall. unfold endsWith.
  induction (allEnds n) as [|[index side] l IH]; [done|].
  cbn [List.filter]. by rewrite Hall, HP.
Qed.

(** X9: a right-button drag over the whole canvas resets everything.  For
    a loaded site with finite positions and any reachable state, the
    mouse-up that ends an unselect drag covering the canvas leaves every
    end of every panel [NONE]; both counters then show no completed end,
    and as many remaining ends as the total. *)
Theorem unselect_all_resets panels line invPoint text st
    (x0 y0 x1 y1 : Q) clicked :
  let site := loadSite panels line invPoint text in
  let data := Some (site_panels site) in
  allFinite (gatherCoords panels line invPoint text) = true ->
  reachable data (site_bounds site) (site_canvas site) st ->
  (x0 <= 0)%Q -> (y0 <= 0)%Q -> (1200 <= x1)%Q -> (900 <= y1)%Q ->
  let st' :=
    handleMouseUp data (site_bounds site) (site_canvas site)
      (mkGesture true (Some (pt x0 y0)) (Some (pt x1 y1)) true clicked) st in
  (forall index side, endState (panelStates st') index side = NONE) /\
  completed (mc4 data (panelStates st')) = 0%Z /\
  completed (termination data (panelStates st')) = 0%Z /\
  remaining (mc4 data (panelStates st')) = total (mc4 data (panelStates st')) /\
  remaining (termination data (panelStates st'))
  = total (termination data (panelStates st')).
Proof.
  intros site data Hfin Hr Hx0 Hy0 Hx1 Hy1 st'.
  pose proof (wide_drag_not_click x0 y0 x1 y1 Hx0 Hx1) as Hth.
  assert (st' = applySelection data (site_bounds site) (site_canvas site)
                  (Some (pt x0 y0)) (Some (pt x1 y1)) true st) as Hst'.
  { subst st'. unfold handleMouseUp.
    cbn [isSelecting selectionStart selectionEnd isUnselectMode
         clickedPanelIndex].
    by rewrite Hth. }
  assert (forall index side, endState (panelStates st') index side = NONE)
    as Hall.
  { intros index side. rewrite Hst'. unfold endState.
    rewrite (select_lookup _ _ _ (site_panels site)) by done.
    destruct (isPanelInSelection _ _ _ index _ _) eqn:Hsel.
    - unfold selectionEntry. by destruct side.
    - destruct (panelStates st !! index) as [entry|] eqn:He; [|done].
      pose proof (touched_in_box panels line invPoint text Hfin x0 y0 x1 y1
                    Hx0 Hy0 Hx1 Hy1 st index entry Hr He) as Hin.
      fold site in Hin. fold data in Hin. congruence. }
  split; [exact Hall|].
  pose proof (reachable_inv _ _ _ st Hr) as Hinv.
  pose proof (select_inv data (site_bounds site) (site_canvas site) st
                (Some (pt x0 y0)) (Some (pt x1 y1)) true Hinv) as [Hinv' _].
  rewrite <- Hst' in Hinv'.
  pose proof (historyInv_current _ _ Hinv') as Hk.
  unfold mc4, termination. rewrite (counters_unfold _ (panelStates st') Hk).
  cbn [fst snd total completed remaining].
  rewrite !endsWith_none by done. repeat split; lia.
Qed.

Lemma loadedClicked_reachable :
  reachable (Some (site_panels siteLoaded)) (site_bounds siteLoaded)
            (site_canvas siteLoaded) loadedClicked.
Proof.
  eapply reachable_step; [apply reachable_init|].
  apply step_mouseUp. intros index [= <-].
  exists (site_panels siteLoaded), sitePanel0.
  split; [reflexivity|]. split; [vm_compute; reflexivity | simpl; lia].
Qed.

Lemma unselect_all_resets_witness :
  allFinite (gatherCoords sitePanels siteLine [] siteText) = true /\
  reachable (Some (site_panels siteLoaded)) (site_bounds siteLoaded)
            (site_canvas siteLoaded) loadedClicked /\
  endState (panelStates loadedClicked) 0 SideLeft = MC4_INSTALLED /\
  (0 <= 0)%Q /\ (1200 <= 1200)%Q /\ (900 <= 900)%Q /\
  forall index side,
    endState
      (panelStates
         (handleMouseUp (Some (site_panels siteLoaded))
            (site_bounds siteLoaded) (site_canvas siteLoaded)
            (mkGesture true (Some (pt 0 0)) (Some (pt 1200 900)) true None)
            loadedClicked))
      index side
    = NONE.
Proof.
  assert (allFinite (gatherCoords sitePanels siteLine [] siteText) = true)
    as Hfin by (vm_compute; reflexivity).
  assert (endState (panelStates loadedClicked) 0 SideLeft = MC4_INSTALLED)
    as Hc by (vm_compute; reflexivity).
  assert (0 <= 0)%Q as H0 by lra.
  assert (1200 <= 1200)%Q as H1 by lra.
  assert (900 <= 900)%Q as H2 by lra.
  split; [exact Hfin|]. split; [exact loadedClicked_reachable|].
  split; [exact Hc|]. split; [exact H0|]. split; [exact H1|].
  split; [exact H2|].
  exact (proj1 (unselect_all_resets sitePanels siteLine [] siteText
                  loadedClicked 0 0 1200 900 None Hfin
                  loadedClicked_reachable H0 H0 H1 H2)).
Defined.

(** ** Selecting and deleting notes *)

Lemma selectedIds_spec (box : Note -> bool) (l : list Note) (acc : gset Z)
    (i : Z) :
  i ∈ foldl (fun acc note => if box note then {[ id note ]} ∪ acc else acc)
            acc l
  <-> i ∈ acc \/ exists n, n ∈ l /\ box n = true /\ id n = i.
Proof.
  revert acc. induction l as [|n l IH]; intros acc; cbn [foldl].
  - split; [by left|]. intros [H|(n & Hn & _)]; [done|].
    by apply elem_of_nil in Hn.
  - rewrite IH. split.
    + intros [H|(m & Hm & Hb & Hi)].
      * destruct (box n) eqn:E; [|by left].
        apply elem_of_union in H as [H|H]; [|by left].
        apply elem_of_singleton in H. right. exists n.
        split; [left|done].
      * right. exists m. split; [by right|done].
    + intros [H|(m & Hm & Hb & Hi)].
      * left. destruct (box n); [|done]. apply elem_of_union. by right.
      * apply elem_of_cons in Hm as [->|Hm].
        -- left. rewrite Hb. apply elem_of_union. left.
           by apply elem_of_singleton.
        -- right. by exists m.
Qed.

Lemma drag_selects now s e nl :
  belowThreshold s e = false ->
  handleMouseUpNote now (noteDrag s e) nl
  = {| notes := notes nl;
       editingNote := editingNote nl;
       selectedNotes :=
         foldl (fun acc note =>
                  if noteBox s e note then {[ id note ]} ∪ acc else acc)
               ∅ (notes nl) |}.
Proof.
  intros Hth. unfold handleMouseUpNote, noteDrag.
  cbn [isNoteSelecting noteSelectionStart noteSelectionEnd].
  by rewrite Hth.
Qed.

Lemma filter_all {A : Type} (P : A -> bool) (l : list A) :
  (forall x, x ∈ l -> P x = true) -> List.filter P l = l.
Proof.
  induction l as [|x l IH]; intros H; [done|]. cbn [List.filter].
  rewrite (H x) by left. f_equal. apply IH. intros y Hy. apply H. by right.
Qed.

Lemma filter_ext_elem {A : Type} (P Q : A -> bool) (l : list A) :
  (forall x, x ∈ l -> P x = Q x) -> List.filter P l = List.filter Q l.
Proof.
  induction l as [|x l IH]; intros H; [done|]. cbn [List.filter].
  rewrite (H x) by left. rewrite IH; [done|].
  intros y Hy. apply H. by right.
Qed.

(** X10: dragging a rectangle over notes and pressing Delete.  After a
    note drag (not a click) followed by the Delete key in note mode, no note
    inside the rectangle is left, every note left was there before, and a
    note outside the rectangle is kept unless it shares its id with a note
    inside; when the ids are distinct the notes left are exactly the notes
    outside the rectangle, in their order.  The selection is empty
    afterwards and the note being edited is not changed. *)
Theorem drag_then_delete now s e nl :
  belowThreshold s e = false ->
  let nl' := handleDeleteKey true (handleMouseUpNote now (noteDrag s e) nl) in
  (forall n, n ∈ notes nl' -> n ∈ notes nl /\ noteBox s e n = false) /\
  (forall n,
     n ∈ notes nl -> noteBox s e n = false ->
     (forall m, m ∈ notes nl -> noteBox s e m = true -> id m <> id n) ->
     n ∈ notes nl') /\
  (NoDup (map id (notes nl)) ->
   notes nl' = List.filter (fun n => negb (noteBox s e n)) (notes nl)) /\
  selectedNotes nl' = ∅ /\
  editingNote nl' = editingNote nl.
Proof.
  intros Hth nl'. subst nl'. rewrite (drag_selects now s e nl Hth).
  set (sel := foldl _ ∅ (notes nl)).
  assert (forall i, i ∈ sel <->
                    exists n, n ∈ notes nl /\ noteBox s e n = true /\ id n = i)
    as Hsel.
  { intros i. subst sel. rewrite selectedIds_spec. split.
    - intros [H|H]; [set_solver|done].
    - intros H. by right. }
  unfold handleDeleteKey. cbn [selectedNotes notes editingNote].
  destruct (0 <? size sel) eqn:Esz; cbn [selectedNotes notes editingNote].
  - split; [|split; [|split; [|done]]].
    + intros n Hn. apply list_elem_of_In, filter_In in Hn as [Hin Hb].
      apply list_elem_of_In in Hin. split; [done|].
      apply negb_true_iff, bool_decide_eq_false in Hb.
      destruct (noteBox s e n) eqn:E; [|done].
      exfalso. apply Hb, Hsel. by exists n.
    + intros n Hn Hout Hid. apply list_elem_of_In, filter_In.
      split; [by apply list_elem_of_In|].
      apply negb_true_iff, bool_decide_eq_false.
      intros (m & Hm & Hbm & Hidm)%Hsel. by apply (Hid m).
    + intros Hnd. apply filter_ext_elem. intros n Hn. f_equal.
      destruct (noteBox s e n) eqn:E.
      * apply bool_decide_eq_true. apply Hsel. by exists n.
      * apply bool_decide_eq_false.
        intros (m & Hm & Hbm & Hidm)%Hsel.
        assert (m = n) as ->; [|congruence].
        apply list_elem_of_lookup in Hm as [i Hi].
        apply list_elem_of_lookup in Hn as [j Hj].
        assert (i = j) as ->; [|congruence].
        apply (NoDup_lookup _ i j (id n) Hnd).
        -- by rewrite list_lookup_fmap, Hi; simpl; rewrite Hidm.
        -- by rewrite list_lookup_fmap, Hj.
  - apply Nat.ltb_ge in Esz.
    assert (sel = ∅) as Hempty.
    { apply leibniz_equiv, size_empty_inv. lia. }
    assert (forall n, n ∈ notes nl -> noteBox s e n = false) as Hnone.
    { intros n Hn. destruct (noteBox s e n) eqn:E; [|done].
      exfalso. assert (id n ∈ sel) as H by (apply Hsel; by exists n).
      rewrite Hempty in H. set_solver. }
    split; [|split; [|split; [|done]]].
    + intros n Hn. split; [done|]. by apply Hnone.
    + by intros n Hn _ _.
    + intros _. symmetry. apply filter_all. intros n Hn.
      by rewrite (Hnone n Hn).
Qed.

Lemma drag_then_delete_witness :
  belowThreshold (pt 0 0) (pt 150 150) = false /\
  NoDup (map id (notes twoNotes)) /\
  notes (handleDeleteKey true
           (handleMouseUpNote 3 (noteDrag (pt 0 0) (pt 150 150)) twoNotes))
  = List.filter (fun n => negb (noteBox (pt 0 0) (pt 150 150) n))
                (notes twoNotes).
Proof.
  assert (belowThreshold (pt 0 0) (pt 150 150) = false) as Hth
    by (vm_compute; reflexivity).
  assert (NoDup (map id (notes twoNotes))) as Hnd.
  { apply (bool_decide_unpack _). vm_compute. exact I. }
  split; [exact Hth|]. split; [exact Hnd|].
  exact (proj1 (proj2 (proj2 (drag_then_delete 3 (pt 0 0) (pt 150 150)
                                twoNotes Hth))) Hnd).
Defined.

(** ** Zooming and panning *)

Lemma canvasToScreen_finite (l t rw rh x y w h cx cy : Q) :
  ~ (w == 0)%Q -> ~ (h == 0)%Q ->
  canvasToScreen (Some (rectQ l t rw rh)) (viewQ x y w h) (Fin cx) (Fin cy)
  = pt ((cx + - x) / w * rw + l) ((cy + - y) / h * rh + t).
Proof.
  intros Hw Hh. unfold canvasToScreen, rectQ, viewQ, pt.
  cbn [view_x view_y view_width view_height rect_left rect_top rect_width
       rect_height jsSub jsNeg jsAdd].
  rewrite !jsDiv_Fin by done. reflexivity.
Qed.

Lemma zoom_finite (l t rw rh x y w h : Q) (zoomIn : bool)
    (centerX centerY : option Q) :
  ~ (rw == 0)%Q -> ~ (rh == 0)%Q ->
  let mx := default (rw / 2)%Q centerX in
  let my := default (rh / 2)%Q centerY in
  let f := (if zoomIn then 8 # 10 else 125 # 100)%Q in
  zoom (Some (rectQ l t rw rh)) zoomIn (Fin <$> centerX) (Fin <$> centerY)
       (viewQ x y w h)
  = viewQ (x + mx / rw * w + - (mx / rw * (w * f)))
          (y + my / rh * h + - (my / rh * (h * f)))
          (w * f) (h * f).
Proof.
  intros Hrw Hrh mx my f. subst mx my f.
  unfold zoom, rectQ, viewQ.
  cbn [view_x view_y view_width view_height rect_left rect_top rect_width
       rect_height].
  assert (~ (2 == 0)%Q) as H2 by (intros H; discriminate H).
  destruct centerX as [cx|], centerY as [cy|], zoomIn;
    cbn [fmap option_fmap option_map default jsSub jsNeg jsAdd jsMul];
    rewrite ?jsDiv_Fin by done;
    cbn [jsSub jsNeg jsAdd jsMul]; rewrite ?jsDiv_Fin by done;
    reflexivity.
Qed.

Lemma zoomFactor_nonzero (zoomIn : bool) :
  ~ ((if zoomIn then 8 # 10 else 125 # 100) == 0)%Q.
Proof. destruct zoomIn; intros H; discriminate H. Qed.

(** X11: zooming scales the drawing about its anchor.  With a mounted
    element of non-zero size and a view of non-zero size, a zoom step moves
    the screen position of every canvas point along the line through the
    anchor (the given centre, or the middle of the element), at 5/4 of its
    distance from the anchor when zooming in and at 4/5 when zooming out;
    the canvas point shown at the anchor stays where it is. *)
Theorem zoom_scales_about_anchor (l t rw rh x y w h cx cy : Q)
    (zoomIn : bool) (centerX centerY : option Q) :
  ~ (rw == 0)%Q -> ~ (rh == 0)%Q -> ~ (w == 0)%Q -> ~ (h == 0)%Q ->
  let rect := Some (rectQ l t rw rh) in
  let prev := viewQ x y w h in
  let next := zoom rect zoomIn (Fin <$> centerX) (Fin <$> centerY) prev in
  let ax := (l + default (rw / 2) centerX)%Q in
  let ay := (t + default (rh / 2) centerY)%Q in
  exists sx sy sx' sy' : Q,
    canvasToScreen rect prev (Fin cx) (Fin cy) = pt sx sy /\
    canvasToScreen rect next (Fin cx) (Fin cy) = pt sx' sy' /\
    (sx' - ax == zoomScale zoomIn * (sx - ax))%Q /\
    (sy' - ay == zoomScale zoomIn * (sy - ay))%Q.
Proof.
  intros Hrw Hrh Hw Hh rect prev next ax ay. subst rect prev next ax ay.
  pose proof (zoom_finite l t rw rh x y w h zoomIn centerX centerY Hrw Hrh)
    as Hz.
  cbv zeta in Hz. rewrite Hz.
  pose proof (zoomFactor_nonzero zoomIn) as Hf.
  set (f := (if zoomIn then 8 # 10 else 125 # 100)%Q) in *.
  assert (~ (w * f == 0)%Q) as Hwf
    by (intros H0; apply Qmult_integral in H0; tauto).
  assert (~ (h * f == 0)%Q) as Hhf
    by (intros H0; apply Qmult_integral in H0; tauto).
  rewrite (canvasToScreen_finite l t rw rh x y w h cx cy Hw Hh).
  rewrite (canvasToScreen_finite l t rw rh _ _ (w * f) (h * f) cx cy Hwf Hhf).
  eexists _, _, _, _. split; [reflexivity|]. split; [reflexivity|].
  subst f. unfold zoomScale.
  destruct zoomIn, centerX, centerY; cbn [default]; split; field;
    repeat split; done.
Qed.

Lemma zoom_scales_about_anchor_witness :
  ~ (1200 == 0)%Q /\ ~ (900 == 0)%Q /\
  exists sx sy sx' sy' : Q,
    canvasToScreen (Some (rectQ 10 20 1200 900)) (viewQ 0 0 1200 900)
                   (Fin 300) (Fin 300) = pt sx sy /\
    canvasToScreen (Some (rectQ 10 20 1200 900))
                   (zoom (Some (rectQ 10 20 1200 900)) true None None
                         (viewQ 0 0 1200 900))
                   (Fin 300) (Fin 300) = pt sx' sy' /\
    (sx' - (10 + 1200 / 2) == (5 # 4) * (sx - (10 + 1200 / 2)))%Q /\
    (sy' - (20 + 900 / 2) == (5 # 4) * (sy - (20 + 900 / 2)))%Q.
Proof.
  assert (~ (1200 == 0)%Q) as H1 by (intros H; discriminate H).
  assert (~ (900 == 0)%Q) as H2 by (intros H; discriminate H).
  split; [exact H1|]. split; [exact H2|].
  exact (zoom_scales_about_anchor 10 20 1200 900 0 0 1200 900 300 300 true
           None None H1 H2 H1 H2).
Defined.

Lemma wheel_finite (l t rw rh x y w h clientX clientY dy : Q) :
  ~ (rw == 0)%Q -> ~ (rh == 0)%Q ->
  let f := (if Qlt_bool 0 dy then 11 # 10 else 9 # 10)%Q in
  wheelHandler (rectQ l t rw rh) (Fin clientX) (Fin clientY) (Fin dy)
               (viewQ x y w h)
  = viewQ (x + (clientX + - l) / rw * w + - ((clientX + - l) / rw * (w * f)))
          (y + (clientY + - t) / rh * h + - ((clientY + - t) / rh * (h * f)))
          (w * f) (h * f).
Proof.
  intros Hrw Hrh f. subst f. unfold wheelHandler, rectQ, viewQ.
  cbn [view_x view_y view_width view_height rect_left rect_top rect_width
       rect_height jsSub jsNeg jsAdd jsGt jsLt].
  rewrite !jsDiv_Fin by done.
  destruct (Qlt_bool 0 dy); reflexivity.
Qed.

(** X12: the wheel zooms about the pointer.  With an element and a view
    of non-zero size, one wheel event moves the screen position of every
    canvas point along the line through the pointer, at 10/11 of its
    distance from the pointer when [deltaY] is positive and at 10/9
    otherwise; the canvas point under the pointer stays under it. *)
Theorem wheel_scales_about_pointer
    (l t rw rh x y w h cx cy clientX clientY dy : Q) :
  ~ (rw == 0)%Q -> ~ (rh == 0)%Q -> ~ (w == 0)%Q -> ~ (h == 0)%Q ->
  let rect := rectQ l t rw rh in
  let prev := viewQ x y w h in
  let next := wheelHandler rect (Fin clientX) (Fin clientY) (Fin dy) prev in
  let k := wheelScale (Qlt_bool 0 dy) in
  exists sx sy sx' sy' : Q,
    canvasToScreen (Some rect) prev (Fin cx) (Fin cy) = pt sx sy /\
    canvasToScreen (Some rect) next (Fin cx) (Fin cy) = pt sx' sy' /\
    (sx' - clientX == k * (sx - clientX))%Q /\
    (sy' - clientY == k * (sy - clientY))%Q.
Proof.
  intros Hrw Hrh Hw Hh rect prev next k. subst rect prev next k.
  pose proof (wheel_finite l t rw rh x y w h clientX clientY dy Hrw Hrh)
    as Hz.
  cbv zeta in Hz. rewrite Hz.
  set (f := (if Qlt_bool 0 dy then 11 # 10 else 9 # 10)%Q) in *.
  assert (~ (f == 0)%Q) as Hf
    by (subst f; destruct (Qlt_bool 0 dy); intros H; discriminate H).
  assert (~ (w * f == 0)%Q) as Hwf
    by (intros H0; apply Qmult_integral in H0; tauto).
  assert (~ (h * f == 0)%Q) as Hhf
    by (intros H0; apply Qmult_integral in H0; tauto).
  rewrite (canvasToScreen_finite l t rw rh x y w h cx cy Hw Hh).
  rewrite (canvasToScreen_finite l t rw rh _ _ (w * f) (h * f) cx cy Hwf Hhf).
  eexists _, _, _, _. split; [reflexivity|]. split; [reflexivity|].
  subst f. unfold wheelScale.
  destruct (Qlt_bool 0 dy); split; field; repeat split; done.
Qed.

Lemma wheel_scales_about_pointer_witness :
  ~ (1200 == 0)%Q /\ ~ (900 == 0)%Q /\
  exists sx sy sx' sy' : Q,
    canvasToScreen (Some (rectQ 10 20 1200 900)) (viewQ 0 0 1200 900)
                   (Fin 300) (Fin 300) = pt sx sy /\
    canvasToScreen (Some (rectQ 10 20 1200 900))
                   (wheelHandler (rectQ 10 20 1200 900) (Fin 110) (Fin 220)
                                 (Fin 3) (viewQ 0 0 1200 900))
                   (Fin 300) (Fin 300) = pt sx' sy' /\
    (sx' - 110 == wheelScale (Qlt_bool 0 3) * (sx - 110))%Q /\
    (sy' - 220 == wheelScale (Qlt_bool 0 3) * (sy - 220))%Q.
Proof.
  assert (~ (1200 == 0)%Q) as H1 by (intros H; discriminate H).
  assert (~ (900 == 0)%Q) as H2 by (intros H; discriminate H).
  split; [exact H1|]. split; [exact H2|].
  exact (wheel_scales_about_pointer 10 20 1200 900 0 0 1200 900 300 300
           110 220 3 H1 H2 H1 H2).
Defined.

(** X13: zooming out undoes zooming in, and the other way round.  With a
    mounted element of non-zero size, a zoom-in step followed by a zoom-out
    step about the same anchor gives back the view, and so does a zoom-out
    step followed by a zoom-in step (both in exact arithmetic). *)
Theorem zoom_in_out_inverse (l t rw rh x y w h : Q) (zoomIn : bool)
    (centerX centerY : option Q) :
  ~ (rw == 0)%Q -> ~ (rh == 0)%Q ->
  let rect := Some (rectQ l t rw rh) in
  let cX := Fin <$> centerX in
  let cY := Fin <$> centerY in
  viewEq (zoom rect (negb zoomIn) cX cY (zoom rect zoomIn cX cY (viewQ x y w h)))
         (viewQ x y w h).
Proof.
  intros Hrw Hrh rect cX cY. subst rect cX cY.
  pose proof (zoom_finite l t rw rh x y w h zoomIn centerX centerY Hrw Hrh)
    as Hz.
  cbv zeta in Hz. rewrite Hz.
  pose proof (zoom_finite l t rw rh) as Hz2. cbv zeta in Hz2.
  rewrite Hz2 by done.
  unfold viewEq, viewQ.
  cbn [view_x view_y view_width view_height jsEq].
  destruct zoomIn; cbn [negb]; repeat split; field; done.
Qed.

Lemma zoom_in_out_inverse_witness :
  ~ (1200 == 0)%Q /\ ~ (900 == 0)%Q /\
  viewEq (zoom (Some (rectQ 10 20 1200 900)) false None None
            (zoom (Some (rectQ 10 20 1200 900)) true None None
                  (viewQ 0 0 1200 900)))
         (viewQ 0 0 1200 900).
Proof.
  assert (~ (1200 == 0)%Q) as H1 by (intros H; discriminate H).
  assert (~ (900 == 0)%Q) as H2 by (intros H; discriminate H).
  split; [exact H1|]. split; [exact H2|].
  exact (zoom_in_out_inverse 10 20 1200 900 0 0 1200 900 true None None
           H1 H2).
Defined.

(** X14: panning drags the drawing with the pointer.  With a mounted
    element and a view of non-zero size, a mouse move while panning shifts
    the screen position of every canvas point by the displacement of the
    pointer since the last pan position, keeps the size of the view, and
    records the pointer as the new pan position (exact arithmetic). *)
Theorem pan_follows_pointer
    (l t rw rh x y w h cx cy startX startY clientX clientY : Q) :
  ~ (rw == 0)%Q -> ~ (rh == 0)%Q -> ~ (w == 0)%Q -> ~ (h == 0)%Q ->
  let rect := Some (rectQ l t rw rh) in
  let prev := viewQ x y w h in
  let next :=
    panMove rect (Fin clientX) (Fin clientY) (pt startX startY) prev in
  snd next = pt clientX clientY /\
  view_width (fst next) = Fin w /\ view_height (fst next) = Fin h /\
  exists sx sy sx' sy' : Q,
    canvasToScreen rect prev (Fin cx) (Fin cy) = pt sx sy /\
    canvasToScreen rect (fst next) (Fin cx) (Fin cy) = pt sx' sy' /\
    (sx' == sx + (clientX - startX))%Q /\
    (sy' == sy + (clientY - startY))%Q.
Proof.
  intros Hrw Hrh Hw Hh rect prev next. subst rect prev next.
  unfold panMove, rectQ, viewQ, pt.
  cbn [view_x view_y view_width view_height rect_left rect_top rect_width
       rect_height jsSub jsNeg jsAdd px py fst snd].
  rewrite !jsDiv_Fin by done. cbn [jsMul jsAdd jsNeg].
  split; [done|]. split; [done|]. split; [done|].
  change (mkViewBox (Fin ?a) (Fin ?b) (Fin w) (Fin h)) with (viewQ a b w h).
  change (mkRect (Fin l) (Fin t) (Fin rw) (Fin rh)) with (rectQ l t rw rh).
  rewrite !canvasToScreen_finite by done.
  eexists _, _, _, _. split; [reflexivity|]. split; [reflexivity|].
  split; field; done.
Qed.

Lemma pan_follows_pointer_witness :
  ~ (1200 == 0)%Q /\ ~ (900 == 0)%Q /\
  snd (panMove (Some (rectQ 10 20 1200 900)) (Fin 130) (Fin 90) (pt 100 100)
               (viewQ 0 0 1200 900))
  = pt 130 90.
Proof.
  assert (~ (1200 == 0)%Q) as H1 by (intros H; discriminate H).
  assert (~ (900 == 0)%Q) as H2 by (intros H; discriminate H).
  split; [exact H1|]. split; [exact H2|].
  exact (proj1 (pan_follows_pointer 10 20 1200 900 0 0 1200 900 300 300
                  100 100 130 90 H1 H2 H1 H2)).
Defined.

(** ** Ray casting on a rectangle *)

(** On a vertical edge the abscissa of the crossing is the abscissa of the
    edge. *)
Lemma vertical_crossing (xe ya yb x y : float) :
  PrimFloat.is_finite xe = true ->
  PrimFloat.is_finite ya = true -> PrimFloat.is_finite yb = true ->
  PrimFloat.is_finite (y - ya)%float = true ->
  (yb - ya + Double.eps9 =? 0)%float = false ->
  PrimFloat.is_nan x = false ->
  (x <? (xe - xe) * (y - ya) / (yb - ya + Double.eps9) + xe)%float
  = (x <? xe)%float.
Proof.
  intros Hxe Hya Hyb Ht Hd Hx.
  assert (PrimFloat.is_nan (yb - ya + Double.eps9)%float = false) as Hn.
  { apply add_finite_number; [by apply sub_finite_number | reflexivity]. }
  destruct (mul_zero_l _ (y - ya)%float _ (sub_self xe Hxe) Ht) as [s1 H1].
  destruct (div_zero_l _ _ _ H1 Hd Hn) as [s2 H2].
  destruct (add_zero_l _ xe _ H2 (is_finite_number xe Hxe)) as [Hn' Hv].
  rewrite !ltb_value, Hv by (done || by apply is_finite_number). done.
Qed.

Lemma positive_not_zero d : (0 <? d)%float = true -> (d =? 0)%float = false.
Proof.
  intros H. destruct (ltb_numbers _ _ H) as [H0 Hd].
  rewrite ltb_value in H by done. rewrite eqb_value by done.
  apply Z.ltb_lt in H. apply Z.eqb_neq. lia.
Qed.

Lemma rising_edge_divisor (ya yb : float) :
  (ya <? yb)%float = true -> (yb - ya + Double.eps9 =? 0)%float = false.
Proof.
  intros H. apply positive_not_zero, add_positive; [|reflexivity].
  by rewrite sub_positive.
Qed.




(** The divisor of the falling edge is zero for a rectangle whose height
    is the double next to 1e-9: no point is then accepted. *)
Example rectangle_of_height_eps :
  (0 - Double.eps9 + Double.eps9 =? 0)%float = true /\
  Double.isPointInPolygon (Double.mkPoint 2 0x1p-31)
    [Double.mkPoint 0 0; Double.mkPoint 4 0;
     Double.mkPoint 4 Double.eps9; Double.mkPoint 0 Double.eps9]
  = false.
Proof. by vm_compute. Qed.

(** ** The earlier revision *)

(** X16: the pointer transform of the earlier revision and
    [canvasToScreen] are inverse to each other.  With a mounted element and
    a view of non-zero size, the canvas point computed for a pointer
    position is shown at that pointer position, and the screen position of
    a canvas point is mapped back to that canvas point. *)
Theorem pointer_round_trip (l t rw rh x y w h a b : Q) :
  ~ (rw == 0)%Q -> ~ (rh == 0)%Q -> ~ (w == 0)%Q -> ~ (h == 0)%Q ->
  let rect := Some (rectQ l t rw rh) in
  let viewBox := viewQ x y w h in
  (exists c,
     getSvgCoordsFromEventEarlier rect viewBox (Fin a) (Fin b) = Some c /\
     pointEq (canvasToScreen rect viewBox (px c) (py c)) (pt a b)) /\
  (exists c,
     getSvgCoordsFromEventEarlier rect viewBox
       (px (canvasToScreen rect viewBox (Fin a) (Fin b)))
       (py (canvasToScreen rect viewBox (Fin a) (Fin b))) = Some c /\
     pointEq c (pt a b)).
Proof.
  intros Hrw Hrh Hw Hh rect viewBox. subst rect viewBox.
  assert (forall u v : Q,
            getSvgCoordsFromEventEarlier (Some (rectQ l t rw rh))
              (viewQ x y w h) (Fin u) (Fin v)
            = Some (pt (x + (u + - l) / rw * w) (y + (v + - t) / rh * h)))
    as Hget.
  { intros u v. unfold getSvgCoordsFromEventEarlier, rectQ, viewQ, pt.
    cbn [view_x view_y view_width view_height rect_left rect_top rect_width
         rect_height jsSub jsNeg jsAdd].
    rewrite !jsDiv_Fin by done. reflexivity. }
  split.
  - eexists. split; [apply Hget|]. cbn [px py pt].
    rewrite canvasToScreen_finite by done.
    unfold pointEq, pt. cbn [px py jsEq]. split; field; done.
  - rewrite canvasToScreen_finite by done. cbn [px py pt].
    eexists. split; [apply Hget|].
    unfold pointEq, pt. cbn [px py jsEq]. split; field; done.
Qed.

Lemma pointer_round_trip_witness :
  ~ (1200 == 0)%Q /\ ~ (900 == 0)%Q /\
  exists c,
    getSvgCoordsFromEventEarlier (Some (rectQ 10 20 1200 900))
      (viewQ 5 5 1200 900) (Fin 110) (Fin 220) = Some c /\
    pointEq (canvasToScreen (Some (rectQ 10 20 1200 900)) (viewQ 5 5 1200 900)
                            (px c) (py c))
            (pt 110 220).
Proof.
  assert (~ (1200 == 0)%Q) as H1 by (intros H; discriminate H).
  assert (~ (900 == 0)%Q) as H2 by (intros H; discriminate H).
  split; [exact H1|]. split; [exact H2|].
  exact (proj1 (pointer_round_trip 10 20 1200 900 5 5 1200 900 110 220
                  H1 H2 H1 H2)).
Defined.

Lemma foldl_insert_const (f : nat -> PanelEntry) (l : list nat)
    (acc : PanelStates) (j : nat) :
  foldl (fun acc index => <[index := f index]> acc) acc l !! j
  = if bool_decide (j ∈ l) then Some (f j) else acc !! j.
Proof.
  pose proof (foldl_insert_lookup (fun _ => true) f l acc j) as H.
  cbn beta in H. by rewrite andb_true_r in H.
Qed.

(** X17: the box selection of the earlier revision is a global
    three-step cycle.  With the selection counter below 3 (it starts at 0)
    and a rectangle that contains the centre of some panel, every selected
    panel gets the same state on both ends, whatever its own state was:
    [MC4_INSTALLED] when the counter is 0, [TERMINATED] when it is 1, [NONE]
    when it is 2; the other panels keep their entry, the counter moves to
    the next value modulo 3, and one snapshot is pushed. *)
Theorem earlier_selection_cycle panelsData bounds canvasSize features s e st
    index :
  panelsData = Some features ->
  selectionCount st < 3 ->
  isPanelInSelectionEarlier panelsData bounds canvasSize index
                            (Some s) (Some e) = true ->
  let inSel i :=
    isPanelInSelectionEarlier panelsData bounds canvasSize i
                              (Some s) (Some e) in
  let st' :=
    applySelectionEarlier panelsData bounds canvasSize (Some s) (Some e) st in
  let v := earlierWrites (selectionCount st) in
  selectionCount st' = (selectionCount st + 1) mod 3 /\
  selectionCount st' < 3 /\
  (forall i,
     panelStates (editor st') !! i
     = if inSel i then Some (mkEntry (Some v) (Some v))
       else panelStates (editor st) !! i) /\
  history (editor st')
  = take (historyIndex (editor st) + 1) (history (editor st))
    ++ [panelStates (editor st')].
Proof.
  intros -> Hcount Hsel inSel st' v.
  assert (forall i, inSel i = true -> i < length features) as Hlt.
  { intros i Hi. subst inSel. cbv beta in Hi.
    unfold isPanelInSelectionEarlier in Hi.
    destruct (features !! i) eqn:E; [|done]. by eapply lookup_lt_Some. }
  assert (forall i,
            i ∈ List.filter inSel (seq 0 (length features))
            <-> inSel i = true) as Hmem.
  { intros i. rewrite list_elem_of_In, filter_In, in_seq. split; [tauto|].
    intros Hi. pose proof (Hlt i Hi). split; [lia|done]. }
  assert ((length (List.filter inSel (seq 0 (length features))) =? 0) = false)
    as Hne.
  { apply Nat.eqb_neq. intros Hz. apply nil_length_inv in Hz.
    assert (index ∈ List.filter inSel (seq 0 (length features))) as Hin
      by by apply Hmem.
    rewrite Hz in Hin. by apply elem_of_nil in Hin. }
  subst st'. unfold applySelectionEarlier.
  change (fun index : nat =>
            isPanelInSelectionEarlier (Some features) bounds canvasSize index
                                      (Some s) (Some e)) with inSel.
  rewrite Hne. unfold pushHistory.
  cbn [editor selectionCount panelStates history historyIndex].
  assert (selectionCount st = 0 \/ selectionCount st = 1
          \/ selectionCount st = 2) as Hc by lia.
  split; [|split; [|split; [|done]]].
  - destruct Hc as [Hc | [Hc | Hc]]; rewrite Hc; reflexivity.
  - destruct Hc as [Hc | [Hc | Hc]]; rewrite Hc; simpl; lia.
  - intros i. subst v.
    destruct Hc as [Hc | [Hc | Hc]]; rewrite Hc; cbn [Nat.modulo Nat.eqb earlierWrites];
      simpl; rewrite foldl_insert_const;
      (destruct (inSel i) eqn:Ei;
       [rewrite bool_decide_eq_true_2 by (by apply Hmem); reflexivity
       |rewrite bool_decide_eq_false_2; [reflexivity|];
        rewrite Hmem; congruence]).
Qed.

Lemma earlier_selection_cycle_witness :
  selectionCount initialEarlier < 3 /\
  isPanelInSelectionEarlier siteData siteBounds loadedCanvas 0
                            (Some (pt 0 0)) (Some (pt 1200 900)) = true /\
  selectionCount
    (applySelectionEarlier siteData siteBounds loadedCanvas
                           (Some (pt 0 0)) (Some (pt 1200 900)) initialEarlier)
  = (selectionCount initialEarlier + 1) mod 3.
Proof.
  assert (selectionCount initialEarlier < 3) as Hc by (simpl; lia).
  assert (isPanelInSelectionEarlier siteData siteBounds loadedCanvas 0
            (Some (pt 0 0)) (Some (pt 1200 900)) = true) as Hsel
    by (vm_compute; reflexivity).
  split; [exact Hc|]. split; [exact Hsel|].
  exact (proj1 (earlier_selection_cycle siteData siteBounds loadedCanvas
                  sitePanels (pt 0 0) (pt 1200 900) initialEarlier 0
                  eq_refl Hc Hsel)).
Defined.

(** ** Editing a note *)

Lemma find_map_compat {A : Type} (P : A -> bool) (f : A -> A) (l : list A) :
  (forall x, P (f x) = P x) ->
  find P (map f l) = f <$> find P l.
Proof.
  intros HP. induction l as [|x l IH]; [done|]. cbn [map find].
  rewrite HP. by destruct (P x).
Qed.

Lemma click_opens now s e nl existing :
  belowThreshold s e = true ->
  find (nearClick s) (notes nl) = Some existing ->
  handleMouseUpNote now (noteDrag s e) nl
  = {| notes := notes nl;
       editingNote := Some existing;
       selectedNotes := selectedNotes nl |}.
Proof.
  intros Hth Hfind. unfold handleMouseUpNote, noteDrag.
  cbn [isNoteSelecting noteSelectionStart noteSelectionEnd].
  by rewrite Hth, Hfind.
Qed.

(** X19: saving a note and opening it again.  A click within the radius
    of a note opens the editor on the first such note.  Saving a text that
    is not blank stores it, untrimmed, in every note with the id of that note
    and closes the editor; saving a blank text only closes the editor.
    Neither adds, removes, moves or reorders a note, so the same click
    opens the same note again, now with the saved text. *)
Theorem reopen_shows_saved_text now now' s e nl existing newText :
  belowThreshold s e = true ->
  find (nearClick s) (notes nl) = Some existing ->
  let opened := handleMouseUpNote now (noteDrag s e) nl in
  let saved := editorSave newText opened in
  let reopened := handleMouseUpNote now' (noteDrag s e) saved in
  let shown :=
    if trimIsEmpty newText then existing else withText newText existing in
  editingNote opened = Some existing /\
  editingNote saved = None /\
  map notePlace (notes saved) = map notePlace (notes nl) /\
  (forall n, n ∈ notes saved ->
     n ∈ notes nl \/
     (trimIsEmpty newText = false /\ text n = newText /\
      id n = id existing)) /\
  editingNote reopened = Some shown /\
  notes reopened = notes saved.
Proof.
  intros Hth Hfind opened saved reopened shown.
  subst opened saved reopened shown.
  rewrite (click_opens now s e nl existing Hth Hfind).
  unfold editorSave. cbn [editingNote notes selectedNotes].
  split; [done|].
  destruct (trimIsEmpty newText) eqn:Hblank;
    cbn [updateNote editingNote notes selectedNotes].
  - split; [done|]. split; [done|]. split; [by left|].
    rewrite (click_opens now' s e
               (mkNoteLayer (notes nl) None (selectedNotes nl)) existing
               Hth Hfind). done.
  - set (upd := fun n : Note =>
                  if bool_decide (id n = id existing)
                  then {| id := id n; svgX := svgX n; svgY := svgY n;
                          text := newText |}
                  else n).
    assert (forall n, notePlace (upd n) = notePlace n) as Hplace.
    { intros n. subst upd. cbv beta. by destruct (bool_decide _). }
    assert (forall n, nearClick s (upd n) = nearClick s n) as Hnear.
    { intros n. subst upd. cbv beta. by destruct (bool_decide _). }
    split; [done|]. split.
    { rewrite map_map. apply map_ext. exact Hplace. }
    split.
    { intros n Hn. apply list_elem_of_fmap in Hn as (m & -> & Hm).
      subst upd. cbv beta. destruct (bool_decide _) eqn:E; [|by left].
      right. apply bool_decide_eq_true in E. done. }
    assert (find (nearClick s) (map upd (notes nl)) = Some (upd existing))
      as Hfind'.
    { rewrite (find_map_compat _ _ _ Hnear), Hfind. done. }
    rewrite (click_opens now' s e
               (mkNoteLayer (map upd (notes nl)) None (selectedNotes nl))
               (upd existing) Hth Hfind').
    cbn [editingNote notes]. split; [|done]. f_equal.
    subst upd. cbv beta. rewrite bool_decide_eq_true_2 by done. done.
Qed.

Lemma reopen_shows_saved_text_witness :
  belowThreshold (pt 101 100) (pt 101 100) = true /\
  find (nearClick (pt 101 100)) (notes oneNote)
  = Some (mkNote 1 (Fin 100) (Fin 100) "first") /\
  editingNote
    (handleMouseUpNote 8 (noteDrag (pt 101 100) (pt 101 100))
       (editorSave "second"
          (handleMouseUpNote 7 (noteDrag (pt 101 100) (pt 101 100)) oneNote)))
  = Some (if trimIsEmpty "second"
          then mkNote 1 (Fin 100) (Fin 100) "first"
          else withText "second" (mkNote 1 (Fin 100) (Fin 100) "first")).
Proof.
  assert (belowThreshold (pt 101 100) (pt 101 100) = true) as Hth
    by (vm_compute; reflexivity).
  assert (find (nearClick (pt 101 100)) (notes oneNote)
          = Some (mkNote 1 (Fin 100) (Fin 100) "first")) as Hfind
    by (vm_compute; reflexivity).
  split; [exact Hth|]. split; [exact Hfind|].
  exact (proj1 (proj2 (proj2 (proj2 (proj2
           (reopen_shows_saved_text 7 8 (pt 101 100) (pt 101 100) oneNote
              (mkNote 1 (Fin 100) (Fin 100) "first") "second"
              Hth Hfind)))))).
Defined.

(** ** The mouse handlers *)

Section PointerFacts.

Variable panelsData : option (list Feature).
Variable bounds : option Bounds.
Variable canvasSize : CanvasSize.
Variable getSvg : MouseEvent -> option Point.
Variable svgRect : option ClientRect.

Abbreviation move := (fun st e => handleMouseMove getSvg svgRect e st).
Abbreviation mouse :=
  (handleMouse panelsData bounds canvasSize getSvg svgRect).

Lemma moves_record_end (moves : list MouseEvent) ed nl p q u t ng pan ps vb :
  isNoteSelecting ng = false ->
  foldl move
    (mkApp ed nl false (mkGesture true (Some p) (Some q) u t) ng pan ps vb)
    moves
  = mkApp ed nl false
      (mkGesture true (Some p)
         (Some (default q (last (omap getSvg moves)))) u t)
      ng pan ps vb.
Proof.
  intros Hng. revert q. induction moves as [|e moves IH]; intros q; [done|].
  cbn [foldl]. unfold handleMouseMove at 2.
  cbn [app_noteGesture app_gesture isSelecting]. rewrite Hng.
  change (omap getSvg (e :: moves))
    with (match getSvg e with
          | Some y => y :: omap getSvg moves
          | None => omap getSvg moves
          end).
  destruct (getSvg e) as [coords|] eqn:E.
  - cbn [app_editor app_notes app_isAddingNote app_gesture app_noteGesture
         app_isPanning app_panStart app_viewBox isSelecting selectionStart
         isUnselectMode clickedPanelIndex].
    rewrite IH. do 3 f_equal.
    rewrite last_cons. by destruct (last (omap getSvg moves)).
  - apply IH.
Qed.

Lemma mouse_note_mode st a :
  app_isAddingNote st = true ->
  isSelecting (app_gesture st) = false ->
  app_isAddingNote (mouse st a) = true /\
  isSelecting (app_gesture (mouse st a)) = false /\
  app_editor (mouse st a) = app_editor st.
Proof.
  intros Hmode Hsel. destruct a as [e|e|now]; cbn [handleMouse].
  - unfold handleMouseDown. rewrite Hmode.
    destruct (ev_button e =? 0)%Z; [|done].
    by destruct (getSvg e).
  - unfold handleMouseMove. rewrite Hsel.
    destruct (isNoteSelecting _).
    + by destruct (getSvg e).
    + destruct (app_isPanning st); [|done].
      by destruct (panMove _ _ _ _ _).
  - unfold handleMouseUpEvent.
    cbn [app_isAddingNote app_gesture app_editor idleGesture isSelecting].
    split; [done|]. split; [done|].
    destruct (_ && _); [done|].
    unfold handleMouseUp. by rewrite Hsel.
Qed.

Lemma mouse_normal_mode st a :
  app_isAddingNote st = false ->
  isNoteSelecting (app_noteGesture st) = false ->
  app_isAddingNote (mouse st a) = false /\
  isNoteSelecting (app_noteGesture (mouse st a)) = false /\
  app_notes (mouse st a) = app_notes st.
Proof.
  intros Hmode Hsel. destruct a as [e|e|now]; cbn [handleMouse].
  - unfold handleMouseDown. rewrite Hmode.
    destruct (_ || _).
    + by destruct (getSvg e).
    + by destruct (ev_button e =? 1)%Z.
  - unfold handleMouseMove. rewrite Hsel.
    destruct (isSelecting _).
    + by destruct (getSvg e).
    + destruct (app_isPanning st); [|done].
      by destruct (panMove _ _ _ _ _).
  - unfold handleMouseUpEvent.
    cbn [app_isAddingNote app_noteGesture app_notes isNoteSelecting].
    rewrite Hsel. done.
Qed.

End PointerFacts.

(** X20: what a press, moves and a release hand to the selection engine.
    Outside note mode, with no note gesture pending, a press of the left or
    right button at a canvas point [p], any number of mouse moves and a
    release run the mouse-up logic of the editor on the gesture that starts
    at [p], ends at the canvas point of the last move (at [p] when there is
    none), is an unselect gesture exactly for the right button, and carries
    the panel under the press; the notes and the view are not changed and
    no gesture is left pending. *)
Theorem gesture_recorded panelsData bounds canvasSize getSvg svgRect
    now e0 moves st p :
  app_isAddingNote st = false ->
  isNoteSelecting (app_noteGesture st) = false ->
  (ev_button e0 = 0 \/ ev_button e0 = 2)%Z ->
  getSvg e0 = Some p ->
  let q := default p (last (omap getSvg moves)) in
  let st' :=
    handleMouseUpEvent panelsData bounds canvasSize now
      (foldl (fun st e => handleMouseMove getSvg svgRect e st)
             (handleMouseDown getSvg e0 st) moves) in
  app_editor st'
  = handleMouseUp panelsData bounds canvasSize
      (mkGesture true (Some p) (Some q) (ev_button e0 =? 2)%Z
                 (ev_panelIndex e0))
      (app_editor st) /\
  app_notes st' = app_notes st /\
  app_viewBox st' = app_viewBox st /\
  app_gesture st' = idleGesture /\
  app_isPanning st' = false.
Proof.
  intros Hmode Hng Hb Hp q st'. subst q st'.
  destruct st as [ed nl mode g ng pan ps vb].
  cbn [app_isAddingNote app_noteGesture] in Hmode, Hng. subst mode.
  unfold handleMouseDown. cbn [app_isAddingNote].
  assert ((ev_button e0 =? 0)%Z || (ev_button e0 =? 2)%Z = true) as ->.
  { destruct Hb as [-> | ->]; reflexivity. }
  rewrite Hp.
  cbn [app_editor app_notes app_isAddingNote app_gesture app_noteGesture
       app_isPanning app_panStart app_viewBox].
  rewrite (moves_record_end getSvg svgRect moves ed nl p p _ _ ng pan ps vb Hng).
  unfold handleMouseUpEvent.
  cbn [app_editor app_notes app_isAddingNote app_gesture app_noteGesture
       app_isPanning app_panStart app_viewBox].
  rewrite Hng. cbn [andb]. done.
Qed.

Lemma gesture_recorded_witness :
  app_isAddingNote initialApp = false /\
  isNoteSelecting (app_noteGesture initialApp) = false /\
  (ev_button (mouseAt 2 0 0 None) = 0 \/ ev_button (mouseAt 2 0 0 None) = 2)%Z /\
  clientCoords (mouseAt 2 0 0 None) = Some (pt 0 0) /\
  app_editor
    (handleMouseUpEvent siteData siteBounds loadedCanvas 1
       (foldl (fun st e => handleMouseMove clientCoords None e st)
              (handleMouseDown clientCoords (mouseAt 2 0 0 None) initialApp)
              [mouseAt 2 600 400 None; mouseAt 2 1200 900 None]))
  = handleMouseUp siteData siteBounds loadedCanvas
      (mkGesture true (Some (pt 0 0))
         (Some (default (pt 0 0)
                  (last (omap clientCoords
                           [mouseAt 2 600 400 None; mouseAt 2 1200 900 None]))))
         (ev_button (mouseAt 2 0 0 None) =? 2)%Z
         (ev_panelIndex (mouseAt 2 0 0 None)))
      (app_editor initialApp).
Proof.
  assert (ev_button (mouseAt 2 0 0 None) = 0
          \/ ev_button (mouseAt 2 0 0 None) = 2)%Z as Hb by (right; reflexivity).
  split; [reflexivity|]. split; [reflexivity|]. split; [exact Hb|].
  split; [reflexivity|].
  exact (proj1 (gesture_recorded siteData siteBounds loadedCanvas clientCoords
                  None 1 (mouseAt 2 0 0 None)
                  [mouseAt 2 600 400 None; mouseAt 2 1200 900 None]
                  initialApp (pt 0 0) eq_refl eq_refl Hb eq_refl)).
Defined.

(** X21: a click on a drawn panel with either button.  Outside note mode,
    a press and a release of the left or of the right button at the same
    canvas point over a panel polygon move the nearer end of that panel one
    step round the click cycle and push one snapshot: the right button
    does not reset the end. *)
Theorem click_with_either_button panelsData bounds canvasSize getSvg
    now e st index p ends :
  app_isAddingNote st = false ->
  isNoteSelecting (app_noteGesture st) = false ->
  (ev_button e = 0 \/ ev_button e = 2)%Z ->
  ev_panelIndex e = Some index ->
  getSvg e = Some p ->
  belowThreshold p p = true ->
  getPanelEnds panelsData bounds canvasSize index = Some ends ->
  let side := clickedSide ends p in
  app_editor
    (handleMouseUpEvent panelsData bounds canvasSize now
       (handleMouseDown getSvg e st))
  = clickUpdate index side
      (clickNext (endState (panelStates (app_editor st)) index side))
      (app_editor st).
Proof.
  intros Hmode Hng Hb Hidx Hp Hth Hends side.
  unfold handleMouseDown. rewrite Hmode.
  assert ((ev_button e =? 0)%Z || (ev_button e =? 2)%Z = true) as ->.
  { destruct Hb as [-> | ->]; reflexivity. }
  rewrite Hp. unfold handleMouseUpEvent.
  cbn [app_editor app_gesture app_noteGesture]. rewrite Hng. cbn [andb].
  unfold handleMouseUp.
  cbn [isSelecting selectionStart selectionEnd clickedPanelIndex].
  rewrite Hth, Hidx, Hends. reflexivity.
Qed.

Lemma click_with_either_button_witness :
  app_isAddingNote initialApp = false /\
  isNoteSelecting (app_noteGesture initialApp) = false /\
  (ev_button (mouseAt 2 10 850 (Some 0%nat)) = 0
   \/ ev_button (mouseAt 2 10 850 (Some 0%nat)) = 2)%Z /\
  belowThreshold (pt 10 850) (pt 10 850) = true /\
  endState
    (panelStates
       (app_editor
          (handleMouseUpEvent siteData siteBounds loadedCanvas 1
             (handleMouseDown clientCoords (mouseAt 2 10 850 (Some 0%nat))
                              initialApp))))
    0 SideLeft
  = MC4_INSTALLED.
Proof.
  assert (ev_button (mouseAt 2 10 850 (Some 0%nat)) = 0
          \/ ev_button (mouseAt 2 10 850 (Some 0%nat)) = 2)%Z as Hb
    by (right; reflexivity).
  assert (belowThreshold (pt 10 850) (pt 10 850) = true) as Hth
    by (vm_compute; reflexivity).
  split; [reflexivity|]. split; [reflexivity|]. split; [exact Hb|].
  split; [exact Hth|].
  rewrite (click_with_either_button siteData siteBounds loadedCanvas
             clientCoords 1 (mouseAt 2 10 850 (Some 0%nat)) initialApp 0
             (pt 10 850)
             (panelEndsOf (svgPtsOf siteBounds loadedCanvas (ringAt 0 0)))
             eq_refl eq_refl Hb eq_refl eq_refl Hth eq_refl).
  vm_compute. reflexivity.
Defined.

(** X22: the two modes do not interfere.  Whatever sequence of mouse
    presses, moves and releases follows: in note mode, with no panel
    selection pending, the panel states, the history and its index are left
    as they are; outside note mode, with no note gesture pending, the notes,
    the note being edited and the selected notes are left as they are. *)
Theorem mouse_modes_separate panelsData bounds canvasSize getSvg svgRect
    actions st :
  let st' :=
    foldl (handleMouse panelsData bounds canvasSize getSvg svgRect) st actions
  in
  (app_isAddingNote st = true ->
   isSelecting (app_gesture st) = false ->
   app_editor st' = app_editor st) /\
  (app_isAddingNote st = false ->
   isNoteSelecting (app_noteGesture st) = false ->
   app_notes st' = app_notes st).
Proof.
  cbv zeta. split.
  - revert st. induction actions as [|a actions IH]; intros st Hmode Hsel;
      [done|].
    cbn [foldl].
    destruct (mouse_note_mode panelsData bounds canvasSize getSvg svgRect
                st a Hmode Hsel) as (Hm & Hs & He).
    rewrite IH by done. exact He.
  - revert st. induction actions as [|a actions IH]; intros st Hmode Hsel;
      [done|].
    cbn [foldl].
    destruct (mouse_normal_mode panelsData bounds canvasSize getSvg svgRect
                st a Hmode Hsel) as (Hm & Hs & He).
    rewrite IH by done. exact He.
Qed.

Lemma mouse_modes_separate_witness :
  app_isAddingNote noteModeApp = true /\
  isSelecting (app_gesture noteModeApp) = false /\
  app_editor
    (foldl (handleMouse siteData siteBounds loadedCanvas clientCoords None)
           noteModeApp
           [MouseDown (mouseAt 0 10 850 (Some 0)); MouseUp 1;
            MouseDown (mouseAt 0 0 0 None);
            MouseMove (mouseAt 0 1200 900 None); MouseUp 2])
  = app_editor noteModeApp.
Proof.
  split; [reflexivity|]. split; [reflexivity|].
  exact (proj1 (mouse_modes_separate siteData siteBounds loadedCanvas
                  clientCoords None
                  [MouseDown (mouseAt 0 10 850 (Some 0)); MouseUp 1;
                   MouseDown (mouseAt 0 0 0 None);
                   MouseMove (mouseAt 0 1200 900 None); MouseUp 2]
                  noteModeApp) eq_refl eq_refl).
Defined.

(** ** The export of the daily log *)

Lemma orZero_id n : orZero n = n.
Proof. unfold orZero. destruct (n =? 0)%Z eqn:E; [|done]. lia. Qed.

Lemma sumZ_app {A : Type} (f : A -> Z) (l l' : list A) :
  sumZ f (l ++ l') = (sumZ f l + sumZ f l')%Z.
Proof. induction l as [|x l IH]; simpl; [done|]. rewrite IH. lia. Qed.

Lemma sumZ_perm {A : Type} (f : A -> Z) (l l' : list A) :
  l ≡ₚ l' -> sumZ f l = sumZ f l'.
Proof. induction 1; simpl; lia. Qed.

Lemma foldl_sumZ {A : Type} (f : A -> Z) (l : list A) (acc : Z) :
  foldl (fun s r => (s + f r)%Z) acc l = (acc + sumZ f l)%Z.
Proof.
  revert acc. induction l as [|x l IH]; intros acc; simpl; [lia|].
  rewrite IH. lia.
Qed.

Lemma updateRows_dates record aggregated :
  map row_date (updateRows record aggregated)
  = if bool_decide (date record ∈ map row_date aggregated)
    then map row_date aggregated
    else map row_date aggregated ++ [date record].
Proof.
  induction aggregated as [|row rest IH]; [done|].
  cbn [updateRows map].
  destruct (bool_decide (row_date row = date record)) eqn:E.
  - apply bool_decide_eq_true in E.
    rewrite bool_decide_eq_true_2; [done|]. rewrite E. left.
  - apply bool_decide_eq_false in E. cbn [map]. rewrite IH.
    destruct (bool_decide (date record ∈ map row_date rest)) eqn:E'.
    + apply bool_decide_eq_true in E'.
      rewrite bool_decide_eq_true_2; [done|]. by right.
    + apply bool_decide_eq_false in E'.
      rewrite bool_decide_eq_false_2; [done|].
      intros [H|H]%elem_of_cons; [by apply E|by apply E'].
Qed.

Lemma updateRows_NoDup record aggregated :
  NoDup (map row_date aggregated) ->
  NoDup (map row_date (updateRows record aggregated)).
Proof.
  intros Hnd. rewrite updateRows_dates.
  destruct (bool_decide _) eqn:E; [done|].
  apply bool_decide_eq_false in E.
  apply NoDup_app. split; [done|]. split; [|apply NoDup_singleton].
  intros d Hd Hd'%list_elem_of_singleton. by subst d.
Qed.

Lemma updateRows_sum (f : AggRow -> Z) (g : DailyRecord -> Z)
    record aggregated d :
  (forall row sub,
     f {| row_date := row_date row;
          row_installed_panels :=
            (row_installed_panels row + orZero (installed_panels record))%Z;
          row_workers := (row_workers row + orZero (workers record))%Z;
          row_subs := sub |}
     = (f row + g record)%Z) ->
  (forall sub,
     f {| row_date := date record;
          row_installed_panels := (0 + orZero (installed_panels record))%Z;
          row_workers := (0 + orZero (workers record))%Z;
          row_subs := sub |}
     = g record) ->
  sumZ f (rowsOn d (updateRows record aggregated))
  = (sumZ f (rowsOn d aggregated)
     + if bool_decide (date record = d) then g record else 0)%Z.
Proof.
  intros Hupd Hnew. induction aggregated as [|row rest IH].
  - cbn [updateRows rowsOn List.filter row_date].
    destruct (bool_decide (date record = d)); simpl; [|done].
    rewrite Hnew. lia.
  - cbn [updateRows].
    destruct (bool_decide (row_date row = date record)) eqn:E.
    + apply bool_decide_eq_true in E. unfold rowsOn.
      cbn [List.filter row_date]. rewrite <- E.
      destruct (bool_decide (row_date row = d)); simpl.
      * rewrite Hupd. lia.
      * lia.
    + apply bool_decide_eq_false in E. unfold rowsOn in *.
      cbn [List.filter].
      destruct (bool_decide (row_date row = d)) eqn:E'; simpl.
      * rewrite IH. lia.
      * exact IH.
Qed.

Lemma updateRows_total (f : AggRow -> Z) (g : DailyRecord -> Z)
    record aggregated :
  (forall row sub,
     f {| row_date := row_date row;
          row_installed_panels :=
            (row_installed_panels row + orZero (installed_panels record))%Z;
          row_workers := (row_workers row + orZero (workers record))%Z;
          row_subs := sub |}
     = (f row + g record)%Z) ->
  (forall sub,
     f {| row_date := date record;
          row_installed_panels := (0 + orZero (installed_panels record))%Z;
          row_workers := (0 + orZero (workers record))%Z;
          row_subs := sub |}
     = g record) ->
  sumZ f (updateRows record aggregated)
  = (sumZ f aggregated + g record)%Z.
Proof.
  intros Hupd Hnew. induction aggregated as [|row rest IH].
  - simpl. rewrite Hnew. lia.
  - cbn [updateRows].
    destruct (bool_decide (row_date row = date record)); simpl.
    + rewrite Hupd. lia.
    + rewrite IH. lia.
Qed.

Lemma onDate_app d l l' : onDate d (l ++ l') = onDate d l ++ onDate d l'.
Proof. apply List.filter_app. Qed.

(** What the aggregation loop has built after the whole log. *)
Lemma aggregated_spec (dailyLog : list DailyRecord) :
  let aggregated :=
    foldl (fun aggregated record => updateRows record aggregated)
          [] dailyLog in
  NoDup (map row_date aggregated) /\
  sumZ row_installed_panels aggregated = sumZ installed_panels dailyLog /\
  sumZ row_workers aggregated = sumZ workers dailyLog /\
  (forall d,
     sumZ row_installed_panels (rowsOn d aggregated)
     = sumZ installed_panels (onDate d dailyLog) /\
     sumZ row_workers (rowsOn d aggregated)
     = sumZ workers (onDate d dailyLog)) /\
  (forall d, d ∈ map row_date aggregated <-> d ∈ map date dailyLog).
Proof.
  cbv zeta. induction dailyLog as [|record l IH] using rev_ind.
  - split; [apply NoDup_nil_2|]. repeat split; try done.
  - rewrite foldl_app. cbn [foldl].
    set (aggregated := foldl _ [] l) in *.
    destruct IH as (Hnd & Hi & Hw & Hd & Hdates).
    split; [by apply updateRows_NoDup|].
    split.
    { rewrite (updateRows_total row_installed_panels installed_panels);
        [|intros; cbn; by rewrite orZero_id..].
      rewrite sumZ_app, Hi. simpl. lia. }
    split.
    { rewrite (updateRows_total row_workers workers);
        [|intros; cbn; by rewrite orZero_id..].
      rewrite sumZ_app, Hw. simpl. lia. }
    split.
    { intros d. destruct (Hd d) as [Hdi Hdw]. rewrite onDate_app, !sumZ_app.
      rewrite (updateRows_sum row_installed_panels installed_panels);
        [|intros; cbn; by rewrite orZero_id..].
      rewrite (updateRows_sum row_workers workers);
        [|intros; cbn; by rewrite orZero_id..].
      rewrite Hdi, Hdw. unfold onDate. cbn [List.filter].
      destruct (bool_decide (date record = d)); simpl; split; lia. }
    intros d. rewrite updateRows_dates, map_app. cbn [map].
    rewrite elem_of_app, list_elem_of_singleton, <- Hdates.
    destruct (bool_decide (date record ∈ map row_date aggregated)) eqn:E.
    + apply bool_decide_eq_true in E. split; [by left|].
      intros [H | ->]; done.
    + by rewrite elem_of_app, list_elem_of_singleton.
Qed.

Lemma rowsOn_absent d rows : d ∉ map row_date rows -> rowsOn d rows = [].
Proof.
  induction rows as [|r rows IH]; intros Hd; [done|].
  unfold rowsOn in *. cbn [List.filter].
  rewrite bool_decide_eq_false_2.
  - apply IH. intros H. apply Hd. cbn [map]. by right.
  - intros H. apply Hd. cbn [map]. rewrite H. left.
Qed.

Lemma rowsOn_NoDup (f : AggRow -> Z) rows row :
  NoDup (map row_date rows) -> row ∈ rows ->
  sumZ f (rowsOn (row_date row) rows) = f row.
Proof.
  induction rows as [|r rows IH]; intros Hnd Hin.
  - by apply elem_of_nil in Hin.
  - cbn [map] in Hnd. apply NoDup_cons in Hnd as [Hr Hnd].
    apply elem_of_cons in Hin as [->|Hin].
    + unfold rowsOn. cbn [List.filter].
      rewrite bool_decide_eq_true_2 by done.
      change (List.filter _ rows) with (rowsOn (row_date r) rows).
      rewrite (rowsOn_absent _ _ Hr). simpl. lia.
    + unfold rowsOn. cbn [List.filter].
      rewrite bool_decide_eq_false_2.
      * by apply IH.
      * intros H. apply Hr. rewrite H. by apply list_elem_of_fmap_2.
Qed.

Lemma rowsOn_perm d (l l' : list AggRow) :
  l ≡ₚ l' -> rowsOn d l ≡ₚ rowsOn d l'.
Proof.
  unfold rowsOn. induction 1 as [|x l l' _ IH|x y l|l l' l'' _ IH1 _ IH2];
    cbn [List.filter].
  - reflexivity.
  - destruct (bool_decide _); [by rewrite IH|done].
  - destruct (bool_decide (row_date y = d)), (bool_decide (row_date x = d));
      try reflexivity. apply Permutation_swap.
  - by rewrite IH1.
Qed.

Lemma compareDate_key (dateValue : string -> JsNum) (a b : AggRow) :
  isFinite (dateValue (row_date a)) = true ->
  isFinite (dateValue (row_date b)) = true ->
  jsLt (Fin 0) (jsSub (dateValue (row_date a)) (dateValue (row_date b)))
  = Qlt_bool (finPart (dateValue (row_date b)))
             (finPart (dateValue (row_date a))).
Proof.
  destruct (dateValue (row_date a)) as [p| | |],
    (dateValue (row_date b)) as [q| | |]; try done.
  intros _ _. cbn [jsSub jsNeg jsAdd jsLt finPart].
  destruct (Qlt_bool q p) eqn:E.
  - apply Qlt_bool_iff. apply Qlt_bool_iff in E. lra.
  - destruct (Qlt_bool 0 (p + - q)) eqn:E'; [|done].
    apply Qlt_bool_iff in E'.
    assert (q < p)%Q as H by lra. apply Qlt_bool_iff in H. congruence.
Qed.

Lemma insertByIndex_perm row l : insertByIndex row l ≡ₚ row :: l.
Proof.
  induction l as [|r l IH]; [reflexivity|]. cbn [insertByIndex].
  destruct (indexOf row <? indexOf r)%N; [reflexivity|].
  rewrite IH. apply Permutation_swap.
Qed.

(** [Object.values] lists every own property once. *)
Lemma objectValues_perm aggregated : objectValues aggregated ≡ₚ aggregated.
Proof.
  unfold objectValues. induction aggregated as [|row l IH]; [reflexivity|].
  cbn [foldr List.filter].
  destruct (bool_decide (is_Some (arrayIndex (row_date row)))); cbn [negb].
  - rewrite insertByIndex_perm. cbn [app]. by rewrite IH.
  - rewrite <- Permutation_middle. by rewrite IH.
Qed.

Lemma foldl_thrown (l : list DailyRecord) :
  foldl (fun aggregated record => aggregated ≫= aggregateRecord record) None l
  = None.
Proof. induction l as [|r l IH]; [done|]. exact IH. Qed.

(** The loop throws on the first record of an inherited date that names a
    subcontractor; otherwise it builds the rows of the other records. *)
Lemma foldl_aggregate (l : list DailyRecord) : forall acc,
  foldl (fun aggregated record => aggregated ≫= aggregateRecord record)
        (Some acc) l
  = if existsb throwsOn l then None
    else Some (foldl (fun aggregated record => updateRows record aggregated)
                     acc (keptRecords l)).
Proof.
  induction l as [|r l IH]; intros acc; [done|].
  cbn [foldl existsb keptRecords List.filter mbind option_bind].
  unfold aggregateRecord, throwsOn.
  destruct (inheritedName (date r)); cbn [andb negb orb].
  - destruct (bool_decide (subcontractor r = EmptyString)); cbn [negb orb].
    + apply IH.
    + apply foldl_thrown.
  - cbn [foldl]. apply IH.
Qed.

Lemma onDate_kept d l :
  inheritedName d = false -> onDate d (keptRecords l) = onDate d l.
Proof.
  intros Hd. unfold onDate, keptRecords.
  induction l as [|r l IH]; [done|]. cbn [List.filter].
  destruct (bool_decide (date r = d)) eqn:E.
  - apply bool_decide_eq_true in E. rewrite E, Hd. cbn [negb List.filter].
    rewrite bool_decide_eq_true_2 by done. by rewrite IH.
  - destruct (inheritedName (date r)); cbn [negb List.filter];
      rewrite ?E; exact IH.
Qed.

Lemma keptRecords_all l :
  Forall (fun r => inheritedName (date r) = false) l -> keptRecords l = l.
Proof.
  induction 1 as [|r l Hr _ IH]; [done|].
  unfold keptRecords in *. cbn [List.filter]. rewrite Hr. cbn [negb].
  by rewrite IH.
Qed.

Lemma keptRecords_dates d l :
  d ∈ map date (keptRecords l) -> inheritedName d = false.
Proof.
  intros H. apply list_elem_of_fmap in H as (r & -> & Hr).
  apply list_elem_of_In, List.filter_In in Hr as [_ Hr].
  by apply negb_true_iff in Hr.
Qed.

(** X23: what the export holds.  For the empty log nothing is exported.
    The export throws exactly when some record has, as its date, the name
    of a member every object inherits ([constructor], [toString], ...) and
    names a subcontractor.  Otherwise the sheet has exactly one row for each
    date of the log that is no inherited name, holding the sums of the
    installed ends and of the workers over the records of that date; the
    totals row holds the sums over these records, which are all the records
    when no date is an inherited name; and when every date of the log is a
    valid date the rows are in non-decreasing order of their dates. *)
Theorem export_rows_spec (dateValue : string -> JsNum)
    (dailyLog : list DailyRecord) :
  (exportRows dateValue dailyLog = NothingToExport <-> dailyLog = []) /\
  (exportRows dateValue dailyLog = ExportThrows <->
   Exists (fun r => inheritedName (date r) = true /\
                    subcontractor r <> EmptyString) dailyLog) /\
  forall rows totalRow,
    exportRows dateValue dailyLog = Exported rows totalRow ->
    row_installed_panels totalRow
    = sumZ installed_panels (keptRecords dailyLog) /\
    row_workers totalRow = sumZ workers (keptRecords dailyLog) /\
    NoDup (map row_date rows) /\
    (forall d, d ∈ map row_date rows <->
               d ∈ map date dailyLog /\ inheritedName d = false) /\
    (forall row, row ∈ rows ->
       row_installed_panels row
       = sumZ installed_panels (onDate (row_date row) dailyLog) /\
       row_workers row = sumZ workers (onDate (row_date row) dailyLog)) /\
    (Forall (fun r => inheritedName (date r) = false) dailyLog ->
     keptRecords dailyLog = dailyLog) /\
    (Forall (fun r => isFinite (dateValue (date r)) = true) dailyLog ->
     StronglySorted
       (fun a b => (finPart (dateValue (row_date a))
                    <= finPart (dateValue (row_date b)))%Q)
       rows).
Proof.
  assert (existsb throwsOn dailyLog = true <->
          Exists (fun r => inheritedName (date r) = true /\
                           subcontractor r <> EmptyString) dailyLog)
    as Hthrows.
  { rewrite existsb_exists, Exists_exists. unfold throwsOn.
    split; intros (r & Hr & H); exists r.
    - apply andb_true_iff in H as [H1 H2]. apply negb_true_iff in H2.
      apply bool_decide_eq_false in H2. split; [by apply list_elem_of_In|done].
    - destruct H as [H1 H2]. split; [by apply list_elem_of_In|].
      rewrite H1. cbn [andb]. apply negb_true_iff.
      by apply bool_decide_eq_false. }
  unfold exportRows. rewrite foldl_aggregate.
  destruct dailyLog as [|record0 log0] eqn:Elog.
  { split; [done|]. split; [|done].
    split; [done|]. intros H. by apply Exists_nil in H. }
  rewrite <- Elog in *.
  assert ((length dailyLog =? 0) = false) as -> by (rewrite Elog; done).
  destruct (existsb throwsOn dailyLog) eqn:Ex.
  { split; [by rewrite Elog|]. split; [|done].
    split; [intros _; by apply Hthrows | done]. }
  split; [by rewrite Elog|]. split.
  { split; [done|]. intros H. apply Hthrows in H. done. }
  intros rows totalRow Hexp. cbv zeta in Hexp.
  destruct (aggregated_spec (keptRecords dailyLog))
    as (Hnd & Hi & Hw & Hd & Hdates).
  cbv zeta in Hnd, Hi, Hw, Hd, Hdates.
  set (aggregated := foldl _ [] (keptRecords dailyLog)) in *.
  set (compare := fun a b : AggRow =>
                    jsSub (dateValue (row_date a)) (dateValue (row_date b)))
    in *.
  assert (jsSort compare (objectValues aggregated) ≡ₚ aggregated) as Hperm
    by (by rewrite jsSort_perm, objectValues_perm).
  inversion Hexp as [[Hrows Htotal]]. clear Hexp.
  cbn [row_installed_panels row_workers].
  rewrite !foldl_sumZ.
  rewrite (sumZ_perm row_installed_panels _ _ Hperm).
  rewrite (sumZ_perm row_workers _ _ Hperm).
  split; [lia|]. split; [lia|].
  assert (map row_date (jsSort compare (objectValues aggregated))
          ≡ₚ map row_date aggregated)
    as Hpd by (by apply Permutation_map).
  assert (forall d, d ∈ map date (keptRecords dailyLog) <->
                    d ∈ map date dailyLog /\ inheritedName d = false)
    as Hkept.
  { intros d. split.
    - intros H. split; [|by eapply keptRecords_dates].
      apply list_elem_of_fmap in H as (r & -> & Hr).
      apply list_elem_of_fmap_2.
      apply list_elem_of_In, List.filter_In in Hr as [Hr _].
      by apply list_elem_of_In.
    - intros [H Hd']. apply list_elem_of_fmap in H as (r & -> & Hr).
      apply list_elem_of_fmap_2. apply list_elem_of_In, List.filter_In.
      split; [by apply list_elem_of_In | by rewrite Hd']. }
  split; [by rewrite Hpd|].
  split; [intros d; by rewrite Hpd, Hdates|].
  split.
  - intros row Hrow.
    assert (NoDup (map row_date (jsSort compare (objectValues aggregated))))
      as Hnd' by (by rewrite Hpd).
    rewrite <- (rowsOn_NoDup row_installed_panels _ row Hnd' Hrow).
    rewrite <- (rowsOn_NoDup row_workers _ row Hnd' Hrow).
    assert (rowsOn (row_date row) (jsSort compare (objectValues aggregated))
            ≡ₚ rowsOn (row_date row) aggregated) as Hpr.
    { by apply rowsOn_perm. }
    rewrite (sumZ_perm row_installed_panels _ _ Hpr).
    rewrite (sumZ_perm row_workers _ _ Hpr).
    assert (inheritedName (row_date row) = false) as Hown.
    { apply (keptRecords_dates _ dailyLog), Hdates. rewrite <- Hpd.
      by apply list_elem_of_fmap_2. }
    rewrite <- (onDate_kept _ dailyLog Hown). apply Hd.
  - split; [apply keptRecords_all|]. intros Hvalid.
    apply (jsSort_sorted
             (fun r => finPart (dateValue (row_date r))) compare
             (fun r => isFinite (dateValue (row_date r)) = true)).
    + intros a b Ha Hb. by apply compareDate_key.
    + apply Forall_forall. intros row Hrow.
      rewrite objectValues_perm in Hrow.
      assert (row_date row ∈ map date (keptRecords dailyLog)) as Hin
        by (by apply Hdates, list_elem_of_fmap_2).
      apply Hkept in Hin as [Hin _].
      apply list_elem_of_fmap in Hin as (r & Hr & Hin).
      rewrite Forall_forall in Hvalid. rewrite Hr. by apply Hvalid.
Qed.

Lemma export_rows_spec_witness :
  exists rows totalRow,
    exportRows sampleClock sampleLog = Exported rows totalRow /\
    map row_date rows = ["2024-05-01"; "2024-05-02"] /\
    row_installed_panels totalRow = sumZ installed_panels sampleLog /\
    row_workers totalRow = sumZ workers sampleLog.
Proof.
  destruct (exportRows sampleClock sampleLog) as [| |rows totalRow] eqn:E.
  - exfalso. vm_compute in E. discriminate E.
  - exfalso. vm_compute in E. discriminate E.
  - exists rows, totalRow. split; [reflexivity|].
    split; [vm_compute in E; by inversion E|].
    destruct (proj2 (proj2 (export_rows_spec sampleClock sampleLog))
                rows totalRow E) as (H1 & H2 & _).
    split; [exact H1 | exact H2].
Defined.

(** A record dated [constructor] is left out of the sheet, and makes the
    export throw when it names a subcontractor. *)
Example export_inherited_date :
  exportRows sampleClock (addRecord (mkRecord "constructor" 5 "" 1) sampleLog)
  = exportRows sampleClock sampleLog /\
  exportRows sampleClock
    (addRecord (mkRecord "constructor" 5 "South" 1) sampleLog)
  = ExportThrows.
Proof. by vm_compute. Qed.

Lemma stronglySorted_weaken {A : Type} (R R' : A -> A -> Prop) (l : list A) :
  (forall a b, R a b -> R' a b) ->
  StronglySorted R l -> StronglySorted R' l.
Proof.
  intros HR. induction 1 as [|x l _ IH Hx]; constructor; [done|].
  apply Forall_forall. intros b Hb. apply HR.
  rewrite Forall_forall in Hx. by apply Hx.
Qed.

Lemma compareLatest_key (dateValue : string -> JsNum) (a b : DailyRecord) :
  isFinite (dateValue (date a)) = true ->
  isFinite (dateValue (date b)) = true ->
  jsLt (Fin 0) (jsSub (dateValue (date b)) (dateValue (date a)))
  = Qlt_bool (- finPart (dateValue (date b))) (- finPart (dateValue (date a))).
Proof.
  destruct (dateValue (date a)) as [p| | |],
    (dateValue (date b)) as [q| | |]; try done.
  intros _ _. cbn [jsSub jsNeg jsAdd jsLt finPart].
  destruct (Qlt_bool (- q) (- p)) eqn:E.
  - apply Qlt_bool_iff. apply Qlt_bool_iff in E. lra.
  - destruct (Qlt_bool 0 (q + - p)) eqn:E'; [|done].
    apply Qlt_bool_iff in E'.
    assert (- q < - p)%Q as H by lra. apply Qlt_bool_iff in H. congruence.
Qed.

(** X24: the history table shows every submission, latest first.  The
    rows are a rearrangement of the log, nothing added and nothing lost;
    when every date of the log is a valid date, no row comes before a row
    of a later date. *)
Theorem history_rows_latest_first (dateValue : string -> JsNum)
    (dailyLog : list DailyRecord) :
  historyRows dateValue dailyLog ≡ₚ dailyLog /\
  (Forall (fun r => isFinite (dateValue (date r)) = true) dailyLog ->
   StronglySorted
     (fun a b => (finPart (dateValue (date b))
                  <= finPart (dateValue (date a)))%Q)
     (historyRows dateValue dailyLog)).
Proof.
  split; [apply jsSort_perm|]. intros Hvalid.
  pose proof (jsSort_sorted
                (fun r => (- finPart (dateValue (date r)))%Q)
                (fun a b => jsSub (dateValue (date b)) (dateValue (date a)))
                (fun r => isFinite (dateValue (date r)) = true)
                (compareLatest_key dateValue) dailyLog Hvalid) as Hs.
  unfold historyRows.
  eapply stronglySorted_weaken; [|exact Hs].
  intros a b H. cbv beta in H. lra.
Qed.

Lemma history_rows_latest_first_witness :
  Forall (fun r => isFinite (sampleClock (date r)) = true) sampleLog /\
  StronglySorted
    (fun a b => (finPart (sampleClock (date b))
                 <= finPart (sampleClock (date a)))%Q)
    (historyRows sampleClock sampleLog).
Proof.
  assert (Forall (fun r => isFinite (sampleClock (date r)) = true) sampleLog)
    as Hvalid by (repeat constructor).
  split; [exact Hvalid|].
  exact (proj2 (history_rows_latest_first sampleClock sampleLog) Hvalid).
Defined.

(** ** The counters of the two revisions *)

Lemma countEntryEarlier_add state a b :
  countEntryEarlier state (a, b)
  = ((a + (Z.b2z (bool_decide (left state = Some MC4_INSTALLED))
           + Z.b2z (bool_decide (right state = Some MC4_INSTALLED))))%Z,
     (b + entryTermination state)%Z).
Proof.
  unfold countEntryEarlier, entryTermination, countsForTermination, incrIf.
  destruct (bool_decide (left state = Some MC4_INSTALLED)),
    (bool_decide (right state = Some MC4_INSTALLED)),
    (bool_decide (left state = Some TERMINATED)),
    (bool_decide (right state = Some TERMINATED)); simpl; f_equal; lia.
Qed.

Lemma countEntryEarlier_comm s1 s2 acc :
  countEntryEarlier s1 (countEntryEarlier s2 acc)
  = countEntryEarlier s2 (countEntryEarlier s1 acc).
Proof. destruct acc as [a b]. rewrite !countEntryEarlier_add. f_equal; lia. Qed.

Lemma entryMc4_split state :
  entryMc4 state
  = (Z.b2z (bool_decide (left state = Some MC4_INSTALLED))
     + Z.b2z (bool_decide (right state = Some MC4_INSTALLED))
     + entryTermination state)%Z.
Proof.
  unfold entryMc4, entryTermination, countsForMc4, countsForTermination.
  destruct state as [[[]|] [[]|]]; reflexivity.
Qed.

(** X25: the MC4 counter of the current revision is the sum of the two
    counters of the earlier revision.  For every mapping, the completed
    count for MC4 equals the earlier completed count for MC4 plus the
    completed count for termination; the termination counts and the totals
    of the two revisions are the same. *)
Theorem counters_across_revisions panelsData (ps : PanelStates) :
  completed (mc4 panelsData ps)
  = (completed (fst (countsEarlier panelsData ps))
     + completed (snd (countsEarlier panelsData ps)))%Z /\
  completed (termination panelsData ps)
  = completed (snd (countsEarlier panelsData ps)) /\
  total (mc4 panelsData ps) = total (fst (countsEarlier panelsData ps)) /\
  total (termination panelsData ps)
  = total (snd (countsEarlier panelsData ps)).
Proof.
  unfold mc4, termination, counters, countsEarlier.
  assert (forall m t m0 t0,
            map_fold (fun _ state acc => countEntry state acc) (0%Z, 0%Z) ps
            = (m, t) ->
            map_fold (fun _ state acc => countEntryEarlier state acc)
                     (0%Z, 0%Z) ps = (m0, t0) ->
            m = (m0 + t0)%Z /\ t = t0) as H.
  { induction ps as [|i x ps Hnone IH] using map_ind; intros m t m0 t0.
    - rewrite !map_fold_empty. intros [= <- <-] [= <- <-]. done.
    - rewrite map_fold_insert_L; [|intros; apply countEntry_comm|done].
      rewrite map_fold_insert_L;
        [|intros; apply countEntryEarlier_comm|done].
      destruct (map_fold (fun _ state acc => countEntry state acc) _ ps)
        as [m' t'].
      destruct (map_fold (fun _ state acc => countEntryEarlier state acc) _ ps)
        as [m0' t0'].
      destruct (IH m' t' m0' t0' eq_refl eq_refl) as [-> ->].
      rewrite countEntry_add, countEntryEarlier_add, entryMc4_split.
      intros [= <- <-] [= <- <-]. split; lia. }
  destruct (map_fold (fun _ state acc => countEntry state acc) _ ps)
    as [m t].
  destruct (map_fold (fun _ state acc => countEntryEarlier state acc) _ ps)
    as [m0 t0].
  destruct (H m t m0 t0 eq_refl eq_refl) as [-> ->].
  cbn [fst snd completed total]. done.
Qed.

(** ** The spatial join on a rectangular panel *)

Lemma finite_between_infinities x :
  PrimFloat.is_finite x = true ->
  (x <? PrimFloat.infinity)%float = true /\
  (PrimFloat.neg_infinity <? x)%float = true.
Proof.
  intros H. pose proof (Prim2SF_valid x) as Hv.
  rewrite !ltb_spec.
  change (Prim2SF infinity) with (S754_infinity false).
  change (Prim2SF neg_infinity) with (S754_infinity true).
  destruct (is_finite_spec x H) as [[s E] | (s & m & e & E)];
    rewrite E in *; done.
Qed.

Lemma ltb_irrefl x : (x <? x)%float = false.
Proof.
  destruct (PrimFloat.is_nan x) eqn:E.
  - destruct (x <? x)%float eqn:H; [|done].
    apply ltb_numbers in H as [H _]. congruence.
  - rewrite ltb_value by done. apply Z.ltb_irrefl.
Qed.

Lemma ltb_asym a b : (a <? b)%float = true -> (b <? a)%float = false.
Proof.
  intros H. destruct (ltb_numbers _ _ H) as [Ha Hb].
  rewrite ltb_value in * by done. apply Z.ltb_lt in H. apply Z.ltb_ge. lia.
Qed.

Lemma polyBox_rectangle (x0 y0 x1 y1 : float) :
  PrimFloat.is_finite x0 = true -> PrimFloat.is_finite x1 = true ->
  PrimFloat.is_finite y0 = true -> PrimFloat.is_finite y1 = true ->
  (x0 <? x1)%float = true -> (y0 <? y1)%float = true ->
  Double.polyBox [(x0, y0); (x1, y0); (x1, y1); (x0, y1); (x0, y0)]
  = (x0, x1, y0, y1).
Proof.
  intros Fx0 Fx1 Fy0 Fy1 Hx Hy. unfold Double.polyBox. cbn [foldl fst snd].
  destruct (finite_between_infinities x0 Fx0) as [-> ->].
  destruct (finite_between_infinities y0 Fy0) as [-> ->].
  repeat first [ rewrite ltb_irrefl | rewrite Hx | rewrite Hy
               | rewrite (ltb_asym _ _ Hx) | rewrite (ltb_asym _ _ Hy) ].
  reflexivity.
Qed.

Lemma intersect_horizontal (tx ty : float) (a b : Double.Coord) :
  snd a = snd b -> Double.intersect tx ty a b = false.
Proof.
  intros H. unfold Double.intersect. rewrite H. by rewrite xorb_nilpotent.
Qed.

(** X26: the label of a rectangular panel, in doubles.  For a panel whose
    ring is an axis-aligned rectangle with finite corners (x0, y0) and
    (x1, y1), [x0 < x1] and [y0 < y1], and a text at (tx, ty) whose
    differences [ty - y0] and [ty - y1] are finite as computed, when the
    divisor [y0 - y1 + 1e-9] of the falling edge is not zero as computed,
    the spatial join finds the text inside exactly when [x0 <= tx < x1] and
    [y0 <= ty < y1]; joined with this one text, the panel takes the text as
    its label in that case and keeps its label otherwise. *)
Theorem label_of_rectangular_panel (x0 y0 x1 y1 tx ty : float)
    (label old : option string) :
  PrimFloat.is_finite x0 = true -> PrimFloat.is_finite x1 = true ->
  PrimFloat.is_finite y0 = true -> PrimFloat.is_finite y1 = true ->
  (x0 <? x1)%float = true -> (y0 <? y1)%float = true ->
  PrimFloat.is_nan tx = false ->
  PrimFloat.is_finite (ty - y0)%float = true ->
  PrimFloat.is_finite (ty - y1)%float = true ->
  (y0 - y1 + Double.eps9 =? 0)%float = false ->
  let ring := [(x0, y0); (x1, y0); (x1, y1); (x0, y1); (x0, y0)] in
  let t := Double.mkText (tx, ty) label in
  let inside :=
    (x0 <=? tx)%float && (tx <? x1)%float &&
    (y0 <=? ty)%float && (ty <? y1)%float in
  Double.textInside ring t = inside /\
  Double.properties_text (Double.joinText [t] (Double.mkFeature ring old))
  = if inside then label else old.
Proof.
  intros Fx0 Fx1 Fy0 Fy1 Hx Hy Nx Ft0 Ft1 Hd ring t inside.
  pose proof (rising_edge_divisor y0 y1 Hy) as Hd'.
  assert (Double.textInside ring t = inside) as Hin.
  { subst ring t inside. unfold Double.textInside.
    rewrite (polyBox_rectangle x0 y0 x1 y1) by done.
    cbn [Double.text_coordinates fst snd].
    change (zip _ _)
      with [((x0, y0), (x0, y0)); ((x1, y0), (x0, y0));
            ((x1, y1), (x1, y0)); ((x0, y1), (x1, y1));
            ((x0, y0), (x0, y1))].
    cbn [foldl].
    rewrite (intersect_horizontal _ _ (x0, y0) (x0, y0)) by done.
    rewrite (intersect_horizontal _ _ (x1, y0) (x0, y0)) by done.
    rewrite (intersect_horizontal _ _ (x0, y1) (x1, y1)) by done.
    unfold Double.intersect. cbn [fst snd].
    rewrite !vertical_crossing by done.
    assert (PrimFloat.is_nan ty = false) as Ny.
    { destruct (PrimFloat.is_nan ty) eqn:E; [|done].
      assert (Prim2SF (ty - y0)%float = S754_nan) as Hn
        by (apply sub_nan; auto).
      destruct (is_finite_spec _ Ft0) as [[s Hs] | (s & m & e & Hs)];
        rewrite Hn in Hs; done. }
    pose proof (is_finite_number _ Fx0). pose proof (is_finite_number _ Fx1).
    pose proof (is_finite_number _ Fy0). pose proof (is_finite_number _ Fy1).
    rewrite ltb_value in Hx, Hy by done.
    apply Z.ltb_lt in Hx. apply Z.ltb_lt in Hy.
    rewrite !ltb_value, !leb_value by done.
    destruct (Z.ltb_spec (value ty) (value y0)),
      (Z.ltb_spec (value ty) (value y1)),
      (Z.ltb_spec (value tx) (value x0)), (Z.ltb_spec (value tx) (value x1)),
      (Z.ltb_spec (value x1) (value tx)), (Z.ltb_spec (value y1) (value ty)),
      (Z.leb_spec (value x0) (value tx)), (Z.leb_spec (value y0) (value ty));
      try reflexivity; exfalso; lia. }
  split; [exact Hin|].
  unfold Double.joinText. cbn [Double.coordinates find].
  fold ring. rewrite Hin. by destruct inside.
Qed.

Lemma label_of_rectangular_panel_witness :
  Double.properties_text
    (Double.joinText [Double.mkText (2, 0.5)%float (Some "A1")]
       (Double.mkFeature
          [(0, 0); (4, 0); (4, 1); (0, 1); (0, 0)]%float None))
  = Some "A1".
Proof.
  exact (proj2 (label_of_rectangular_panel 0 0 4 1 2 0.5 (Some "A1") None
                  eq_refl eq_refl eq_refl eq_refl eq_refl eq_refl
                  eq_refl eq_refl eq_refl eq_refl)).
Defined.

(** ** The inverter markers *)

Lemma zero_value a : (a =? 0)%float = true -> value a = 0%Z.
Proof.
  intros H. destruct (eqb_numbers _ _ H) as [Ha H0].
  rewrite eqb_value in H by done. by apply Z.eqb_eq in H.
Qed.

Lemma no_nan_elem (l : list float) x :
  existsb PrimFloat.is_nan l = false -> x ∈ l -> PrimFloat.is_nan x = false.
Proof.
  intros H Hx. destruct (PrimFloat.is_nan x) eqn:E; [|done].
  assert (existsb PrimFloat.is_nan l = true); [|congruence].
  apply existsb_exists. exists x. split; [by apply list_elem_of_In | done].
Qed.

(** The least of a list of numbers is one of them and is below all. *)
Lemma minimum_spec (l : list float) : forall lowest,
  existsb PrimFloat.is_nan l = false -> PrimFloat.is_nan lowest = false ->
  let r := foldl (fun lowest number =>
                    if Double.isNegZero number && Double.isPosZero lowest
                    then number
                    else if (number <? lowest)%float then number else lowest)
                 lowest l in
  (r = lowest \/ r ∈ l) /\ (value r <= value lowest)%Z /\
  forall x, x ∈ l -> (value r <= value x)%Z.
Proof.
  induction l as [|a l IH]; intros lowest Hl Hn; cbv zeta.
  - cbn [foldl]. split; [by left|]. split; [lia|].
    intros x Hx. by apply elem_of_nil in Hx.
  - cbn [foldl existsb] in *. apply orb_false_iff in Hl as [Ha Hl].
    set (next := if Double.isNegZero a && Double.isPosZero lowest then a
                 else if (a <? lowest)%float then a else lowest).
    assert ((next = a \/ next = lowest) /\
            (value next <= value lowest)%Z /\ (value next <= value a)%Z)
      as (Hnext & Hlo & Hna).
    { subst next.
      destruct (Double.isNegZero a && Double.isPosZero lowest) eqn:E.
      - apply andb_true_iff in E as [E1 E2].
        apply andb_true_iff in E1 as [E1 _].
        apply andb_true_iff in E2 as [E2 _].
        rewrite (zero_value _ E1), (zero_value _ E2). auto with lia.
      - rewrite ltb_value by done.
        destruct (Z.ltb_spec (value a) (value lowest)); auto with lia. }
    assert (PrimFloat.is_nan next = false) as Hnn
      by (destruct Hnext as [-> | ->]; done).
    destruct (IH next Hl Hnn) as (Hr & Hrn & Hrl). cbv zeta in Hr, Hrn, Hrl.
    split.
    { destruct Hr as [-> | Hr]; [|right; by right].
      destruct Hnext as [-> | ->]; [right; by left | by left]. }
    split; [lia|]. intros x Hx.
    apply elem_of_cons in Hx as [-> | Hx]; [lia | by apply Hrl].
Qed.

Lemma maximum_spec (l : list float) : forall highest,
  existsb PrimFloat.is_nan l = false -> PrimFloat.is_nan highest = false ->
  let r := foldl (fun highest number =>
                    if Double.isPosZero number && Double.isNegZero highest
                    then number
                    else if (highest <? number)%float then number
                         else highest)
                 highest l in
  (r = highest \/ r ∈ l) /\ (value highest <= value r)%Z /\
  forall x, x ∈ l -> (value x <= value r)%Z.
Proof.
  induction l as [|a l IH]; intros highest Hl Hn; cbv zeta.
  - cbn [foldl]. split; [by left|]. split; [lia|].
    intros x Hx. by apply elem_of_nil in Hx.
  - cbn [foldl existsb] in *. apply orb_false_iff in Hl as [Ha Hl].
    set (next := if Double.isPosZero a && Double.isNegZero highest then a
                 else if (highest <? a)%float then a else highest).
    assert ((next = a \/ next = highest) /\
            (value highest <= value next)%Z /\ (value a <= value next)%Z)
      as (Hnext & Hlo & Hna).
    { subst next.
      destruct (Double.isPosZero a && Double.isNegZero highest) eqn:E.
      - apply andb_true_iff in E as [E1 E2].
        apply andb_true_iff in E1 as [E1 _].
        apply andb_true_iff in E2 as [E2 _].
        rewrite (zero_value _ E1), (zero_value _ E2). auto with lia.
      - rewrite ltb_value by done.
        destruct (Z.ltb_spec (value highest) (value a)); auto with lia. }
    assert (PrimFloat.is_nan next = false) as Hnn
      by (destruct Hnext as [-> | ->]; done).
    destruct (IH next Hl Hnn) as (Hr & Hrn & Hrl). cbv zeta in Hr, Hrn, Hrl.
    split.
    { destruct Hr as [-> | Hr]; [|right; by right].
      destruct Hnext as [-> | ->]; [right; by left | by left]. }
    split; [lia|]. intros x Hx.
    apply elem_of_cons in Hx as [-> | Hx]; [lia | by apply Hrl].
Qed.

Lemma finite_no_nan (l : list float) :
  forallb PrimFloat.is_finite l = true -> existsb PrimFloat.is_nan l = false.
Proof.
  induction l as [|a l IH]; [done|]. cbn [forallb existsb]. intros H.
  apply andb_true_iff in H as [Ha Hl].
  by rewrite (is_finite_number a Ha), IH.
Qed.

(** [Math.min] and [Math.max] of finite numbers, at least one: each is one
    of the numbers, all the numbers lie between them, and their difference
    is not negative. *)
Lemma min_max_spec (l : list float) :
  l <> [] -> forallb PrimFloat.is_finite l = true ->
  Double.mathMin l ∈ l /\ Double.mathMax l ∈ l /\
  (forall x, x ∈ l ->
     (Double.mathMin l <=? x)%float = true /\
     (x <=? Double.mathMax l)%float = true) /\
  (0 <=? Double.mathMax l - Double.mathMin l)%float = true.
Proof.
  intros Hne Hfin. pose proof (finite_no_nan l Hfin) as Hnan.
  assert (forall x, x ∈ l -> PrimFloat.is_finite x = true) as Hall.
  { intros x Hx. apply (proj1 (forallb_forall _ _) Hfin).
    by apply list_elem_of_In. }
  unfold Double.mathMin, Double.mathMax. rewrite Hnan.
  destruct (minimum_spec l PrimFloat.infinity Hnan eq_refl) as (Hm & _ & Hml).
  destruct (maximum_spec l PrimFloat.neg_infinity Hnan eq_refl)
    as (HM & _ & HMl).
  cbv zeta in Hm, Hml, HM, HMl.
  set (m := foldl _ infinity l) in *. set (M := foldl _ neg_infinity l) in *.
  destruct l as [|a l]; [done|].
  assert (a ∈ a :: l) as Ha by (by left).
  assert (m ∈ a :: l) as Hmin.
  { destruct Hm as [Hm | Hm]; [|done]. exfalso.
    specialize (Hml a Ha). rewrite Hm in Hml.
    destruct (finite_between_infinities a (Hall a Ha)) as [Hlt _].
    rewrite ltb_value in Hlt by (done || by apply is_finite_number, Hall).
    apply Z.ltb_lt in Hlt. lia. }
  assert (M ∈ a :: l) as Hmax.
  { destruct HM as [HM | HM]; [|done]. exfalso.
    specialize (HMl a Ha). rewrite HM in HMl.
    destruct (finite_between_infinities a (Hall a Ha)) as [_ Hlt].
    rewrite ltb_value in Hlt by (done || by apply is_finite_number, Hall).
    apply Z.ltb_lt in Hlt. lia. }
  pose proof (is_finite_number _ (Hall m Hmin)) as Nm.
  pose proof (is_finite_number _ (Hall M Hmax)) as NM.
  split; [exact Hmin|]. split; [exact Hmax|]. split.
  - intros x Hx. pose proof (is_finite_number _ (Hall x Hx)) as Nx.
    rewrite !leb_value by done. split; apply Z.leb_le; auto.
  - pose proof (sub_signum M m NM Nm) as Hs.
    pose proof (sub_finite_number M m (Hall M Hmax) (Hall m Hmin)) as Hn.
    apply is_nan_spec in Hn. rewrite leb_spec.
    change (Prim2SF 0) with (S754_zero false).
    specialize (Hml M Hmax).
    destruct (Z.compare_spec (value M) (value m)) as [E|E|E]; [| lia |];
      destruct (Prim2SF (M - m)%float) as [s|[]| |[] mm ee]; done.
Qed.

Lemma forallb_map_finite {A : Type} (f g : A -> float) (l : list A) :
  forallb (fun c => PrimFloat.is_finite (f c) && PrimFloat.is_finite (g c)) l
  = true ->
  forallb PrimFloat.is_finite (map f l) = true /\
  forallb PrimFloat.is_finite (map g l) = true.
Proof.
  induction l as [|c l IH]; [done|]. cbn [forallb map]. intros H.
  apply andb_true_iff in H as [Hc Hl]. apply andb_true_iff in Hc as [-> ->].
  by destruct (IH Hl) as [-> ->].
Qed.

(** X18: the marker of an inverter, in doubles.  For an inverter feature
    with at least three positions whose canvas coordinates are finite, the
    component draws a rectangle whose corner (x, y) is the least canvas x
    and the least canvas y of the positions, each attained by one of them,
    so that no position lies to the left of or above the corner, and whose
    width and height, as computed, are not negative. *)
Theorem inverter_marker_corner (bounds : option Double.Bounds)
    (canvasSize : Double.CanvasSize) (coords : list Double.Coord) :
  let point := fun c : Double.Coord =>
    Double.toSvgCoords bounds canvasSize (fst c) (snd c) in
  3 <= length coords ->
  forallb (fun c => PrimFloat.is_finite (Double.px (point c)) &&
                    PrimFloat.is_finite (Double.py (point c))) coords = true ->
  exists marker,
    Double.InvPoint bounds canvasSize (Some coords) = Some marker /\
    (exists c, c ∈ coords /\ Double.marker_x marker = Double.px (point c)) /\
    (exists c, c ∈ coords /\ Double.marker_y marker = Double.py (point c)) /\
    (forall c, c ∈ coords ->
       (Double.marker_x marker <=? Double.px (point c))%float = true /\
       (Double.marker_y marker <=? Double.py (point c))%float = true) /\
    (0 <=? Double.marker_width marker)%float = true /\
    (0 <=? Double.marker_height marker)%float = true.
Proof.
  intros point Hlen Hfin.
  destruct (forallb_map_finite (fun c => Double.px (point c))
              (fun c => Double.py (point c)) coords Hfin) as [Hxs Hys].
  assert (coords <> []) as Hne by (intros ->; simpl in Hlen; lia).
  set (xs := map (fun c => Double.px (point c)) coords) in *.
  set (ys := map (fun c => Double.py (point c)) coords) in *.
  assert (xs <> []) as Hxne by (subst xs; by destruct coords).
  assert (ys <> []) as Hyne by (subst ys; by destruct coords).
  destruct (min_max_spec xs Hxne Hxs) as (Hmx & _ & Hbx & Hwx).
  destruct (min_max_spec ys Hyne Hys) as (Hmy & _ & Hby & Hwy).
  exists {| Double.marker_x := Double.mathMin xs;
            Double.marker_y := Double.mathMin ys;
            Double.marker_width := (Double.mathMax xs - Double.mathMin xs)%float;
            Double.marker_height :=
              (Double.mathMax ys - Double.mathMin ys)%float |}.
  cbn [Double.marker_x Double.marker_y Double.marker_width
       Double.marker_height].
  split.
  { unfold Double.InvPoint.
    destruct (length coords <? 3) eqn:E; [apply Nat.ltb_lt in E; lia|].
    subst xs ys point. by rewrite !map_map. }
  split.
  { apply list_elem_of_fmap in Hmx as (c & Hc & Hin). by exists c. }
  split.
  { apply list_elem_of_fmap in Hmy as (c & Hc & Hin). by exists c. }
  split; [|done].
  intros c Hc. split.
  - apply Hbx. subst xs. by apply (list_elem_of_fmap_2 (fun c => Double.px (point c))).
  - apply Hby. subst ys. by apply (list_elem_of_fmap_2 (fun c => Double.py (point c))).
Qed.

Lemma inverter_marker_corner_witness :
  exists marker,
    Double.InvPoint (Double.computeBounds inverterDouble) Double.loadedCanvas
                    (Some inverterDouble) = Some marker /\
    (0 <=? Double.marker_width marker)%float = true /\
    (0 <=? Double.marker_height marker)%float = true.
Proof.
  destruct (inverter_marker_corner (Double.computeBounds inverterDouble)
              Double.loadedCanvas inverterDouble)
    as (marker & Hm & _ & _ & _ & Hw & Hh);
    [simpl; lia | vm_compute; reflexivity |].
  by exists marker.
Defined.

(** ** Notes keep their distance *)

Lemma apart_snoc l x :
  apart (l ++ [x])
  = apart l && forallb (fun n => negb (nearClick (pointOf x) n)) l.
Proof.
  induction l as [|n l IH]; [done|].
  cbn [app apart forallb]. rewrite IH, forallb_app. cbn [forallb].
  destruct (forallb _ l), (nearClick (pointOf x) n), (apart l),
    (forallb _ l); reflexivity.
Qed.

Lemma forallb_filter_keep {A : Type} (P Q : A -> bool) (l : list A) :
  forallb P l = true -> forallb P (List.filter Q l) = true.
Proof.
  induction l as [|x l IH]; [done|]. cbn [forallb List.filter].
  intros [Hx Hl]%andb_true_iff. destruct (Q x); [|by apply IH].
  cbn [forallb]. by rewrite Hx, IH.
Qed.

Lemma apart_filter (Q : Note -> bool) l :
  apart l = true -> apart (List.filter Q l) = true.
Proof.
  induction l as [|n l IH]; [done|]. cbn [apart List.filter].
  intros [Hn Hl]%andb_true_iff. destruct (Q n); [|by apply IH].
  cbn [apart]. by rewrite forallb_filter_keep, IH.
Qed.

Lemma apart_map (f : Note -> Note) l :
  (forall n, svgX (f n) = svgX n /\ svgY (f n) = svgY n) ->
  apart (map f l) = apart l.
Proof.
  intros Hf. induction l as [|n l IH]; [done|]. cbn [map apart].
  rewrite IH. f_equal. clear IH.
  induction l as [|m l IH]; [done|]. cbn [map forallb]. rewrite IH. f_equal.
  unfold nearClick, pointOf. cbn [px py].
  destruct (Hf n) as [-> ->]. destruct (Hf m) as [-> ->]. done.
Qed.

Lemma find_none_forallb {A : Type} (P : A -> bool) (l : list A) :
  find P l = None -> forallb (fun x => negb (P x)) l = true.
Proof.
  induction l as [|x l IH]; [done|]. cbn [find forallb].
  destruct (P x); [done|]. exact IH.
Qed.

Lemma noteStep_apart nl nl' :
  noteStep nl nl' -> apart (notes nl) = true -> apart (notes nl') = true.
Proof.
  intros Hstep Ha.
  destruct Hstep as [now g nl | note nl Hin | editorText nl | nl
                    | note nl Hed | mode nl | nl]; try exact Ha.
  - unfold handleMouseUpNote.
    destruct (isNoteSelecting g); [|done].
    destruct (noteSelectionStart g) as [s|]; [|done].
    destruct (noteSelectionEnd g) as [e|]; [|done].
    destruct (belowThreshold s e); [|done].
    destruct (find (nearClick s) (notes nl)) eqn:Hfind; [done|].
    cbn [notes]. rewrite apart_snoc, Ha. cbn [andb].
    apply (find_none_forallb _ _ Hfind).
  - unfold editorSave. destruct (editingNote nl) as [note|]; [|done].
    cbn [notes]. destruct (trimIsEmpty editorText); [done|].
    cbn [updateNote notes]. rewrite apart_map; [done|].
    intros n. by destruct (bool_decide _).
  - cbn [editorDelete deleteNote notes]. by apply apart_filter.
  - unfold handleDeleteKey. destruct mode; [|done].
    destruct (0 <? size (selectedNotes nl)); [|done].
    cbn [notes]. by apply apart_filter.
Qed.

(** X27: notes keep their distance.  In every note layer reached from
    the empty one by clicks and drags in note mode, clicks on markers, the
    actions of the note editor, the Delete key and the note mode toggle, no
    note lies within the click radius (a distance below 5) of another
    note: a click never adds a note on top of an existing one, and no action
    moves a note. *)
Theorem notes_stay_apart nl :
  reachableNotes nl ->
  apart (notes nl) = true /\
  forall i j n m,
    i < j -> notes nl !! i = Some n -> notes nl !! j = Some m ->
    nearClick (pointOf m) n = false.
Proof.
  intros Hr.
  assert (apart (notes nl) = true) as Ha.
  { induction Hr as [|nl nl' _ IH Hstep]; [done|].
    by eapply noteStep_apart. }
  split; [exact Ha|].
  clear Hr. revert Ha. generalize (notes nl) as l. clear nl.
  induction l as [|x l IH]; intros Ha i j n m Hij Hi Hj.
  - by rewrite lookup_nil in Hi.
  - cbn [apart] in Ha. apply andb_true_iff in Ha as [Hx Hl].
    destruct j as [|j]; [lia|]. cbn in Hj.
    destruct i as [|i].
    + cbn in Hi. inversion Hi; subst x.
      rewrite forallb_forall in Hx.
      apply negb_true_iff, Hx, list_elem_of_In.
      by eapply list_elem_of_lookup_2.
    + cbn in Hi. apply (IH Hl i j n m); [lia|done|done].
Qed.

Lemma notes_stay_apart_witness :
  reachableNotes
    (handleMouseUpNote 2 (noteClick 200 100)
       (handleMouseUpNote 1 (noteClick 100 100) initialNotes)) /\
  apart (notes
           (handleMouseUpNote 2 (noteClick 200 100)
              (handleMouseUpNote 1 (noteClick 100 100) initialNotes)))
  = true.
Proof.
  assert (reachableNotes
            (handleMouseUpNote 2 (noteClick 200 100)
               (handleMouseUpNote 1 (noteClick 100 100) initialNotes)))
    as Hr.
  { eapply reachableNotes_step; [|apply noteStep_mouseUp].
    eapply reachableNotes_step; [|apply noteStep_mouseUp].
    apply reachableNotes_init. }
  split; [exact Hr|].
  exact (proj1 (notes_stay_apart _ Hr)).
Defined.
